(** * Mako (meme workshop): grid slicing, cover fit, packaging, orchestration

    A shallow embedding of [services/imageUtils.ts], of
    [generateMemeMetadata] in [services/geminiService.ts] and of
    [handleGenerate] in [App.tsx], with the properties the specification
    states about them.

    Conventions of the embedding.
    - A JavaScript string is its sequence of UTF-16 code units ([jsstring]);
      [lit] embeds an ASCII literal.
    - A JavaScript number is the rational it denotes ([Q]). In
      [processImage] every quotient, product and difference is rounded as
      IEEE 754 binary64 arithmetic rounds it ([Double.round]: 53 significant
      bits, ties to even). The exponent range is not modelled: nothing
      overflows to Infinity or underflows, which no operation on image
      dimensions below 2^31 and on the targets of the application comes near.
      In [sliceMemeGrid] the cell size W / 6 by H / 4 and the corner radius
      are kept as exact rationals. The divisors in the modelled code are the
      grid constants and, in [processImage], the dimensions of the source
      image, which are positive for an image that decoded.
    - A promise that has settled is an [Outcome]: [Resolved v] or
      [Rejected e].
    - The host raster API (canvas) is modelled per pixel: a pixel of a canvas
      is [Clear] (transparent black) or a stack of layers, each a source
      sample drawn over the whole pixel square or over a part of it, the
      value of a partly covered pixel being left to the host's antialiasing.
      A rectangle covers the pixel squares inside it whole. A rounded corner
      leaves the squares beyond its curve clear and covers whole the squares
      behind its chord; between the two, where hosts that draw the curve as
      a polygon differ, a pixel counts as partly covered.
    - PNG encoding is lossless, so an encoded image is identified with the
      bitmap it encodes. *)

From Stdlib Require Import QArith Qround Qminmax Qabs Qpower Lqa Lia ZArith String Ascii List.
From Stdlib Require Import DecimalString.
From stdpp Require Import base option list gmap.
Import ListNotations.

Local Open Scope Z_scope.
Set Warnings "-register-all".

(** ** JavaScript strings *)

Module JS.

Definition code_unit := N.
Definition jsstring := list N.

(** An ASCII literal as code units. *)
Definition lit (s : string) : jsstring :=
  List.map N_of_ascii (list_ascii_of_string s).

(** [Number.prototype.toString] on a non-negative integer. *)
Definition toString (n : nat) : jsstring :=
  lit (NilEmpty.string_of_uint (Nat.to_uint n)).

(** [String.prototype.padStart(targetLength, pad)] for a pad string of one
    code unit. *)
Definition padStart (s : jsstring) (targetLength : nat) (pad : N) : jsstring :=
  List.repeat pad (targetLength - List.length s) ++ s.

(** [String.prototype.substring(0, n)]. *)
Definition substring0 (s : jsstring) (n : nat) : jsstring := firstn n s.

(** A settled promise. *)
Inductive Outcome (A : Type) : Type :=
  | Resolved (v : A)
  | Rejected (message : jsstring).
Arguments Resolved {A} v.
Arguments Rejected {A} message.

(** The messages of the TypeErrors thrown by reading the property [prop] of
    [undefined] and by iterating over a variable [name] that is
    [undefined]. Their wording is the engine's own; this is V8's. *)
Definition TypeError_read_of_undefined (prop : jsstring) : jsstring :=
  lit "Cannot read properties of undefined (reading '" ++ prop ++ lit "')".

Definition TypeError_not_iterable (name : jsstring) : jsstring :=
  name ++ lit " is not iterable".

End JS.
Import JS.

(** ** JavaScript numbers *)

Module Double.

Local Open Scope Q_scope.

(** The integer part of the binary logarithm of the positive rational
    n / d. *)
Definition ilog2 (n d : positive) : Z :=
  let k := (Z.log2 (Zpos n) - Z.log2 (Zpos d))%Z in
  if Qle_bool (2 ^ k) (Zpos n # d) then k else (k - 1)%Z.

(** The exponent of the last of the 53 bits of a double of the magnitude of
    [q]: 2^52 <= |q| / 2^e < 2^53. *)
Definition exponent (q : Q) : Z :=
  match Qnum (Qred q) with
  | Z0 => 0%Z
  | Zpos n | Zneg n => (ilog2 n (Qden (Qred q)) - 52)%Z
  end.

(** The nearest integer, the even one of two that are equally near. *)
Definition round_half_even (x : Q) : Z :=
  let f := Qfloor x in
  match Qcompare (x - inject_Z f) (1 # 2) with
  | Lt => f
  | Gt => (f + 1)%Z
  | Eq => if Z.even f then f else (f + 1)%Z
  end.

(** The double nearest to [q] (round to nearest, ties to even). *)
Definition round (q : Q) : Q :=
  let e := exponent q in
  inject_Z (round_half_even (Qred q / 2 ^ e)) * 2 ^ e.

(** The operators [/], [*] and [-] on numbers. *)
Definition div (x y : Q) : Q := round (x / y).
Definition mul (x y : Q) : Q := round (x * y).
Definition sub (x y : Q) : Q := round (x - y).

(** Half a unit in the last place, relative to the number: 2^-53. *)
Definition u : Q := 1 # 9007199254740992.

End Double.

Notation "x [/] y" := (Double.div x y) (at level 40, left associativity).
Notation "x [*] y" := (Double.mul x y) (at level 40, left associativity).
Notation "x [-] y" := (Double.sub x y) (at level 50, left associativity).

(** ** The host raster API *)

Module Raster.

Local Open Scope Q_scope.

Record rgba := { red : N; green : N; blue : N; alpha : N }.

(** A decoded [HTMLImageElement]: natural width and height, and its pixels. *)
Record RasterImage := {
  width : Z;
  height : Z;
  pixel : Z -> Z -> rgba
}.

(** What [drawImage] reads for one destination pixel: a source pixel itself
    when the source rectangle is drawn at scale 1 from a whole-pixel position,
    otherwise a value the host interpolates around a source position. *)
Inductive sample :=
  | Px (c : rgba)
  | Interp (x y : Q).

(** How much of a pixel square a shape covers: nothing of it, all of it,
    or a part that is left to the host's rasteriser. *)
Inductive coverage := Uncovered | Partly | Covered.

Definition meet (a b : coverage) : coverage :=
  match a, b with
  | Uncovered, _ | _, Uncovered => Uncovered
  | Covered, Covered => Covered
  | _, _ => Partly
  end.

(** A canvas pixel, as the history of what was composited on it:
    [Clear] is transparent black; [Layer true s below] is the sample [s]
    drawn over the whole pixel, [Layer false s below] over as much of it as
    the host's antialiasing makes of an edge; [Faded below] is a pixel
    partly erased. *)
Inductive canvas_px :=
  | Clear
  | Layer (whole : bool) (s : sample) (below : canvas_px)
  | Faded (below : canvas_px).

(** A pixel that holds exactly the colour [c] drawn on a transparent
    background. *)
Definition exact_copy (c : rgba) : canvas_px := Layer true (Px c) Clear.

Inductive segment :=
  | MoveTo (x y : Q)
  | LineTo (x y : Q)
  | QuadTo (cx cy x y : Q)
  | ClosePath.

Definition path := list segment.

(** The canvas element together with its 2D context: the bitmap, the
    current path, the clipping region (the intersection of the listed paths)
    and the stack of saved clipping regions. *)
Record Canvas := {
  cv_width : Z;
  cv_height : Z;
  cv_px : Z -> Z -> canvas_px;
  cv_path : path;
  cv_clip : list path;
  cv_saved : list (list path)
}.

(** [document.createElement('canvas')]: 300 by 150, transparent. *)
Definition createCanvas : Canvas :=
  {| cv_width := 300; cv_height := 150; cv_px := fun _ _ => Clear;
     cv_path := []; cv_clip := []; cv_saved := [] |}.

(** Truncation toward zero. *)
Definition Qtrunc (q : Q) : Z := Z.quot (Qnum q) (Zpos (Qden q)).

(** Conversion of a number to the WebIDL [unsigned long] of the [width] and
    [height] attributes: truncated, modulo 2^32. *)
Definition to_unsigned_long (q : Q) : Z := (Qtrunc q mod 2 ^ 32)%Z.

(** What a reflected [unsigned long] attribute with a default keeps of a
    number assigned to it: the converted value up to 2^31 - 1, the default
    above. *)
Definition reflect_dimension (default : Z) (q : Q) : Z :=
  let n := to_unsigned_long q in
  if (n <=? 2147483647)%Z then n else default.

(** [canvas.width = q]: the bitmap is resized and cleared and the context
    is reset to its default state. *)
Definition set_width (q : Q) (c : Canvas) : Canvas :=
  {| cv_width := reflect_dimension 300 q; cv_height := cv_height c;
     cv_px := fun _ _ => Clear; cv_path := []; cv_clip := []; cv_saved := [] |}.

Definition set_height (q : Q) (c : Canvas) : Canvas :=
  {| cv_width := cv_width c; cv_height := reflect_dimension 150 q;
     cv_px := fun _ _ => Clear; cv_path := []; cv_clip := []; cv_saved := [] |}.

Definition Qltb (x y : Q) : bool := negb (Qle_bool y x).

(** Coverage of the pixel square [i, i+1] x [j, j+1] by the rectangle with
    corners (x0, y0) and (x1, y1). *)
Definition rect_cover (x0 y0 x1 y1 : Q) (i j : Z) : coverage :=
  let xi := inject_Z i in
  let yj := inject_Z j in
  if Qle_bool x0 xi && Qle_bool (xi + 1) x1 &&
     Qle_bool y0 yj && Qle_bool (yj + 1) y1 then Covered
  else if Qle_bool (xi + 1) x0 || Qle_bool x1 xi ||
          Qle_bool (yj + 1) y0 || Qle_bool y1 yj then Uncovered
  else Partly.

(** The corner that [quadraticCurveTo] rounds off. A point at distances
    [x] and [y] from a corner of the box, measured along its two sides, lies
    beyond the curve of radius [r] when sqrt x + sqrt y <= sqrt r, that is
    when x + y <= r and 4xy <= (r - x - y)^2. [corner_out] is that closed
    region, [corner_cut] its interior. *)
Definition corner_out (r x y : Q) : bool :=
  Qle_bool 0 x && Qle_bool 0 y && Qle_bool (x + y) r &&
  Qle_bool (4 * x * y) ((r - x - y) * (r - x - y)).

Definition corner_cut (r x y : Q) : bool :=
  Qle_bool 0 x && Qle_bool 0 y && Qltb (x + y) r &&
  Qltb (4 * x * y) ((r - x - y) * (r - x - y)).

(** The pixel square lies in one of the four rounded-off corners of the
    w by h box: the vertex of the square farthest from that corner does. *)
Definition in_cut_corner (w h r : Q) (i j : Z) : bool :=
  let xi := inject_Z i in
  let yj := inject_Z j in
  corner_out r (xi + 1) (yj + 1) || corner_out r (w - xi) (yj + 1) ||
  corner_out r (xi + 1) (h - yj) || corner_out r (w - xi) (h - yj).

(** The pixel square lies on the inner side of the chord of each corner,
    the straight line between the two ends of its curve: the vertex of the
    square nearest to the corner is at least r away from it, the distances
    along the two sides added. A host draws the curve as a polygon with
    vertices on it, and every such polygon contains the region behind the
    chords; between a chord and its curve the hosts differ. *)
Definition within_chords (w h r : Q) (i j : Z) : bool :=
  let xi := inject_Z i in
  let yj := inject_Z j in
  Qle_bool r (xi + yj) && Qle_bool r ((w - (xi + 1)) + yj) &&
  Qle_bool r (xi + (h - (yj + 1))) && Qle_bool r ((w - (xi + 1)) + (h - (yj + 1))).

(** Coverage of a pixel square by the rounded rectangle of size w by h and
    corner radius r placed at the origin: none in a rounded-off corner, that
    of the box behind the chords of the corners, left to the host in
    between. *)
Definition rounded_cover (w h r : Q) (i j : Z) : coverage :=
  match rect_cover 0 0 w h i j with
  | Uncovered => Uncovered
  | box =>
      if in_cut_corner w h r i j then Uncovered
      else if within_chords w h r i j then box
      else Partly
  end.

(** The outline the slicer traces with [moveTo], [lineTo] and
    [quadraticCurveTo] has this form; the rasteriser of this model knows
    the region such an outline encloses and treats any other path as a shape
    of unknown extent. *)
Definition seg_eqb (a b : segment) : bool :=
  match a, b with
  | MoveTo x y, MoveTo x' y' => Qeq_bool x x' && Qeq_bool y y'
  | LineTo x y, LineTo x' y' => Qeq_bool x x' && Qeq_bool y y'
  | QuadTo cx cy x y, QuadTo cx' cy' x' y' =>
      Qeq_bool cx cx' && Qeq_bool cy cy' && Qeq_bool x x' && Qeq_bool y y'
  | ClosePath, ClosePath => true
  | _, _ => false
  end.

Fixpoint path_eqb (p q : path) : bool :=
  match p, q with
  | [], [] => true
  | a :: p', b :: q' => seg_eqb a b && path_eqb p' q'
  | _, _ => false
  end.

Definition rounded_outline (w h r : Q) : path :=
  [ MoveTo r 0;
    LineTo (w - r) 0;
    QuadTo w 0 w r;
    LineTo w (h - r);
    QuadTo w h (w - r) h;
    LineTo r h;
    QuadTo 0 h 0 (h - r);
    LineTo 0 r;
    QuadTo 0 0 r 0;
    ClosePath ].

Definition as_rounded_rect (p : path) : option (Q * Q * Q) :=
  match p with
  | MoveTo r _ :: _ :: _ :: _ :: QuadTo w h _ _ :: _ =>
      if path_eqb p (rounded_outline w h r) then Some (w, h, r) else None
  | _ => None
  end.

Definition path_cover (p : path) (i j : Z) : coverage :=
  match as_rounded_rect p with
  | Some (w, h, r) => rounded_cover w h r i j
  | None => match p with [] => Uncovered | _ => Partly end
  end.

(** Coverage by the clipping region: every listed path must cover. *)
Definition clip_cover (clips : list path) (i j : Z) : coverage :=
  fold_right (fun p acc => meet (path_cover p i j) acc) Covered clips.

(** *** Context operations *)

Definition with_px (f : Z -> Z -> canvas_px) (c : Canvas) : Canvas :=
  {| cv_width := cv_width c; cv_height := cv_height c; cv_px := f;
     cv_path := cv_path c; cv_clip := cv_clip c; cv_saved := cv_saved c |}.

Definition with_path (p : path) (c : Canvas) : Canvas :=
  {| cv_width := cv_width c; cv_height := cv_height c; cv_px := cv_px c;
     cv_path := p; cv_clip := cv_clip c; cv_saved := cv_saved c |}.

Definition beginPath (c : Canvas) : Canvas := with_path [] c.
Definition moveTo (x y : Q) (c : Canvas) : Canvas :=
  with_path (cv_path c ++ [MoveTo x y]) c.
Definition lineTo (x y : Q) (c : Canvas) : Canvas :=
  with_path (cv_path c ++ [LineTo x y]) c.
Definition quadraticCurveTo (cx cy x y : Q) (c : Canvas) : Canvas :=
  with_path (cv_path c ++ [QuadTo cx cy x y]) c.
Definition closePath (c : Canvas) : Canvas :=
  with_path (cv_path c ++ [ClosePath]) c.

Definition save (c : Canvas) : Canvas :=
  {| cv_width := cv_width c; cv_height := cv_height c; cv_px := cv_px c;
     cv_path := cv_path c; cv_clip := cv_clip c;
     cv_saved := cv_clip c :: cv_saved c |}.

Definition restore (c : Canvas) : Canvas :=
  match cv_saved c with
  | [] => c
  | k :: rest =>
      {| cv_width := cv_width c; cv_height := cv_height c; cv_px := cv_px c;
         cv_path := cv_path c; cv_clip := k; cv_saved := rest |}
  end.

(** [ctx.clip()]: intersect the clipping region with the current path. *)
Definition clip (c : Canvas) : Canvas :=
  {| cv_width := cv_width c; cv_height := cv_height c; cv_px := cv_px c;
     cv_path := cv_path c; cv_clip := cv_path c :: cv_clip c;
     cv_saved := cv_saved c |}.

(** [ctx.clearRect(x, y, w, h)]. *)
Definition clearRect (x y w h : Q) (c : Canvas) : Canvas :=
  with_px (fun i j =>
    match meet (rect_cover x y (x + w) (y + h) i j) (clip_cover (cv_clip c) i j) with
    | Covered => Clear
    | Uncovered => cv_px c i j
    | Partly => match cv_px c i j with Clear => Clear | p => Faded p end
    end) c.

Definition is_whole (q : Q) : bool := Qeq_bool (inject_Z (Qfloor q)) q.

(** The sample [drawImage] takes for the destination pixel whose top-left
    corner maps to the source position (x, y), at scales kx and ky. *)
Definition sample_at (img : RasterImage) (kx ky x y : Q) : sample :=
  if Qeq_bool kx 1 && Qeq_bool ky 1 && is_whole x && is_whole y
  then Px (pixel img (Qfloor x) (Qfloor y))
  else Interp x y.

(** [ctx.drawImage(img, sx, sy, sw, sh, dx, dy, dw, dh)]. The source
    rectangle is first cut down to the image and the destination rectangle
    in proportion. A rectangle of no extent draws nothing; rectangles of
    negative extent, which a browser mirrors, are outside this model and
    draw nothing here. *)
Definition drawImage9 (img : RasterImage) (sx sy sw sh dx dy dw dh : Q)
    (c : Canvas) : Canvas :=
  if Qle_bool sw 0 || Qle_bool sh 0 || Qle_bool dw 0 || Qle_bool dh 0 then c
  else
    let kx := dw / sw in
    let ky := dh / sh in
    let sx0 := Qmax sx 0 in
    let sy0 := Qmax sy 0 in
    let sx1 := Qmin (sx + sw) (inject_Z (width img)) in
    let sy1 := Qmin (sy + sh) (inject_Z (height img)) in
    let dx0 := dx + (sx0 - sx) * kx in
    let dy0 := dy + (sy0 - sy) * ky in
    let dx1 := dx + (sx1 - sx) * kx in
    let dy1 := dy + (sy1 - sy) * ky in
    with_px (fun i j =>
      let s := sample_at img kx ky
                 (sx + (inject_Z i - dx) / kx) (sy + (inject_Z j - dy) / ky) in
      match meet (rect_cover dx0 dy0 dx1 dy1 i j) (clip_cover (cv_clip c) i j) with
      | Covered => Layer true s (cv_px c i j)
      | Partly => Layer false s (cv_px c i j)
      | Uncovered => cv_px c i j
      end) c.

(** [ctx.drawImage(img, dx, dy, dw, dh)]: the whole image as source. *)
Definition drawImage5 (img : RasterImage) (dx dy dw dh : Q) (c : Canvas) : Canvas :=
  drawImage9 img 0 0 (inject_Z (width img)) (inject_Z (height img)) dx dy dw dh c.

(** The bitmap a canvas exports. *)
Record Bitmap := {
  bm_width : Z;
  bm_height : Z;
  bm_px : Z -> Z -> canvas_px
}.

Definition bitmap_of (c : Canvas) : Bitmap :=
  {| bm_width := cv_width c; bm_height := cv_height c; bm_px := cv_px c |}.

End Raster.
Import Raster.

(** ** services/imageUtils.ts *)

Module ImageUtils.

Local Open Scope Q_scope.

Definition COLS : nat := 6.
Definition ROWS : nat := 4.

(** An encoded image ([canvas.toDataURL], and the [Blob] made of the same
    bytes): the media type and the bitmap that was exported. PNG encodes the
    bitmap without loss. *)
Record Encoded := { mime : jsstring; bitmap : Bitmap }.

Record SlicedImage := {
  id : jsstring;
  blob : Encoded;
  dataUrl : Encoded;
  fileName : jsstring
}.

Inductive AssetType := banner | logo.

Record MarketingAsset := {
  asset_type : AssetType;
  asset_blob : Encoded;
  asset_dataUrl : Encoded;
  asset_fileName : jsstring
}.

(** The browser around the two transforms: the image decoder, applied to the
    data URL assigned to [img.src] ([None]: [onerror] fires, [Some img]:
    [onload] fires), and whether [getContext('2d')] yields a context. *)
Record Env := {
  decode : jsstring -> option RasterImage;
  has_context : bool
}.

Definition toLowerCase_unit (c : N) : N :=
  if ((65 <=? c) && (c <=? 90))%N then (c + 32)%N else c.

(** [toLowerCase], on the code units of Basic Latin; no other character maps
    to one of ".png". *)
Definition toLowerCase (s : jsstring) : jsstring := List.map toLowerCase_unit s.

Fixpoint startsWith (s p : jsstring) : bool :=
  match p, s with
  | [], _ => true
  | b :: p', a :: s' => N.eqb a b && startsWith s' p'
  | _ :: _, [] => false
  end.

Definition endsWith (s p : jsstring) : bool := startsWith (rev s) (rev p).

Fixpoint includes (s p : jsstring) : bool :=
  startsWith s p || match s with [] => false | _ :: s' => includes s' p end.

Definition data_url (imageBase64 : jsstring) : jsstring :=
  lit "data:image/png;base64," ++ imageBase64.

(** Resizes an image to specific dimensions, cropping to fill the target
    aspect ratio (cover). *)
Definition cover_scale (targetWidth targetHeight : Q) (img : RasterImage) : Q :=
  Qmax (targetWidth [/] inject_Z (width img)) (targetHeight [/] inject_Z (height img)).

Definition cover_x (targetWidth targetHeight : Q) (img : RasterImage) : Q :=
  (targetWidth [/] 2) [-] (inject_Z (width img) [/] 2) [*] cover_scale targetWidth targetHeight img.

Definition cover_y (targetWidth targetHeight : Q) (img : RasterImage) : Q :=
  (targetHeight [/] 2) [-] (inject_Z (height img) [/] 2) [*] cover_scale targetWidth targetHeight img.

Definition cover_canvas (targetWidth targetHeight : Q) (img : RasterImage) : Canvas :=
  let canvas := createCanvas in
  let canvas := set_width targetWidth canvas in
  let canvas := set_height targetHeight canvas in
  let scale := cover_scale targetWidth targetHeight img in
  let x := cover_x targetWidth targetHeight img in
  let y := cover_y targetWidth targetHeight img in
  drawImage5 img x y (inject_Z (width img) [*] scale) (inject_Z (height img) [*] scale) canvas.

Definition processImage (env : Env) (imageBase64 : jsstring)
    (targetWidth targetHeight : Q) (fileName : jsstring) : Outcome MarketingAsset :=
  match decode env (data_url imageBase64) with
  | None => Rejected (lit "Image processing failed")
  | Some img =>
      if negb (has_context env) then Rejected (lit "Could not get canvas context")
      else
        let canvas := cover_canvas targetWidth targetHeight img in
        let mimeType :=
          if endsWith (toLowerCase fileName) (lit ".png")
          then lit "image/png" else lit "image/jpeg" in
        let dataUrl := {| mime := mimeType; bitmap := bitmap_of canvas |} in
        let blob := {| mime := mimeType; bitmap := bitmap_of canvas |} in
        Resolved {| asset_type := if includes fileName (lit "banner") then banner else logo;
                    asset_blob := blob;
                    asset_dataUrl := dataUrl;
                    asset_fileName := fileName |}
  end.

Definition cellWidth (img : RasterImage) : Q := inject_Z (width img) / inject_Z (Z.of_nat COLS).
Definition cellHeight (img : RasterImage) : Q := inject_Z (height img) / inject_Z (Z.of_nat ROWS).
Definition borderRadius (img : RasterImage) : Q :=
  Qmin (cellWidth img) (cellHeight img) * (5 # 100).

(** The body of the inner loop up to [ctx.restore()]: what it does to the
    one canvas shared by all iterations. *)
Definition draw_cell (img : RasterImage) (row col : nat) (canvas : Canvas) : Canvas :=
  let cellWidth := cellWidth img in
  let cellHeight := cellHeight img in
  let borderRadius := borderRadius img in
  let canvas := set_width cellWidth canvas in
  let canvas := set_height cellHeight canvas in
  let canvas := clearRect 0 0 cellWidth cellHeight canvas in
  let canvas := beginPath canvas in
  let canvas := moveTo borderRadius 0 canvas in
  let canvas := lineTo (cellWidth - borderRadius) 0 canvas in
  let canvas := quadraticCurveTo cellWidth 0 cellWidth borderRadius canvas in
  let canvas := lineTo cellWidth (cellHeight - borderRadius) canvas in
  let canvas := quadraticCurveTo cellWidth cellHeight (cellWidth - borderRadius) cellHeight canvas in
  let canvas := lineTo borderRadius cellHeight canvas in
  let canvas := quadraticCurveTo 0 cellHeight 0 (cellHeight - borderRadius) canvas in
  let canvas := lineTo 0 borderRadius canvas in
  let canvas := quadraticCurveTo 0 0 borderRadius 0 canvas in
  let canvas := closePath canvas in
  let canvas := save canvas in
  let canvas := clip canvas in
  let sourceX := inject_Z (Z.of_nat col) * cellWidth in
  let sourceY := inject_Z (Z.of_nat row) * cellHeight in
  let canvas := drawImage9 img sourceX sourceY cellWidth cellHeight
                  0 0 cellWidth cellHeight canvas in
  restore canvas.

Definition cell_index (row col : nat) : nat := (row * COLS + col + 1)%nat.

Definition make_slice (canvas : Canvas) (row col : nat) : SlicedImage :=
  let dataUrl := {| mime := lit "image/png"; bitmap := bitmap_of canvas |} in
  let blob := {| mime := lit "image/png"; bitmap := bitmap_of canvas |} in
  let index := cell_index row col in
  {| id := lit "meme-" ++ toString index;
     blob := blob;
     dataUrl := dataUrl;
     fileName := lit "meme_" ++ padStart (toString index) 2 48%N ++ lit ".png" |}.

(** One iteration of the inner loop, on the canvas and the [slices] array. *)
Definition cell_step (img : RasterImage) (row : nat)
    (st : Canvas * list SlicedImage) (col : nat) : Canvas * list SlicedImage :=
  let canvas := draw_cell img row col (fst st) in
  (canvas, snd st ++ [make_slice canvas row col]).

Definition row_step (img : RasterImage)
    (st : Canvas * list SlicedImage) (row : nat) : Canvas * list SlicedImage :=
  fold_left (cell_step img row) (seq 0 COLS) st.

(** The [onload] handler once the context is there: both loops. *)
Definition slice_loop (img : RasterImage) : list SlicedImage :=
  snd (fold_left (row_step img) (seq 0 ROWS) (createCanvas, [])).

Definition sliceMemeGrid (env : Env) (imageBase64 : jsstring)
    : Outcome (list SlicedImage) :=
  match decode env (data_url imageBase64) with
  | None =>
      (* "加载生成的图片失败，无法切片。" *)
      Rejected [21152; 36733; 29983; 25104; 30340; 22270; 29255; 22833; 36133;
                65292; 26080; 27861; 20999; 29255; 12290]%N
  | Some img =>
      if negb (has_context env) then Rejected (lit "Could not get canvas context")
      else Resolved (slice_loop img)
  end.

(** *** The archive (JSZip) *)

Inductive zip_entry :=
  | Folder
  | BlobFile (data : Encoded)
  | TextFile (text : jsstring).

(** The [files] table of a JSZip instance, keyed by full path. The object
    [zip.folder(name)] returns shares this table and only differs in its
    root prefix, so a folder handle is modelled by that prefix. *)
Definition slash : N := 47%N.

(** [path.slice(-1) === "/"]. *)
Definition ends_in_slash (path : jsstring) : bool :=
  match rev path with
  | c :: _ => N.eqb c slash
  | [] => false
  end.

(** JSZip's [forceTrailingSlash]. *)
Definition forceTrailingSlash (path : jsstring) : jsstring :=
  if ends_in_slash path then path else path ++ [slash].

(** The part of a path before its last slash; [None] without a slash. *)
Fixpoint before_last_slash (path : jsstring) : option jsstring :=
  match path with
  | [] => None
  | c :: rest =>
      match before_last_slash rest with
      | Some b => Some (c :: b)
      | None => if N.eqb c slash then Some [] else None
      end
  end.

(** JSZip's [parentFolder]: a trailing slash set aside, the path up to its
    last slash, and the empty string when there is no slash or the last one
    leads the path. *)
Definition parentFolder (path : jsstring) : jsstring :=
  let path := if ends_in_slash path then removelast path else path in
  match before_last_slash path with
  | Some b => b
  | None => []
  end.

(** JSZip's [folderAdd] with [createFolders], its default: unless the name
    is taken, the folder above is added first and then the folder entry is
    written. [fuel] bounds the chain of folders, each shorter than the one
    below it; the length of the name is enough. *)
Fixpoint folderAdd (fuel : nat) (name : jsstring) (files : gmap jsstring zip_entry)
    : gmap jsstring zip_entry :=
  let name := forceTrailingSlash name in
  match files !! name with
  | Some _ => files
  | None =>
      let files :=
        match parentFolder name, fuel with
        | (_ :: _) as parent, S fuel => folderAdd fuel parent files
        | _, _ => files
        end in
      <[name := Folder]> files
  end.

(** [handle.file(name, data)] on the handle with root [root]: the folder
    above is added if it is missing, then the entry is written over any
    earlier one. *)
Definition file_add (root name : jsstring) (e : zip_entry)
    (files : gmap jsstring zip_entry) : gmap jsstring zip_entry :=
  let name := root ++ name in
  let files :=
    match parentFolder name with
    | (_ :: _) as parent => folderAdd (List.length name) parent files
    | [] => files
    end in
  <[name := e]> files.

(** [handle.folder(name)]: without a name, the handle itself; otherwise the
    folder is added and the new handle has the name of its entry, which ends
    in a slash, as root. *)
Definition folder (root name : jsstring) (files : gmap jsstring zip_entry)
    : jsstring * gmap jsstring zip_entry :=
  match name with
  | [] => (root, files)
  | _ :: _ =>
      let name := root ++ name in
      (forceTrailingSlash name, folderAdd (S (List.length name)) name files)
  end.

Record MetaData := { title : jsstring; description : jsstring }.

Definition infoContent (metaData : MetaData) : jsstring :=
  lit "Title: " ++ title metaData ++ [10; 10]%N ++ lit "Description:" ++ [10]%N ++
  description metaData ++ [10; 10]%N ++ lit "Generated by AI Creative Meme Studio".

(** What [downloadBatch] hands to [saveAs]: the archive and its name. *)
Record Download := {
  archive : gmap jsstring zip_entry;
  saved_as : jsstring
}.

Definition downloadBatch (slices : list SlicedImage)
    (extraAssets : list MarketingAsset) (metaData : option MetaData) : Download :=
  let zip : gmap jsstring zip_entry := ∅ in
  let '(stickersFolder, zip) := folder [] (lit "stickers") zip in
  let zip := fold_left (fun z slice =>
               file_add stickersFolder (fileName slice) (BlobFile (blob slice)) z)
               slices zip in
  let zip := fold_left (fun z asset =>
               file_add [] (asset_fileName asset) (BlobFile (asset_blob asset)) z)
               extraAssets zip in
  let zip := match metaData with
             | Some metaData => file_add [] (lit "info.txt") (TextFile (infoContent metaData)) zip
             | None => zip
             end in
  {| archive := zip; saved_as := lit "meme_pack.zip" |}.

End ImageUtils.
Import ImageUtils.

(** ** JSON.parse *)

Module Json.

Inductive json :=
  | JNull
  | JBool (b : bool)
  | JNumber (lexeme : jsstring)
  | JString (s : jsstring)
  | JArray (items : list json)
  | JObject (members : list (jsstring * json)).

Definition is_ws (c : N) : bool :=
  (N.eqb c 32 || N.eqb c 9 || N.eqb c 10 || N.eqb c 13)%N.

Fixpoint skip_ws (s : jsstring) : jsstring :=
  match s with
  | c :: r => if is_ws c then skip_ws r else s
  | [] => []
  end.

Definition is_digit (c : N) : bool := ((48 <=? c) && (c <=? 57))%N.

Definition hex_value (c : N) : option N :=
  if is_digit c then Some (c - 48)%N
  else if ((97 <=? c) && (c <=? 102))%N then Some (c - 87)%N
  else if ((65 <=? c) && (c <=? 70))%N then Some (c - 55)%N
  else None.

Definition hex4 (a b c d : N) : option N :=
  match hex_value a, hex_value b, hex_value c, hex_value d with
  | Some x, Some y, Some z, Some t => Some (((x * 16 + y) * 16 + z) * 16 + t)%N
  | _, _, _, _ => None
  end.

(** The characters of a string literal after its opening quote. *)
Fixpoint parse_string (s acc : jsstring) : option (jsstring * jsstring) :=
  match s with
  | [] => None
  | 34%N :: r => Some (rev acc, r)
  | 92%N :: e :: r =>
      match e with
      | 34%N | 92%N | 47%N => parse_string r (e :: acc)
      | 98%N => parse_string r (8%N :: acc)
      | 102%N => parse_string r (12%N :: acc)
      | 110%N => parse_string r (10%N :: acc)
      | 114%N => parse_string r (13%N :: acc)
      | 116%N => parse_string r (9%N :: acc)
      | 117%N =>
          match r with
          | a :: b :: c :: d :: r' =>
              match hex4 a b c d with
              | Some u => parse_string r' (u :: acc)
              | None => None
              end
          | _ => None
          end
      | _ => None
      end
  | c :: r => if (c <? 32)%N then None else parse_string r (c :: acc)
  end.

Fixpoint take_digits (s : jsstring) : jsstring * jsstring :=
  match s with
  | c :: r => if is_digit c then let '(d, r') := take_digits r in (c :: d, r') else ([], s)
  | [] => ([], [])
  end.

(** number = [-] int [frac] [exp]; the value is kept as its lexeme. *)
Definition parse_number (s : jsstring) : option (jsstring * jsstring) :=
  let '(sign, s1) := match s with 45%N :: r => ([45%N], r) | _ => ([], s) end in
  let '(int, s2) := take_digits s1 in
  match int with
  | [] => None
  | d :: ds =>
      if N.eqb d 48 && negb (match ds with [] => true | _ => false end) then None
      else
        let frac :=
          match s2 with
          | 46%N :: r =>
              let '(f, r') := take_digits r in
              match f with [] => None | _ => Some (46%N :: f, r') end
          | _ => Some ([], s2)
          end in
        match frac with
        | None => None
        | Some (f, s3) =>
            let exp :=
              match s3 with
              | e :: r =>
                  if N.eqb e 101 || N.eqb e 69 then
                    let '(sg, r1) :=
                      match r with
                      | g :: r' => if N.eqb g 43 || N.eqb g 45 then ([g], r') else ([], r)
                      | [] => ([], r)
                      end in
                    let '(x, r2) := take_digits r1 in
                    match x with [] => None | _ => Some (e :: sg ++ x, r2) end
                  else Some ([], s3)
              | [] => Some ([], s3)
              end in
            match exp with
            | None => None
            | Some (x, s4) => Some (sign ++ int ++ f ++ x, s4)
            end
        end
  end.

Fixpoint parse_value (fuel : nat) (s : jsstring) : option (json * jsstring) :=
  match fuel with
  | O => None
  | S fuel =>
      match skip_ws s with
      | 110%N :: 117%N :: 108%N :: 108%N :: r => Some (JNull, r)
      | 116%N :: 114%N :: 117%N :: 101%N :: r => Some (JBool true, r)
      | 102%N :: 97%N :: 108%N :: 115%N :: 101%N :: r => Some (JBool false, r)
      | 34%N :: r =>
          match parse_string r [] with
          | Some (str, r') => Some (JString str, r')
          | None => None
          end
      | 91%N :: r =>
          match skip_ws r with
          | 93%N :: r' => Some (JArray [], r')
          | _ =>
              match parse_items fuel r with
              | Some (items, r') => Some (JArray items, r')
              | None => None
              end
          end
      | 123%N :: r =>
          match skip_ws r with
          | 125%N :: r' => Some (JObject [], r')
          | _ =>
              match parse_members fuel r with
              | Some (members, r') => Some (JObject members, r')
              | None => None
              end
          end
      | s' =>
          match parse_number s' with
          | Some (n, r) => Some (JNumber n, r)
          | None => None
          end
      end
  end
with parse_items (fuel : nat) (s : jsstring) : option (list json * jsstring) :=
  match fuel with
  | O => None
  | S fuel =>
      match parse_value fuel s with
      | None => None
      | Some (v, r) =>
          match skip_ws r with
          | 93%N :: r' => Some ([v], r')
          | 44%N :: r' =>
              match parse_items fuel r' with
              | Some (vs, r'') => Some (v :: vs, r'')
              | None => None
              end
          | _ => None
          end
      end
  end
with parse_members (fuel : nat) (s : jsstring) : option (list (jsstring * json) * jsstring) :=
  match fuel with
  | O => None
  | S fuel =>
      match skip_ws s with
      | 34%N :: r =>
          match parse_string r [] with
          | None => None
          | Some (key, r1) =>
              match skip_ws r1 with
              | 58%N :: r2 =>
                  match parse_value fuel r2 with
                  | None => None
                  | Some (v, r3) =>
                      match skip_ws r3 with
                      | 125%N :: r' => Some ([(key, v)], r')
                      | 44%N :: r' =>
                          match parse_members fuel r' with
                          | Some (ms, r'') => Some ((key, v) :: ms, r'')
                          | None => None
                          end
                      | _ => None
                      end
                  end
              | _ => None
              end
          end
      | _ => None
      end
  end.

(** [JSON.parse text]: [None] when it throws a SyntaxError. The fuel covers
    every call chain, each link of which consumes a character. *)
Definition JSON_parse (text : jsstring) : option json :=
  match parse_value (2 * List.length text + 2) text with
  | Some (v, r) => match skip_ws r with [] => Some v | _ => None end
  | None => None
  end.

End Json.
Import Json.

(** ** JavaScript's reading of a parsed value *)

Module JsValue.

(** What the host does with a number: its text ([Number.prototype.toString])
    and whether it is truthy (neither zero nor NaN). The value of a number
    literal is not modelled, so both are taken from the host. *)
Record NumberHost := {
  number_toString : jsstring -> jsstring;
  number_truthy : jsstring -> bool
}.

(** [ToBoolean]. *)
Definition ToBoolean (h : NumberHost) (v : json) : bool :=
  match v with
  | JNull => false
  | JBool b => b
  | JNumber n => number_truthy h n
  | JString s => match s with [] => false | _ => true end
  | JArray _ | JObject _ => true
  end.

Fixpoint jsstring_eqb (a b : jsstring) : bool :=
  match a, b with
  | [], [] => true
  | x :: a', y :: b' => N.eqb x y && jsstring_eqb a' b'
  | _, _ => false
  end.

(** The own property [k] of an object made by [JSON.parse]: of members with
    the same key the last one stays. *)
Fixpoint own_property (members : list (jsstring * json)) (k : jsstring) : option json :=
  match members with
  | [] => None
  | (k', v) :: rest =>
      match own_property rest k with
      | Some v' => Some v'
      | None => if jsstring_eqb k' k then Some v else None
      end
  end.

(** [v.k] for a key that no prototype defines, such as "title" and
    "description": an own property of an object, [undefined] ([None]) on
    anything else. *)
Definition Get (v : json) (k : jsstring) : option json :=
  match v with
  | JObject members => own_property members k
  | _ => None
  end.

(** [ToString], as a template literal applies it; [None] when it throws a
    TypeError. An array is joined with commas, null elements giving the empty
    string. A plain object gives "[object Object]", unless it has an own
    property "toString": a parsed value is never callable, and [valueOf]
    yields no primitive either. *)
Fixpoint ToString (h : NumberHost) (v : json) : option jsstring :=
  match v with
  | JNull => Some (lit "null")
  | JBool true => Some (lit "true")
  | JBool false => Some (lit "false")
  | JNumber n => Some (number_toString h n)
  | JString s => Some s
  | JArray items =>
      (fix join (l : list json) : option jsstring :=
         match l with
         | [] => Some []
         | x :: rest =>
             let first := match x with JNull => Some [] | _ => ToString h x end in
             match first, rest with
             | None, _ => None
             | Some a, [] => Some a
             | Some a, _ :: _ =>
                 match join rest with
                 | Some b => Some (a ++ [44%N] ++ b)
                 | None => None
                 end
             end
         end) items
  | JObject members =>
      match own_property members (lit "toString") with
      | Some _ => None
      | None => Some (lit "[object Object]")
      end
  end.

(** [ToString] of a value that may be [undefined]. *)
Definition ToString_opt (h : NumberHost) (v : option json) : option jsstring :=
  match v with
  | Some x => ToString h x
  | None => Some (lit "undefined")
  end.

End JsValue.
Import JsValue.

(** ** services/geminiService.ts *)

Module GeminiService.

Record MemePromptParams := {
  userPrompt : jsstring;
  referenceImageBase64 : option jsstring;
  referenceImageMimeType : option jsstring
}.

(** Responses of the generative API, as far as the service reads them. *)
Record InlineData := { data : jsstring }.
Record Part := { inlineData : option InlineData }.
Record Content := { parts : option (list Part) }.
Record Candidate := { content : option Content }.
Record Response := {
  candidates : option (list Candidate);
  text : option jsstring
}.

(** The four requests the service sends. Model name, prompt text and image
    configuration of each are fixed by the function that sends it, so a
    request is identified by which function sent it and its parameters. *)
Inductive Request :=
  | GridRequest (params : MemePromptParams)
  | BannerRequest (params : MemePromptParams)
  | LogoRequest (params : MemePromptParams)
  | MetadataRequest (params : MemePromptParams).

(** The API: how [ai.models.generateContent] settles for a request, and
    when (a logical time, which orders the settlements of requests that are
    in flight together). *)
Record Api := {
  generateContent : Request -> Outcome Response;
  settles_at : Request -> nat
}.

(** A call in flight: the request sent, when it settles and how. *)
Record Call (A : Type) := {
  sent : Request;
  settled_at : nat;
  result : Outcome A
}.
Arguments sent {A} _.
Arguments settled_at {A} _.
Arguments result {A} _.

(** A string is truthy when it is not empty. *)
Definition truthy (s : jsstring) : bool :=
  match s with [] => false | _ => true end.

Fixpoint first_inline (ps : list Part) : option jsstring :=
  match ps with
  | [] => None
  | part :: rest =>
      match inlineData part with
      | Some d => if truthy (data d) then Some (data d) else first_inline rest
      | None => first_inline rest
      end
  end.

(** [candidates[0].content.parts] is read without a guard: a first candidate
    without content, or content without parts, throws a TypeError before the
    loop. *)
Definition extractImage (response : Response) : Outcome jsstring :=
  let base64Image : Outcome (option jsstring) :=
    match candidates response with
    | Some (c :: _) =>
        match content c with
        | None => Rejected (TypeError_read_of_undefined (lit "parts"))
        | Some ct =>
            match parts ct with
            | None => Rejected (TypeError_not_iterable (lit "parts"))
            | Some ps => Resolved (first_inline ps)
            end
        end
    | _ => Resolved None
    end in
  match base64Image with
  | Rejected e => Rejected e
  | Resolved (Some b) => Resolved b
  | Resolved None => Rejected (lit "No image data found in response.")
  end.

Definition image_call (api : Api) (req : Request) : Call jsstring :=
  {| sent := req;
     settled_at := settles_at api req;
     result := match generateContent api req with
               | Resolved response => extractImage response
               | Rejected e => Rejected e
               end |}.

Definition generateMemeImage (api : Api) (params : MemePromptParams) : Call jsstring :=
  image_call api (GridRequest params).

Definition generateBanner (api : Api) (params : MemePromptParams) : Call jsstring :=
  image_call api (BannerRequest params).

Definition generateLogo (api : Api) (params : MemePromptParams) : Call jsstring :=
  image_call api (LogoRequest params).

(** The value returned when parsing throws: title "创意表情包" and the
    start of the prompt. *)
Definition fallback_metadata (params : MemePromptParams) : json :=
  JObject [ (lit "title", JString [21019; 24847; 34920; 24773; 21253]%N);
            (lit "description", JString (substring0 (userPrompt params) 100)) ].

(** The [try] block of [generateMemeMetadata], on a response. *)
Definition metadata_of_response (params : MemePromptParams) (response : Response) : json :=
  let text :=
    match text response with
    | Some t => if truthy t then t else lit "{}"
    | None => lit "{}"
    end in
  match JSON_parse text with
  | Some v => v
  | None => fallback_metadata params
  end.

Definition generateMemeMetadata (api : Api) (params : MemePromptParams) : Call json :=
  let req := MetadataRequest params in
  {| sent := req;
     settled_at := settles_at api req;
     result := match generateContent api req with
               | Resolved response => Resolved (metadata_of_response params response)
               | Rejected e => Rejected e
               end |}.

(** [window.aistudio], when the host provides it. *)
Record AiStudio := {
  hasSelectedApiKey : Outcome bool;
  openSelectKey : Outcome unit
}.

Definition ensureApiKey (aistudio : option AiStudio) : Outcome bool :=
  match aistudio with
  | Some a =>
      match hasSelectedApiKey a with
      | Rejected e => Rejected e
      | Resolved true => Resolved true
      | Resolved false =>
          match openSelectKey a with
          | Rejected e => Rejected e
          | Resolved _ => Resolved true
          end
      end
  | None => Resolved true
  end.

(** *** The client *)

(** Where [getClient] looks for the key: [process.env] and
    [import.meta.env], each there or not; a variable is a string. An access
    that throws is caught and counts as an environment that is not there. *)
Record KeyEnv := {
  process_env : option (gmap jsstring jsstring);
  import_meta_env : option (gmap jsstring jsstring)
}.

(** [a || b] on strings, [undefined] being the missing entry of a table. *)
Definition or_string (a : option jsstring) (b : jsstring) : jsstring :=
  match a with
  | Some x => if truthy x then x else b
  | None => b
  end.

(** What [getClient] hands to [new GoogleGenAI] and whether it warned. *)
Record Client := { apiKey : jsstring; warned : bool }.

Definition getClient (e : KeyEnv) : Client :=
  let apiKey : jsstring := [] in
  let apiKey :=
    match process_env e with
    | Some env =>
        or_string (env !! lit "API_KEY") (or_string (env !! lit "GEMINI_API_KEY") [])
    | None => apiKey
    end in
  let apiKey :=
    match import_meta_env e with
    | Some env =>
        or_string (Some apiKey)
          (or_string (env !! lit "VITE_API_KEY")
             (or_string (env !! lit "VITE_GEMINI_API_KEY")
                (or_string (env !! lit "GEMINI_API_KEY") [])))
    | None => apiKey
    end in
  {| apiKey := apiKey; warned := negb (truthy apiKey) |}.

End GeminiService.
Import GeminiService.

(** ** App.tsx *)

Module App.

Inductive AppState := IDLE | GENERATING | PROCESSING | COMPLETE | ERROR.

(** An uploaded file: its media type and what [FileReader.readAsDataURL]
    yields for it ([None]: the reader fails). *)
Record File := {
  file_type : jsstring;
  file_dataURL : option jsstring
}.

(** The component state, one field per [useState]. *)
Record State := {
  prompt : jsstring;
  refImage : option File;
  refImagePreview : option jsstring;
  status : AppState;
  statusMessage : jsstring;
  errorMsg : option jsstring;
  originalImage : option jsstring;
  slicedImages : list SlicedImage;
  banner : option MarketingAsset;
  logo : option MarketingAsset;
  metaData : option json
}.

Definition setStatus (v : AppState) (s : State) : State :=
  {| prompt := prompt s; refImage := refImage s; refImagePreview := refImagePreview s;
     status := v; statusMessage := statusMessage s; errorMsg := errorMsg s;
     originalImage := originalImage s; slicedImages := slicedImages s;
     banner := banner s; logo := logo s; metaData := metaData s |}.

Definition setStatusMessage (v : jsstring) (s : State) : State :=
  {| prompt := prompt s; refImage := refImage s; refImagePreview := refImagePreview s;
     status := status s; statusMessage := v; errorMsg := errorMsg s;
     originalImage := originalImage s; slicedImages := slicedImages s;
     banner := banner s; logo := logo s; metaData := metaData s |}.

Definition setErrorMsg (v : option jsstring) (s : State) : State :=
  {| prompt := prompt s; refImage := refImage s; refImagePreview := refImagePreview s;
     status := status s; statusMessage := statusMessage s; errorMsg := v;
     originalImage := originalImage s; slicedImages := slicedImages s;
     banner := banner s; logo := logo s; metaData := metaData s |}.

Definition setOriginalImage (v : option jsstring) (s : State) : State :=
  {| prompt := prompt s; refImage := refImage s; refImagePreview := refImagePreview s;
     status := status s; statusMessage := statusMessage s; errorMsg := errorMsg s;
     originalImage := v; slicedImages := slicedImages s;
     banner := banner s; logo := logo s; metaData := metaData s |}.

Definition setSlicedImages (v : list SlicedImage) (s : State) : State :=
  {| prompt := prompt s; refImage := refImage s; refImagePreview := refImagePreview s;
     status := status s; statusMessage := statusMessage s; errorMsg := errorMsg s;
     originalImage := originalImage s; slicedImages := v;
     banner := banner s; logo := logo s; metaData := metaData s |}.

Definition setBanner (v : option MarketingAsset) (s : State) : State :=
  {| prompt := prompt s; refImage := refImage s; refImagePreview := refImagePreview s;
     status := status s; statusMessage := statusMessage s; errorMsg := errorMsg s;
     originalImage := originalImage s; slicedImages := slicedImages s;
     banner := v; logo := logo s; metaData := metaData s |}.

Definition setLogo (v : option MarketingAsset) (s : State) : State :=
  {| prompt := prompt s; refImage := refImage s; refImagePreview := refImagePreview s;
     status := status s; statusMessage := statusMessage s; errorMsg := errorMsg s;
     originalImage := originalImage s; slicedImages := slicedImages s;
     banner := banner s; logo := v; metaData := metaData s |}.

Definition setMetaData (v : option json) (s : State) : State :=
  {| prompt := prompt s; refImage := refImage s; refImagePreview := refImagePreview s;
     status := status s; statusMessage := statusMessage s; errorMsg := errorMsg s;
     originalImage := originalImage s; slicedImages := slicedImages s;
     banner := banner s; logo := logo s; metaData := v |}.

(** Everything outside the component that [handleGenerate] reaches. *)
Record World := {
  aistudio : option AiStudio;
  api : Api;
  env : Env
}.

(** White space and line terminators, which [trim] strips. *)
Definition is_js_space (c : N) : bool :=
  ((9 <=? c) && (c <=? 13) || N.eqb c 32 || N.eqb c 160 || N.eqb c 5760 ||
   (8192 <=? c) && (c <=? 8202) || N.eqb c 8232 || N.eqb c 8233 ||
   N.eqb c 8239 || N.eqb c 8287 || N.eqb c 12288 || N.eqb c 65279)%N.

Fixpoint trimStart (s : jsstring) : jsstring :=
  match s with
  | c :: r => if is_js_space c then trimStart r else s
  | [] => []
  end.

Definition trim (s : jsstring) : jsstring := rev (trimStart (rev (trimStart s))).

(** [s.split(',')[1]]: the text between the first and the second comma. *)
Fixpoint until_comma (s : jsstring) : jsstring :=
  match s with
  | c :: r => if N.eqb c 44 then [] else c :: until_comma r
  | [] => []
  end.

Fixpoint split_comma_1 (s : jsstring) : option jsstring :=
  match s with
  | c :: r => if N.eqb c 44 then Some (until_comma r) else split_comma_1 r
  | [] => None
  end.

(** [fileToBase64] of imageUtils.ts. The reader's error event has no
    message, which is the empty message here. *)
Definition fileToBase64 (file : File) : Outcome (option jsstring) :=
  match file_dataURL file with
  | Some result => Resolved (split_comma_1 result)
  | None => Rejected []
  end.

(** [Promise.all] of the four calls: the tuple of their values when all
    fulfil, otherwise the reason of the rejection that settles first. *)
Definition rejection {A} (c : Call A) : option (nat * jsstring) :=
  match result c with
  | Rejected e => Some (settled_at c, e)
  | Resolved _ => None
  end.

Fixpoint earliest (rs : list (option (nat * jsstring))) : option (nat * jsstring) :=
  match rs with
  | [] => None
  | r :: rest =>
      match r, earliest rest with
      | Some (t, e), Some (t', e') => if (t <=? t')%nat then Some (t, e) else Some (t', e')
      | Some x, None => Some x
      | None, y => y
      end
  end.

Definition Promise_all4 {A B C D} (a : Call A) (b : Call B) (c : Call C) (d : Call D)
    : Outcome (A * B * C * D) :=
  match result a, result b, result c, result d with
  | Resolved x, Resolved y, Resolved z, Resolved t => Resolved (x, y, z, t)
  | _, _, _, _ =>
      match earliest [rejection a; rejection b; rejection c; rejection d] with
      | Some (_, e) => Rejected e
      | None => Rejected []
      end
  end.

(** The [catch] block. An empty message is falsy and gives the default
    text "生成过程中发生意外错误。". *)
Definition on_error (message : jsstring) (s : State) : State :=
  let s := setStatus ERROR s in
  setErrorMsg (Some (if truthy message then message
                     else [29983; 25104; 36807; 31243; 20013; 21457; 29983; 24847;
                           22806; 38169; 35823; 12290]%N)) s.

(** Step 4 of [handleGenerate]: slicing and fitting, after the four
    values have arrived. *)
Definition process_assets (w : World) (memeBase64 bannerBase64 logoBase64 : jsstring)
    (meta : json) (s : State) : State :=
  let s := setOriginalImage (Some memeBase64) s in
  let s := setMetaData (Some meta) s in
  let s := setStatus PROCESSING s in
  (* "正在切片和压缩图片..." *)
  let s := setStatusMessage [27491; 22312; 20999; 29255; 21644; 21387; 32553; 22270;
                              29255; 46; 46; 46]%N s in
  match sliceMemeGrid (env w) memeBase64 with
  | Rejected e => on_error e s
  | Resolved slices =>
      let s := setSlicedImages slices s in
      match processImage (env w) bannerBase64 (750 # 1) (400 # 1) (lit "banner.png") with
      | Rejected e => on_error e s
      | Resolved bannerAsset =>
          let s := setBanner (Some bannerAsset) s in
          match processImage (env w) logoBase64 (512 # 1) (512 # 1) (lit "logo.png") with
          | Rejected e => on_error e s
          | Resolved logoAsset =>
              let s := setLogo (Some logoAsset) s in
              let s := setStatus COMPLETE s in
              setStatusMessage [] s
          end
      end
  end.

(** Step 2 of [handleGenerate]: the reference image, if any, is read and
    the parameters of the requests are put together. *)
Definition prepare_params (s : State) : Outcome MemePromptParams :=
  let ref :=
    match refImage s with
    | Some file =>
        match fileToBase64 file with
        | Resolved refBase64 => Resolved (refBase64, Some (file_type file))
        | Rejected e => Rejected e
        end
    | None => Resolved (None, None)
    end in
  match ref with
  | Rejected e => Rejected e
  | Resolved (refBase64, refMime) =>
      Resolved {| userPrompt := prompt s;
                  referenceImageBase64 := refBase64;
                  referenceImageMimeType := refMime |}
  end.

(** Step 3 of [handleGenerate]: the four calls are made, then awaited
    together. Returns the state at the end of the handler and the requests
    sent, in the order sent. *)
Definition generate_all (w : World) (params : MemePromptParams) (s : State)
    : State * list Request :=
  (* "正在生成表情包、横幅、Logo 和文案..." *)
  let s := setStatusMessage
             [27491; 22312; 29983; 25104; 34920; 24773; 21253; 12289; 27178;
              24133; 12289; 76; 111; 103; 111; 32; 21644; 25991; 26696;
              46; 46; 46]%N s in
  let c1 := generateMemeImage (api w) params in
  let c2 := generateBanner (api w) params in
  let c3 := generateLogo (api w) params in
  let c4 := generateMemeMetadata (api w) params in
  let requests := [sent c1; sent c2; sent c3; sent c4] in
  match Promise_all4 c1 c2 c3 c4 with
  | Rejected e => (on_error e s, requests)
  | Resolved (memeBase64, bannerBase64, logoBase64, meta) =>
      (process_assets w memeBase64 bannerBase64 logoBase64 meta s, requests)
  end.

(** [handleGenerate]: the state once the handler has run to its end, and
    the requests it sent to the API. *)
Definition handleGenerate (w : World) (s : State) : State * list Request :=
  if negb (truthy (trim (prompt s))) then
    (* "请输入提示词来描述您的表情包。" *)
    (setErrorMsg (Some [35831; 36755; 20837; 25552; 31034; 35789; 26469; 25551; 36848;
                        24744; 30340; 34920; 24773; 21253; 12290]%N) s, [])
  else
    let s := setErrorMsg None s in
    let s := setStatus GENERATING s in
    (* "正在初始化..." *)
    let s := setStatusMessage [27491; 22312; 21021; 22987; 21270; 46; 46; 46]%N s in
    match ensureApiKey (aistudio w) with
    | Rejected e => (on_error e s, [])
    | Resolved _ =>
        match prepare_params s with
        | Rejected e => (on_error e s, [])
        | Resolved params => generate_all w params s
        end
    end.

(** The result panel is rendered when there is a composite or a slice. *)
Definition results_shown (s : State) : bool :=
  match originalImage s with Some b => truthy b | None => false end ||
  negb (Nat.eqb (List.length (slicedImages s)) 0).

Definition setRefImage (v : option File) (s : State) : State :=
  {| prompt := prompt s; refImage := v; refImagePreview := refImagePreview s;
     status := status s; statusMessage := statusMessage s; errorMsg := errorMsg s;
     originalImage := originalImage s; slicedImages := slicedImages s;
     banner := banner s; logo := logo s; metaData := metaData s |}.

Definition setRefImagePreview (v : option jsstring) (s : State) : State :=
  {| prompt := prompt s; refImage := refImage s; refImagePreview := v;
     status := status s; statusMessage := statusMessage s; errorMsg := errorMsg s;
     originalImage := originalImage s; slicedImages := slicedImages s;
     banner := banner s; logo := logo s; metaData := metaData s |}.

(** [handleFileChange] on the files of the input (none: the empty list): the
    first file becomes the reference image and, once the reader has loaded
    it, its data URL the preview. *)
Definition handleFileChange (files : list File) (s : State) : State :=
  match files with
  | file :: _ =>
      let s := setRefImage (Some file) s in
      match file_dataURL file with
      | Some result => setRefImagePreview (Some result) s
      | None => s
      end
  | [] => s
  end.

Definition reset (s : State) : State :=
  let s := setStatus IDLE s in
  let s := setOriginalImage None s in
  let s := setSlicedImages [] s in
  let s := setBanner None s in
  let s := setLogo None s in
  let s := setMetaData None s in
  setErrorMsg None s.

(** [handleDownloadAll]: the banner and the logo that are there, and the
    metadata if truthy, go to [downloadBatch], which reads the title and the
    description into the text of info.txt. [None]: that reading throws, and
    nothing is saved. *)
Definition handleDownloadAll (h : NumberHost) (s : State) : option Download :=
  let assets : list MarketingAsset := [] in
  let assets := match banner s with Some b => assets ++ [b] | None => assets end in
  let assets := match logo s with Some l => assets ++ [l] | None => assets end in
  match metaData s with
  | Some v =>
      if ToBoolean h v then
        match ToString_opt h (Get v (lit "title")),
              ToString_opt h (Get v (lit "description")) with
        | Some t, Some d =>
            Some (downloadBatch (slicedImages s) assets
                    (Some {| title := t; description := d |}))
        | _, _ => None
        end
      else Some (downloadBatch (slicedImages s) assets None)
  | None => Some (downloadBatch (slicedImages s) assets None)
  end.

End App.
Import App.

(** ** Definitions used to state the properties *)

(** A number below 100 written with two decimal digits. *)
Definition two_digits (n : nat) : jsstring :=
  [N.of_nat (48 + n / 10); N.of_nat (48 + n mod 10)].

(** The name the specification gives to the slice of index [n]. *)
Definition meme_name (n : nat) : jsstring :=
  lit "meme_" ++ two_digits n ++ lit ".png".

(** The slice of cell (row, col): what one iteration leaves in [slices]. *)
Definition cell_slice (img : RasterImage) (row col : nat) : SlicedImage :=
  make_slice (draw_cell img row col createCanvas) row col.

(** The canvas just before [drawImage] in an iteration: cleared, clipped to
    the rounded outline of the cell. *)
Definition clipped_cell (img : RasterImage) : Canvas :=
  let cw := cellWidth img in
  let ch := cellHeight img in
  let r := borderRadius img in
  clip (save (closePath (quadraticCurveTo 0 0 r 0 (lineTo 0 r
    (quadraticCurveTo 0 ch 0 (ch - r) (lineTo r ch
    (quadraticCurveTo cw ch (cw - r) ch (lineTo cw (ch - r)
    (quadraticCurveTo cw 0 cw r (lineTo (cw - r) 0 (moveTo r 0
    (beginPath (clearRect 0 0 cw ch
      (set_height ch (set_width cw createCanvas))))))))))))))).

(** The slices laid back out in row-major order on a canvas whose cells are
    cw by ch pixels: the pixel at (x, y) is taken from the slice of the cell
    that contains it. *)
Definition reassemble (slices : list SlicedImage) (cw ch : Z) (x y : Z) : option canvas_px :=
  match slices !! (Z.to_nat (y / ch) * COLS + Z.to_nat (x / cw))%nat with
  | Some s => Some (bm_px (bitmap (blob s)) (x mod cw) (y mod ch))
  | None => None
  end.

(** A coordinate of the point at parameter t of the quadratic curve from
    p0 to p1 with control point c. *)
Definition quad_point (p0 c p1 t : Q) : Q :=
  ((1 - t) * (1 - t) * p0 + 2 * t * (1 - t) * c + t * t * p1)%Q.

(** An image a decoder can deliver: positive dimensions, within what a
    canvas dimension holds. *)
Definition decodable (img : RasterImage) : Prop :=
  0 < width img < 2 ^ 31 /\ 0 < height img < 2 ^ 31.

(** A file name the archive takes as it is: not empty, no folder part. *)
Definition plain_name (s : jsstring) : Prop := s <> [] /\ ~ In slash s.

(** Writing the entries of a list into a table, one after the other. *)
Definition insert_all {A : Type} (key : A -> jsstring) (val : A -> zip_entry)
    (l : list A) (m : gmap jsstring zip_entry) : gmap jsstring zip_entry :=
  fold_left (fun z a => <[key a := val a]> z) l m.

(** ** Inputs the properties are tried on *)

Definition sample_image (w h : Z) : RasterImage :=
  {| width := w; height := h;
     pixel := fun x y => {| red := Z.to_N x; green := Z.to_N y; blue := 0; alpha := 255 |} |}.

Definition sample_env (img : RasterImage) : Env :=
  {| decode := fun _ => Some img; has_context := true |}.

Definition broken_env : Env :=
  {| decode := fun _ => None; has_context := true |}.

(** An API whose every response is [response], at once. *)
Definition constant_api (response : Outcome Response) : Api :=
  {| generateContent := fun _ => response; settles_at := fun _ => 0%nat |}.

Definition sample_params : MemePromptParams :=
  {| userPrompt := lit "a cat at work";
     referenceImageBase64 := None;
     referenceImageMimeType := None |}.

(** A base64 image in a response of the API. *)
Definition image_response (b : jsstring) : Response :=
  {| candidates :=
       Some [ {| content :=
                   Some {| parts := Some [ {| inlineData := Some {| data := b |} |} ] |} |} ];
     text := Some (lit "{}") |}.

(** An API that delivers the three images and fails on the metadata. *)
Definition metadata_down_api : Api :=
  {| generateContent := fun req =>
       match req with
       | MetadataRequest _ => Rejected (lit "503 Service Unavailable")
       | _ => Resolved (image_response (lit "AAAA"))
       end;
     settles_at := fun _ => 0%nat |}.

(** A component that has not generated anything yet. *)
Definition initial_state (text : jsstring) : State :=
  {| prompt := text; refImage := None; refImagePreview := None;
     status := IDLE; statusMessage := []; errorMsg := None;
     originalImage := None; slicedImages := []; banner := None; logo := None;
     metaData := None |}.

Definition sample_world (a : Api) : World :=
  {| aistudio := None; api := a; env := sample_env (sample_image 3840 2160) |}.

Definition sample_slices : list SlicedImage :=
  [cell_slice (sample_image 12 8) 0 0; cell_slice (sample_image 12 8) 0 1].

Definition sample_asset (name : jsstring) : MarketingAsset :=
  {| asset_type := if includes name (lit "banner") then ImageUtils.banner else ImageUtils.logo;
     asset_blob := {| mime := lit "image/png"; bitmap := bitmap_of createCanvas |};
     asset_dataUrl := {| mime := lit "image/png"; bitmap := bitmap_of createCanvas |};
     asset_fileName := name |}.

Definition sample_assets : list MarketingAsset :=
  [sample_asset (lit "banner.png"); sample_asset (lit "logo.png")].

Definition sample_meta : MetaData :=
  {| title := lit "Cats"; description := lit "Office cats" |}.

(** ** Definitions for the further properties *)

(** A file as the reader delivers it, of the given type and data URL. *)
Definition sample_file (type url : jsstring) : File :=
  {| file_type := type; file_dataURL := Some url |}.

(** A square test image the size of the logo target. *)
Definition logo_sized_image : RasterImage := sample_image 512 512.

(** The last element of a list that satisfies [p]. *)
Fixpoint last_with {A : Type} (p : A -> bool) (l : list A) : option A :=
  match l with
  | [] => None
  | x :: rest =>
      match last_with p rest with
      | Some y => Some y
      | None => if p x then Some x else None
      end
  end.

(** Two slices that carry the same file name. *)
Definition clashing_slices : list SlicedImage :=
  [cell_slice (sample_image 12 8) 0 0; cell_slice (sample_image 60 40) 0 0].

(** The first non-empty string of a list, the empty string if there is
    none. *)
Fixpoint first_truthy (l : list jsstring) : jsstring :=
  match l with
  | [] => []
  | x :: rest => if truthy x then x else first_truthy rest
  end.

(** A variable of an environment that may not be there; missing reads as
    the empty string. *)
Definition variable (env : option (gmap jsstring jsstring)) (name : string) : jsstring :=
  match env with
  | Some e => default [] (e !! lit name)
  | None => []
  end.

(** A part that carries the base64 string [b], and one that carries none. *)
Definition image_part (b : jsstring) : Part := {| inlineData := Some {| data := b |} |}.
Definition text_part : Part := {| inlineData := None |}.

Definition vite_env : KeyEnv :=
  {| process_env := Some (<[lit "API_KEY" := []]> ∅);
     import_meta_env := Some (<[lit "VITE_GEMINI_API_KEY" := lit "k-123"]> ∅) |}.

(** An API that answers every request with the same image and the text
    "{}". *)
Definition image_api : Api := constant_api (Resolved (image_response (lit "AAAA"))).

(** A world in which the API delivers and no image decodes. *)
Definition broken_world : World :=
  {| aistudio := None; api := image_api; env := broken_env |}.

(** A file the reader cannot read. *)
Definition unreadable_file : File := {| file_type := lit "image/png"; file_dataURL := None |}.

(** A host that prints a number as it is written and takes it as truthy. *)
Definition sample_numbers : NumberHost :=
  {| number_toString := fun n => n; number_truthy := fun _ => true |}.

(** A state as a completed generation leaves it, with small images. *)
Definition completed_state : State :=
  {| prompt := lit "a cat at work"; refImage := None; refImagePreview := None;
     status := COMPLETE; statusMessage := []; errorMsg := None;
     originalImage := Some (lit "AAAA");
     slicedImages := slice_loop (sample_image 12 8);
     banner := Some (sample_asset (lit "banner.png"));
     logo := Some (sample_asset (lit "logo.png"));
     metaData := None |}.

(** ** The slicing loop *)

Section SliceLoop.

Variable img : RasterImage.

Lemma draw_cell_reset (row col : nat) (canvas : Canvas) :
  draw_cell img row col canvas = draw_cell img row col createCanvas.
Proof. reflexivity. Qed.

Lemma cell_steps_snd (row : nat) (cols : list nat) (st : Canvas * list SlicedImage) :
  snd (fold_left (cell_step img row) cols st) =
  snd st ++ List.map (cell_slice img row) cols.
Proof.
  revert st. induction cols as [| col cols IH]; intros st; simpl.
  - now rewrite app_nil_r.
  - rewrite IH. unfold cell_step. simpl snd.
    rewrite draw_cell_reset. rewrite <- app_assoc. reflexivity.
Qed.

Lemma row_steps_snd (rows : list nat) (st : Canvas * list SlicedImage) :
  snd (fold_left (row_step img) rows st) =
  snd st ++ flat_map (fun row => List.map (cell_slice img row) (seq 0 COLS)) rows.
Proof.
  revert st. induction rows as [| row rows IH]; intros st; simpl.
  - now rewrite app_nil_r.
  - rewrite IH. unfold row_step. rewrite cell_steps_snd.
    rewrite <- app_assoc. reflexivity.
Qed.

Lemma slice_loop_cells :
  slice_loop img =
  flat_map (fun row => List.map (cell_slice img row) (seq 0 COLS)) (seq 0 ROWS).
Proof. unfold slice_loop. now rewrite row_steps_snd. Qed.

End SliceLoop.

Lemma drawImage9_width img sx sy sw sh dx dy dw dh (c : Canvas) :
  cv_width (drawImage9 img sx sy sw sh dx dy dw dh c) = cv_width c /\
  cv_height (drawImage9 img sx sy sw sh dx dy dw dh c) = cv_height c.
Proof. unfold drawImage9. destruct (_ || _); split; reflexivity. Qed.

Lemma draw_cell_size (img : RasterImage) (row col : nat) (c : Canvas) :
  cv_width (draw_cell img row col c) = reflect_dimension 300 (cellWidth img) /\
  cv_height (draw_cell img row col c) = reflect_dimension 150 (cellHeight img).
Proof.
  unfold draw_cell, restore, drawImage9.
  destruct (_ || _); split; reflexivity.
Qed.

Lemma reflect_small (default n : Z) (q : Q) :
  0 <= n < 2 ^ 31 -> Qtrunc q = n -> reflect_dimension default q = n.
Proof.
  intros Hn Hq. unfold reflect_dimension, to_unsigned_long. rewrite Hq.
  rewrite Z.mod_small by lia.
  destruct (Z.leb_spec n 2147483647) as [_ | H]; [reflexivity | lia].
Qed.

Lemma reflect_quotient (default n : Z) (d : positive) :
  0 <= n < 2 ^ 31 ->
  reflect_dimension default (inject_Z n / inject_Z (Zpos d)) = n / Zpos d.
Proof.
  intros Hn.
  assert (Hdiv : 0 <= n / Zpos d <= n).
  { split; [apply Z.div_pos; lia | apply Z.div_le_upper_bound; nia]. }
  apply reflect_small; [lia |].
  unfold Qtrunc. simpl. rewrite Z.mul_1_r. apply Z.quot_div_nonneg; lia.
Qed.

Lemma in_slice_loop (img : RasterImage) (s : SlicedImage) :
  In s (slice_loop img) ->
  exists row col, (row < ROWS)%nat /\ (col < COLS)%nat /\ s = cell_slice img row col.
Proof.
  rewrite slice_loop_cells. intros H.
  apply in_flat_map in H. destruct H as (row & Hrow & H).
  apply in_map_iff in H. destruct H as (col & Hs & Hcol).
  apply in_seq in Hrow. apply in_seq in Hcol.
  exists row, col. repeat split; [lia | lia | now symmetry].
Qed.

Lemma slice_loop_lookup (img : RasterImage) (row col : nat) :
  (row < ROWS)%nat -> (col < COLS)%nat ->
  slice_loop img !! (row * COLS + col)%nat = Some (cell_slice img row col).
Proof.
  intros Hrow Hcol. rewrite slice_loop_cells.
  unfold ROWS in Hrow. unfold COLS in Hcol.
  destruct row as [| [| [| [| ?]]]]; try lia;
    destruct col as [| [| [| [| [| [| ?]]]]]]; try lia; reflexivity.
Qed.

(** With an image that decodes and a context, the slicer resolves with
    what the two loops collect. *)
Lemma sliceMemeGrid_resolves (env : Env) (imageBase64 : jsstring) (img : RasterImage) :
  decode env (data_url imageBase64) = Some img ->
  has_context env = true ->
  sliceMemeGrid env imageBase64 = Resolved (slice_loop img).
Proof. intros Hdec Hctx. unfold sliceMemeGrid. now rewrite Hdec, Hctx. Qed.

(** ** C1: order, index and file names of the slices *)

(** C1. For a composite that decodes (and a canvas context that is there),
    [sliceMemeGrid] resolves with the slices in row-major order: the slice of
    cell (row, col) is at position row * COLS + col, that is it has index
    row * COLS + col + 1 counted from 1; its id is "meme-" and that index and
    its file name is "meme_", the index on two digits, ".png"; the names run
    from meme_01.png to meme_24.png. *)
Theorem sliceMemeGrid_row_major (env : Env) (imageBase64 : jsstring) (img : RasterImage) :
  decode env (data_url imageBase64) = Some img ->
  has_context env = true ->
  exists slices,
    sliceMemeGrid env imageBase64 = Resolved slices /\
    (forall row col, (row < ROWS)%nat -> (col < COLS)%nat ->
       slices !! (row * COLS + col)%nat = Some (cell_slice img row col) /\
       id (cell_slice img row col) = lit "meme-" ++ toString (row * COLS + col + 1) /\
       fileName (cell_slice img row col) = meme_name (row * COLS + col + 1)) /\
    List.map fileName slices =
    List.map lit
      [ "meme_01.png"; "meme_02.png"; "meme_03.png"; "meme_04.png"; "meme_05.png";
        "meme_06.png"; "meme_07.png"; "meme_08.png"; "meme_09.png"; "meme_10.png";
        "meme_11.png"; "meme_12.png"; "meme_13.png"; "meme_14.png"; "meme_15.png";
        "meme_16.png"; "meme_17.png"; "meme_18.png"; "meme_19.png"; "meme_20.png";
        "meme_21.png"; "meme_22.png"; "meme_23.png"; "meme_24.png" ]%string.
Proof.
  intros Hdec Hctx. exists (slice_loop img). split; [| split].
  - now apply sliceMemeGrid_resolves.
  - intros row col Hrow Hcol. split; [now apply slice_loop_lookup |].
    unfold ROWS in Hrow. unfold COLS in Hcol.
    destruct row as [| [| [| [| ?]]]]; try lia;
      destruct col as [| [| [| [| [| [| ?]]]]]]; try lia;
      (split; reflexivity).
  - rewrite slice_loop_cells. reflexivity.
Qed.

Lemma sliceMemeGrid_row_major_witness :
  exists slices,
    sliceMemeGrid (sample_env (sample_image 3840 2160)) (lit "AAAA") = Resolved slices /\
    List.map fileName (firstn 2 slices) = [lit "meme_01.png"; lit "meme_02.png"].
Proof.
  destruct (sliceMemeGrid_row_major (sample_env (sample_image 3840 2160)) (lit "AAAA")
              (sample_image 3840 2160) eq_refl eq_refl) as (slices & Hres & _ & Hnames).
  exists slices. split; [exact Hres |].
  rewrite <- firstn_map, Hnames. reflexivity.
Defined.

(** ** C2: number and size of the slices *)

(** C2. For a decodable composite of W by H pixels, [sliceMemeGrid] resolves
    with exactly COLS * ROWS = 24 slices, and the bitmap of each is
    floor (W / 6) by floor (H / 4) pixels. *)
Theorem sliceMemeGrid_count_and_size (env : Env) (imageBase64 : jsstring) (img : RasterImage) :
  decode env (data_url imageBase64) = Some img ->
  has_context env = true ->
  decodable img ->
  exists slices,
    sliceMemeGrid env imageBase64 = Resolved slices /\
    List.length slices = (COLS * ROWS)%nat /\
    List.length slices = 24%nat /\
    forall s, In s slices ->
      bm_width (bitmap (blob s)) = width img / Z.of_nat COLS /\
      bm_height (bitmap (blob s)) = height img / Z.of_nat ROWS.
Proof.
  intros Hdec Hctx [Hw Hh]. exists (slice_loop img).
  split; [| split; [| split]].
  - now apply sliceMemeGrid_resolves.
  - rewrite slice_loop_cells. reflexivity.
  - rewrite slice_loop_cells. reflexivity.
  - intros s H. apply in_slice_loop in H. destruct H as (row & col & _ & _ & ->).
    unfold cell_slice, make_slice. cbn [blob bitmap bitmap_of bm_width bm_height].
    destruct (draw_cell_size img row col createCanvas) as [-> ->].
    split; apply reflect_quotient; lia.
Qed.

Lemma sample_4k_decodable : decodable (sample_image 3840 2160).
Proof. unfold decodable; simpl; lia. Qed.

(** The scenario of the specification: a 3840 by 2160 composite gives 24
    slices of 640 by 540. *)
Lemma sliceMemeGrid_count_and_size_witness :
  exists slices,
    sliceMemeGrid (sample_env (sample_image 3840 2160)) (lit "AAAA") = Resolved slices /\
    List.length slices = 24%nat /\
    forall s, In s slices ->
      bm_width (bitmap (blob s)) = 640 /\ bm_height (bitmap (blob s)) = 540.
Proof.
  destruct (sliceMemeGrid_count_and_size (sample_env (sample_image 3840 2160)) (lit "AAAA")
              (sample_image 3840 2160) eq_refl eq_refl sample_4k_decodable)
    as (slices & Hres & _ & Hlen & Hsize).
  exists slices. split; [exact Hres | split; [exact Hlen |]].
  intros s Hs. exact (Hsize s Hs).
Defined.

(** ** C6: a composite that does not decode *)

(** C6. When the composite does not decode, [sliceMemeGrid] rejects with the
    message "加载生成的图片失败，无法切片。", which is not empty, and
    resolves with no list of slices, whole or partial. *)
Theorem sliceMemeGrid_decode_failure (env : Env) (imageBase64 : jsstring) :
  decode env (data_url imageBase64) = None ->
  sliceMemeGrid env imageBase64 =
    Rejected [21152; 36733; 29983; 25104; 30340; 22270; 29255; 22833; 36133;
              65292; 26080; 27861; 20999; 29255; 12290]%N /\
  (exists message, sliceMemeGrid env imageBase64 = Rejected message /\ truthy message = true) /\
  forall slices, sliceMemeGrid env imageBase64 <> Resolved slices.
Proof.
  intros Hdec. unfold sliceMemeGrid. rewrite Hdec. split; [reflexivity | split].
  - eexists. split; reflexivity.
  - intros slices H. discriminate H.
Qed.

Lemma sliceMemeGrid_decode_failure_witness :
  decode broken_env (data_url (lit "AAAA")) = None /\
  sliceMemeGrid broken_env (lit "AAAA") =
    Rejected [21152; 36733; 29983; 25104; 30340; 22270; 29255; 22833; 36133;
              65292; 26080; 27861; 20999; 29255; 12290]%N.
Proof.
  split; [reflexivity |].
  exact (proj1 (sliceMemeGrid_decode_failure broken_env (lit "AAAA") eq_refl)).
Defined.

(** ** Rationals and coverage *)

Local Open Scope Q_scope.

Lemma Qle_bool_false (x y : Q) : y < x -> Qle_bool x y = false.
Proof.
  intros H. destruct (Qle_bool x y) eqn:E; [| reflexivity].
  apply Qle_bool_iff in E. lra.
Qed.

Lemma Qle_bool_true (x y : Q) : x <= y -> Qle_bool x y = true.
Proof. apply Qle_bool_iff. Qed.

Lemma rect_cover_covered (x0 y0 x1 y1 : Q) (i j : Z) :
  x0 <= inject_Z i -> inject_Z i + 1 <= x1 ->
  y0 <= inject_Z j -> inject_Z j + 1 <= y1 ->
  rect_cover x0 y0 x1 y1 i j = Covered.
Proof.
  intros Hx0 Hx1 Hy0 Hy1. unfold rect_cover.
  rewrite (Qle_bool_true _ _ Hx0), (Qle_bool_true _ _ Hx1),
    (Qle_bool_true _ _ Hy0), (Qle_bool_true _ _ Hy1).
  reflexivity.
Qed.

Lemma inject_Z_succ_le (i n : Z) : (i < n)%Z -> inject_Z i + 1 <= inject_Z n.
Proof.
  intros H. change 1 with (inject_Z 1). rewrite <- inject_Z_plus.
  rewrite <- Zle_Qle. lia.
Qed.

Lemma inject_Z_nonneg (i : Z) : (0 <= i)%Z -> 0 <= inject_Z i.
Proof. intros H. change 0 with (inject_Z 0). now rewrite <- Zle_Qle. Qed.

Lemma inject_Z_pos (i : Z) : (0 < i)%Z -> 0 < inject_Z i.
Proof. intros H. change 0 with (inject_Z 0). now rewrite <- Zlt_Qlt. Qed.

Lemma Qhalf (x : Q) : x / 2 == x * (1 # 2).
Proof. field. Qed.

(** ** Rounding to a double *)

Lemma pow2_pos (e : Z) : 0 < 2 ^ e.
Proof. apply Qpower_0_lt. reflexivity. Qed.

Lemma pow2_add (a b : Z) : 2 ^ (a + b) == 2 ^ a * 2 ^ b.
Proof. apply Qpower_plus. discriminate. Qed.

Lemma pow2_succ (a : Z) : 2 ^ (a + 1) == 2 * 2 ^ a.
Proof. rewrite pow2_add. change (2 ^ 1) with 2. ring. Qed.

Lemma pow2_pred (a : Z) : 2 ^ (a - 1) == 2 ^ a * (1 # 2).
Proof.
  assert (E : 2 ^ a == 2 ^ (a - 1 + 1)) by (apply Qpower_comp; [reflexivity | lia]).
  rewrite E, pow2_succ. field.
Qed.

Lemma pow2_Z (k : Z) : (0 <= k)%Z -> inject_Z (2 ^ k) == 2 ^ k.
Proof. intros H. now rewrite Zpower_Qpower. Qed.

Lemma pow2_le (a b : Z) : (a <= b)%Z -> 2 ^ a <= 2 ^ b.
Proof. intros H. apply Qpower_le_compat_l; [exact H | discriminate]. Qed.

Lemma pow2_lt_inv (a b : Z) : 2 ^ a < 2 ^ b -> (a < b)%Z.
Proof. intros H. apply (Qpower_lt_compat_l_inv 2); [exact H | reflexivity]. Qed.

Lemma log2_bounds (n : positive) :
  2 ^ Z.log2 (Zpos n) <= inject_Z (Zpos n) /\
  inject_Z (Zpos n) < 2 * 2 ^ Z.log2 (Zpos n).
Proof.
  destruct (Z.log2_spec (Zpos n)) as [L U]; [lia |].
  pose proof (Z.log2_nonneg (Zpos n)) as P.
  split.
  - rewrite <- pow2_Z by exact P. rewrite <- Zle_Qle. exact L.
  - rewrite <- pow2_succ. unfold Z.succ in U.
    rewrite <- pow2_Z by lia. rewrite <- Zlt_Qlt. exact U.
Qed.

(** [ilog2] is the integer part of the binary logarithm. *)
Lemma ilog2_spec (n d : positive) :
  2 ^ Double.ilog2 n d <= Zpos n # d /\ Zpos n # d < 2 ^ (Double.ilog2 n d + 1).
Proof.
  destruct (log2_bounds n) as [Ln Un]. destruct (log2_bounds d) as [Ld Ud].
  unfold Double.ilog2.
  set (a := Z.log2 (Zpos n)) in *. set (b := Z.log2 (Zpos d)) in *.
  assert (Eq : Zpos n # d == inject_Z (Zpos n) / inject_Z (Zpos d)) by apply Qmake_Qdiv.
  set (N := inject_Z (Zpos n)) in *. set (D := inject_Z (Zpos d)) in *.
  pose proof (pow2_pos a) as Pa. pose proof (pow2_pos b) as Pb.
  assert (PD : 0 < D) by lra.
  assert (Ek : 2 ^ (a - b) * 2 ^ b == 2 ^ a).
  { rewrite <- pow2_add. apply Qpower_comp; [reflexivity | lia]. }
  pose proof (pow2_pos (a - b)) as Pk.
  set (K := 2 ^ (a - b)) in *. set (A := 2 ^ a) in *. set (B := 2 ^ b) in *.
  assert (Lo : K * (1 # 2) < N / D).
  { apply Qlt_shift_div_l; [exact PD |].
    assert (K * (1 # 2) * D < K * (1 # 2) * (2 * B)).
    { apply Qmult_lt_l; [lra | exact Ud]. }
    lra. }
  assert (Hi : N / D < 2 * K).
  { apply Qlt_shift_div_r; [exact PD |].
    assert (2 * K * B <= 2 * K * D).
    { apply Qmult_le_l; [lra | exact Ld]. }
    lra. }
  destruct (Qle_bool K (Zpos n # d)) eqn:T.
  - apply Qle_bool_iff in T. split; [exact T |].
    rewrite pow2_succ. fold K. rewrite Eq. exact Hi.
  - assert (T' : Zpos n # d < K).
    { apply Qnot_le_lt. intros C. apply Qle_bool_iff in C. congruence. }
    split.
    + rewrite pow2_pred. fold K. rewrite Eq. lra.
    + assert (E1 : 2 ^ (a - b - 1 + 1) == K) by (apply Qpower_comp; [reflexivity | lia]).
      rewrite E1. exact T'.
Qed.

Lemma Qabs_Qred_num (q : Q) (n : positive) :
  Qnum (Qred q) = Zpos n \/ Qnum (Qred q) = Zneg n -> Qabs q == Zpos n # Qden (Qred q).
Proof.
  intros H. rewrite <- (Qred_correct q) at 1.
  destruct (Qred q) as [m d]. simpl in H. destruct H; subst; reflexivity.
Qed.

Lemma Qred_zero (q : Q) : Qnum (Qred q) = 0%Z -> q == 0.
Proof.
  intros H. rewrite <- (Qred_correct q).
  destruct (Qred q) as [m d]. simpl in H. subst. reflexivity.
Qed.

(** The exponent places a number that is not zero in its binade: its
    significand has exactly 53 bits. *)
Lemma exponent_spec (q : Q) :
  ~ q == 0 ->
  2 ^ (Double.exponent q + 52) <= Qabs q /\ Qabs q < 2 ^ (Double.exponent q + 53).
Proof.
  intros Hq. unfold Double.exponent.
  assert (G : forall n, Qabs q == Zpos n # Qden (Qred q) ->
            2 ^ (Double.ilog2 n (Qden (Qred q)) - 52 + 52) <= Qabs q /\
            Qabs q < 2 ^ (Double.ilog2 n (Qden (Qred q)) - 52 + 53)).
  { intros n E. rewrite E.
    destruct (ilog2_spec n (Qden (Qred q))) as [L U]. split.
    - assert (X : 2 ^ (Double.ilog2 n (Qden (Qred q)) - 52 + 52) ==
                  2 ^ Double.ilog2 n (Qden (Qred q)))
        by (apply Qpower_comp; [reflexivity | lia]).
      rewrite X. exact L.
    - assert (X : 2 ^ (Double.ilog2 n (Qden (Qred q)) - 52 + 53) ==
                  2 ^ (Double.ilog2 n (Qden (Qred q)) + 1))
        by (apply Qpower_comp; [reflexivity | lia]).
      rewrite X. exact U. }
  destruct (Qnum (Qred q)) as [| n | n] eqn:E.
  - exfalso. apply Hq. now apply Qred_zero.
  - apply G, Qabs_Qred_num. now left.
  - apply G, Qabs_Qred_num. now right.
Qed.

Lemma exponent_unique (q : Q) (e : Z) :
  2 ^ (e + 52) <= Qabs q -> Qabs q < 2 ^ (e + 53) -> Double.exponent q = e.
Proof.
  intros L U.
  assert (Hq : ~ q == 0).
  { intros C. rewrite C in L. pose proof (pow2_pos (e + 52)) as P.
    change (Qabs 0) with 0 in L. apply (Qlt_irrefl 0). now apply Qlt_le_trans with (2 ^ (e + 52)). }
  destruct (exponent_spec q Hq) as [L' U'].
  assert (A : (Double.exponent q + 52 < e + 53)%Z) by (apply pow2_lt_inv; lra).
  assert (B : (e + 52 < Double.exponent q + 53)%Z) by (apply pow2_lt_inv; lra).
  lia.
Qed.

(** Rounding depends on the value of a rational, not on how it is
    written. *)
Lemma round_comp (q q' : Q) : q == q' -> Double.round q = Double.round q'.
Proof.
  intros E. unfold Double.round, Double.exponent. now rewrite (Qred_complete q q' E).
Qed.

Lemma round_half_even_comp (x y : Q) :
  x == y -> Double.round_half_even x = Double.round_half_even y.
Proof.
  intros E. unfold Double.round_half_even.
  rewrite (Qfloor_comp x y E).
  assert (C : Qcompare (x - inject_Z (Qfloor y)) (1 # 2) =
              Qcompare (y - inject_Z (Qfloor y)) (1 # 2)).
  { apply Qcompare_comp; [now rewrite E | reflexivity]. }
  now rewrite C.
Qed.

Lemma round_half_even_Z (n : Z) : Double.round_half_even (inject_Z n) = n.
Proof.
  unfold Double.round_half_even. rewrite Qfloor_Z.
  assert (C : Qcompare (inject_Z n - inject_Z n) (1 # 2) = Lt).
  { apply Qlt_alt. assert (Z0 : inject_Z n - inject_Z n == 0) by ring.
    rewrite Z0. reflexivity. }
  now rewrite C.
Qed.

Lemma round_half_even_error (x : Q) :
  x - (1 # 2) <= inject_Z (Double.round_half_even x) <= x + (1 # 2).
Proof.
  unfold Double.round_half_even.
  pose proof (Qfloor_le x) as L. pose proof (Qlt_floor x) as U.
  rewrite inject_Z_plus in U. change (inject_Z 1) with 1 in U.
  set (f := Qfloor x) in *.
  destruct (Qcompare (x - inject_Z f) (1 # 2)) eqn:C.
  - apply Qeq_alt in C.
    destruct (Z.even f); [| rewrite inject_Z_plus; change (inject_Z 1) with 1]; lra.
  - apply Qlt_alt in C. lra.
  - apply Qgt_alt in C. rewrite inject_Z_plus. change (inject_Z 1) with 1. lra.
Qed.

Lemma round_unfold (q : Q) :
  Double.round q ==
  inject_Z (Double.round_half_even (q / 2 ^ Double.exponent q)) * 2 ^ Double.exponent q.
Proof.
  unfold Double.round.
  rewrite (round_half_even_comp (Qred q / 2 ^ Double.exponent q) (q / 2 ^ Double.exponent q)).
  - reflexivity.
  - now rewrite Qred_correct.
Qed.

(** Rounding changes a number by at most 2^-53 of its magnitude. *)
Lemma round_error (q : Q) : Qabs (Double.round q - q) <= Qabs q * Double.u.
Proof.
  destruct (Qeq_dec q 0) as [Z | NZ].
  - rewrite (round_comp q 0 Z), Z. vm_compute. discriminate.
  - destruct (exponent_spec q NZ) as [L _].
    rewrite round_unfold.
    set (e := Double.exponent q) in *.
    pose proof (pow2_pos e) as Pe.
    pose proof (round_half_even_error (q / 2 ^ e)) as [A B].
    set (m := inject_Z (Double.round_half_even (q / 2 ^ e))) in *.
    assert (E52 : 2 ^ (e + 52) == 2 ^ e * 4503599627370496).
    { rewrite pow2_add. reflexivity. }
    rewrite E52 in L.
    assert (Ex : q / 2 ^ e * 2 ^ e == q) by (field; lra).
    set (x := q / 2 ^ e) in *. set (P := 2 ^ e) in *.
    assert (D : m * P - q == (m - x) * P) by (rewrite <- Ex at 1; ring).
    rewrite D.
    apply Qabs_Qle_condition. unfold Double.u.
    assert (A1 : 0 <= (m - (x - (1 # 2))) * P) by (apply Qmult_le_0_compat; lra).
    assert (A2 : 0 <= ((x + (1 # 2)) - m) * P) by (apply Qmult_le_0_compat; lra).
    assert (Q1 : - Qabs q <= q <= Qabs q).
    { split; [| apply Qle_Qabs].
      rewrite <- (Qopp_involutive q) at 2. apply Qopp_le_compat.
      rewrite <- Qabs_opp. apply Qle_Qabs. }
    lra.
Qed.

Lemma round_bounds_nonneg (q : Q) :
  0 <= q -> q - q * Double.u <= Double.round q <= q + q * Double.u.
Proof.
  intros H. pose proof (round_error q) as E.
  apply Qabs_Qle_condition in E. rewrite (Qabs_pos q H) in E. lra.
Qed.

Lemma round_bounds_nonpos (q : Q) :
  q <= 0 -> q + q * Double.u <= Double.round q <= q - q * Double.u.
Proof.
  intros H. pose proof (round_error q) as E.
  apply Qabs_Qle_condition in E. rewrite (Qabs_neg q H) in E. lra.
Qed.

Lemma Qabs_scaled (m : Z) (e : Z) :
  Qabs (inject_Z m * 2 ^ e) == inject_Z (Z.abs m) * 2 ^ e.
Proof.
  rewrite Qabs_Qmult. change (Qabs (inject_Z m)) with (inject_Z (Z.abs m)).
  rewrite (Qabs_pos (2 ^ e)); [reflexivity |]. pose proof (pow2_pos e). lra.
Qed.

(** A number with a significand of at most 53 bits is a double: rounding
    leaves it as it is. *)
Lemma round_representable (q : Q) (m e : Z) :
  q == inject_Z m * 2 ^ e -> (Z.abs m < 2 ^ 53)%Z -> Double.round q == q.
Proof.
  intros E Hm.
  destruct (Qeq_dec q 0) as [Z | NZ].
  - rewrite (round_comp q 0 Z), Z. reflexivity.
  - destruct (exponent_spec q NZ) as [L U].
    rewrite round_unfold.
    set (e0 := Double.exponent q) in *.
    assert (Habs : Qabs q == inject_Z (Z.abs m) * 2 ^ e) by (rewrite E; apply Qabs_scaled).
    assert (Hm' : inject_Z (Z.abs m) < 2 ^ 53).
    { rewrite <- pow2_Z by lia. rewrite <- Zlt_Qlt. exact Hm. }
    pose proof (pow2_pos e) as Pe. pose proof (pow2_pos e0) as Pe0.
    assert (Hle : (e0 <= e)%Z).
    { destruct (Z_le_gt_dec e0 e) as [? | G]; [assumption | exfalso].
      assert (S1 : 2 ^ (e + 53) <= 2 ^ (e0 + 52)) by (apply pow2_le; lia).
      assert (S2 : inject_Z (Z.abs m) * 2 ^ e < 2 ^ 53 * 2 ^ e).
      { apply Qmult_lt_r; assumption. }
      assert (S3 : 2 ^ (e + 53) == 2 ^ 53 * 2 ^ e) by (rewrite pow2_add; ring).
      lra. }
    assert (Ex : q / 2 ^ e0 == inject_Z (m * 2 ^ (e - e0))).
    { rewrite inject_Z_mult, pow2_Z by lia. rewrite E.
      assert (S : 2 ^ e == 2 ^ (e - e0) * 2 ^ e0).
      { rewrite <- pow2_add. apply Qpower_comp; [reflexivity | lia]. }
      rewrite S. field. lra. }
    rewrite (round_half_even_comp _ _ Ex), round_half_even_Z.
    rewrite <- Ex. field. lra.
Qed.

(** Integers below 2^53 are doubles. *)
Lemma round_Z (n : Z) : (Z.abs n < 2 ^ 53)%Z -> Double.round (inject_Z n) == inject_Z n.
Proof.
  intros H. apply (round_representable _ n 0); [| exact H].
  change (2 ^ 0) with 1. ring.
Qed.

(** What rounding delivers is a double. *)
Lemma round_is_double (q : Q) :
  exists m e, Double.round q == inject_Z m * 2 ^ e /\ (Z.abs m < 2 ^ 53)%Z.
Proof.
  destruct (Qeq_dec q 0) as [Z | NZ].
  - exists 0%Z, 0%Z. rewrite (round_comp q 0 Z). split; reflexivity.
  - destruct (exponent_spec q NZ) as [L U].
    pose proof (round_unfold q) as R.
    set (e0 := Double.exponent q) in *.
    pose proof (pow2_pos e0) as Pe0.
    pose proof (round_half_even_error (q / 2 ^ e0)) as [A B].
    set (m0 := Double.round_half_even (q / 2 ^ e0)) in *.
    assert (X : Qabs (q / 2 ^ e0) < 2 ^ 53).
    { unfold Qdiv. rewrite Qabs_Qmult, (Qabs_pos (/ 2 ^ e0)).
      - apply Qlt_shift_div_r; [exact Pe0 |].
        assert (S : 2 ^ (e0 + 53) == 2 ^ 53 * 2 ^ e0) by (rewrite pow2_add; ring).
        lra.
      - apply Qlt_le_weak, Qinv_lt_0_compat. exact Pe0. }
    assert (Hm0 : (Z.abs m0 <= 2 ^ 53)%Z).
    { assert (Y : Qabs (inject_Z m0) < 2 ^ 53 + 1).
      { apply Qabs_Qlt_condition. apply Qabs_Qlt_condition in X. split; lra. }
      change (Qabs (inject_Z m0)) with (inject_Z (Z.abs m0)) in Y.
      assert (Y' : inject_Z (Z.abs m0) < inject_Z (2 ^ 53 + 1)).
      { rewrite inject_Z_plus, pow2_Z by lia. exact Y. }
      rewrite <- Zlt_Qlt in Y'. lia. }
    change (2 ^ 53)%Z with 9007199254740992%Z in Hm0. clearbody m0.
    destruct (Z.eq_dec (Z.abs m0) 9007199254740992%Z) as [T | T].
    + assert (C : (m0 = 9007199254740992 \/ m0 = - 9007199254740992)%Z) by lia.
      exists (m0 / 2)%Z, (e0 + 1)%Z. split.
      * rewrite R, pow2_succ.
        assert (D : (m0 = 2 * (m0 / 2))%Z) by (destruct C as [-> | ->]; reflexivity).
        rewrite D at 1. rewrite inject_Z_mult. change (inject_Z 2) with 2. ring.
      * destruct C as [-> | ->]; reflexivity.
    + exists m0, e0. split; [exact R | change (2 ^ 53)%Z with 9007199254740992%Z; lia].
Qed.

Lemma round_round (q : Q) : Double.round (Double.round q) == Double.round q.
Proof.
  destruct (round_is_double q) as (m & e & E & Hm).
  now apply (round_representable _ m e).
Qed.

(** Halving is exact: it commutes with rounding. *)
Lemma round_half (q : Q) : Double.round (q / 2) == Double.round q / 2.
Proof.
  destruct (Qeq_dec q 0) as [Z | NZ].
  - assert (Z' : q / 2 == 0) by (rewrite Z; reflexivity).
    rewrite (round_comp _ _ Z'), (round_comp _ _ Z). reflexivity.
  - destruct (exponent_spec q NZ) as [L U].
    assert (Habs : Qabs (q / 2) == Qabs q * (1 # 2)).
    { unfold Qdiv. rewrite Qabs_Qmult. reflexivity. }
    assert (Ee : Double.exponent (q / 2) = (Double.exponent q - 1)%Z).
    { apply exponent_unique; rewrite Habs.
      - assert (S : 2 ^ (Double.exponent q - 1 + 52) == 2 ^ (Double.exponent q + 52) * (1 # 2)).
        { rewrite <- pow2_pred. apply Qpower_comp; [reflexivity | lia]. }
        rewrite S. lra.
      - assert (S : 2 ^ (Double.exponent q - 1 + 53) == 2 ^ (Double.exponent q + 53) * (1 # 2)).
        { rewrite <- pow2_pred. apply Qpower_comp; [reflexivity | lia]. }
        rewrite S. lra. }
    rewrite (round_unfold (q / 2)), (round_unfold q), Ee.
    set (e := Double.exponent q) in *. pose proof (pow2_pos e) as Pe.
    assert (Ex : q / 2 / 2 ^ (e - 1) == q / 2 ^ e).
    { rewrite pow2_pred. field. lra. }
    rewrite (round_half_even_comp _ _ Ex), pow2_pred. field.
Qed.



Lemma processImage_resolves (env : Env) (imageBase64 : jsstring) (img : RasterImage)
    (tw th : Q) (name : jsstring) :
  decode env (data_url imageBase64) = Some img ->
  has_context env = true ->
  exists asset,
    processImage env imageBase64 tw th name = Resolved asset /\
    bitmap (asset_blob asset) = bitmap_of (cover_canvas tw th img) /\
    asset_fileName asset = name.
Proof.
  intros Hdec Hctx. unfold processImage. rewrite Hdec, Hctx. simpl.
  eexists. split; [reflexivity | split; reflexivity].
Qed.

(** ** C3: scale and offsets of the cover fit *)

(** Half of an integer below 2^53 is a double. *)
Lemma half_of_integer (n : Z) :
  (Z.abs n < 2 ^ 53)%Z -> inject_Z n [/] 2 == inject_Z n / 2.
Proof. intros H. unfold Double.div. rewrite round_half, (round_Z n H). reflexivity. Qed.

Lemma half_of_double (q : Q) : Double.round q [/] 2 == Double.round q / 2.
Proof. unfold Double.div. now rewrite round_half, round_round. Qed.

(** (w / 2) * scale, as the code has it, is (w * scale) / 2. *)
Lemma mul_half (n : Z) (s : Q) :
  (Z.abs n < 2 ^ 53)%Z -> (inject_Z n [/] 2) [*] s == (inject_Z n [*] s) / 2.
Proof.
  intros H. unfold Double.mul.
  rewrite (round_comp ((inject_Z n [/] 2) * s) (inject_Z n * s / 2)).
  - apply round_half.
  - rewrite (half_of_integer n H). field.
Qed.

(** C3. For a decodable source and any target size, [processImage] draws the
    whole source scaled by max (targetWidth / width, targetHeight / height),
    at x = targetWidth / 2 - (width * scale) / 2 and
    y = targetHeight / 2 - (height * scale) / 2, on a canvas set to the
    target size; the quotients, products and differences are those of
    JavaScript numbers. *)
Theorem processImage_cover_geometry (env : Env) (imageBase64 : jsstring)
    (img : RasterImage) (targetWidth targetHeight : Q) (name : jsstring) :
  decode env (data_url imageBase64) = Some img ->
  has_context env = true ->
  decodable img ->
  let w := inject_Z (width img) in
  let h := inject_Z (height img) in
  let scale := Qmax (targetWidth [/] w) (targetHeight [/] h) in
  exists asset x y,
    processImage env imageBase64 targetWidth targetHeight name = Resolved asset /\
    bitmap (asset_blob asset) =
      bitmap_of (drawImage5 img x y (w [*] scale) (h [*] scale)
                   (set_height targetHeight (set_width targetWidth createCanvas))) /\
    x == (targetWidth [/] 2) [-] (w [*] scale) [/] 2 /\
    y == (targetHeight [/] 2) [-] (h [*] scale) [/] 2.
Proof.
  intros Hdec Hctx [Hw Hh] w h scale.
  destruct (processImage_resolves env imageBase64 img targetWidth targetHeight name Hdec Hctx)
    as (asset & Hres & Hbm & _).
  exists asset, (cover_x targetWidth targetHeight img), (cover_y targetWidth targetHeight img).
  split; [exact Hres | split; [exact Hbm |]].
  assert (Bw : (Z.abs (width img) < 2 ^ 53)%Z) by lia.
  assert (Bh : (Z.abs (height img) < 2 ^ 53)%Z) by lia.
  unfold cover_x, cover_y, cover_scale. fold w h scale. unfold Double.sub. split.
  - rewrite (round_comp (targetWidth [/] 2 - (w [/] 2) [*] scale)
               (targetWidth [/] 2 - (w [*] scale) [/] 2)); [reflexivity |].
    unfold w. rewrite (mul_half _ scale Bw).
    unfold Double.mul at 2. now rewrite half_of_double.
  - rewrite (round_comp (targetHeight [/] 2 - (h [/] 2) [*] scale)
               (targetHeight [/] 2 - (h [*] scale) [/] 2)); [reflexivity |].
    unfold h. rewrite (mul_half _ scale Bh).
    unfold Double.mul at 2. now rewrite half_of_double.
Qed.

(** The scenario of the specification: a 1000 by 1000 source fit to 750 by
    400 is drawn at scale 3/4, 750 by 750, at x = 0 and y = -175; every
    number of it is a double, so nothing is rounded. *)
Lemma processImage_cover_geometry_witness :
  let img := sample_image 1000 1000 in
  let scale := Qmax ((750 # 1) [/] inject_Z (width img)) ((400 # 1) [/] inject_Z (height img)) in
  scale == 3 # 4 /\
  inject_Z (width img) [*] scale == 750 # 1 /\
  inject_Z (height img) [*] scale == 750 # 1 /\
  exists asset x y,
    processImage (sample_env img) (lit "AAAA") (750 # 1) (400 # 1) (lit "banner.png") =
      Resolved asset /\
    bitmap (asset_blob asset) =
      bitmap_of (drawImage5 img x y (inject_Z (width img) [*] scale)
                   (inject_Z (height img) [*] scale)
                   (set_height (400 # 1) (set_width (750 # 1) createCanvas))) /\
    x == 0 /\ y == - (175 # 1).
Proof.
  intros img scale.
  split; [vm_compute; reflexivity | split; [vm_compute; reflexivity |
    split; [vm_compute; reflexivity |]]].
  destruct (processImage_cover_geometry (sample_env img) (lit "AAAA") img (750 # 1) (400 # 1)
              (lit "banner.png") eq_refl eq_refl)
    as (asset & x & y & Hres & Hbm & Hx & Hy).
  { unfold decodable; simpl; lia. }
  exists asset, x, y.
  split; [exact Hres | split; [exact Hbm | split]].
  - rewrite Hx. vm_compute. reflexivity.
  - rewrite Hy. vm_compute. reflexivity.
Defined.

(** ** C4: the cover guarantee *)


Lemma cover_canvas_size (tw th : Q) (img : RasterImage) :
  cv_width (cover_canvas tw th img) = reflect_dimension 300 tw /\
  cv_height (cover_canvas tw th img) = reflect_dimension 150 th.
Proof.
  unfold cover_canvas, drawImage5.
  destruct (drawImage9_width img 0 0 (inject_Z (width img)) (inject_Z (height img))
              (cover_x tw th img) (cover_y tw th img)
              (inject_Z (width img) [*] cover_scale tw th img)
              (inject_Z (height img) [*] cover_scale tw th img)
              (set_height th (set_width tw createCanvas))) as [-> ->].
  split; reflexivity.
Qed.

(** The offset the code computes is half the difference between the target
    and the scaled size, rounded once. *)
Lemma offset_value (t n : Z) (s : Q) :
  (Z.abs t < 2 ^ 53)%Z -> (Z.abs n < 2 ^ 53)%Z ->
  (inject_Z t [/] 2) [-] (inject_Z n [/] 2) [*] s =
  Double.round ((inject_Z t - inject_Z n [*] s) / 2).
Proof.
  intros Ht Hn. unfold Double.sub. apply round_comp.
  rewrite (half_of_integer t Ht), (mul_half n s Hn). field.
Qed.

(** How far the rounded fit can fall short, in one direction: for a target
    t and a source n, both integers, and a scale that is at least the
    rounded quotient t / n, the scaled size d = n * scale reaches t up to
    2^-52 of t, the offset x is at most that much above zero, and the far
    edge x + d is at most that much short of t. When d reaches t there is
    no gap at all. *)
Lemma fit_bounds (t n : Z) (s : Q) :
  (0 <= t < 2 ^ 53)%Z -> (0 < n < 2 ^ 53)%Z ->
  inject_Z t [/] inject_Z n <= s ->
  let T := inject_Z t in
  let d := inject_Z n [*] s in
  let x := (T [/] 2) [-] (inject_Z n [/] 2) [*] s in
  T - T * (2 * Double.u) <= d /\
  x <= T * (2 * Double.u) /\
  T - T * (2 * Double.u) <= x + d /\
  (T <= d -> x <= 0 /\ T <= x + d).
Proof.
  intros Ht Hn Hs T d x.
  assert (PT : 0 <= T) by (apply inject_Z_nonneg; lia).
  assert (PN : 0 < inject_Z n) by (apply inject_Z_pos; lia).
  fold T in Hs. set (N := inject_Z n) in *.
  assert (Pq : 0 <= T / N).
  { apply Qle_shift_div_l; [exact PN | lra]. }
  destruct (round_bounds_nonneg (T / N) Pq) as [Q1 _].
  fold (Double.div T N) in Q1.
  assert (ENq : N * (T / N) == T) by (field; lra).
  assert (S1 : T - T * Double.u <= N * s).
  { assert (A : 0 <= N * (s - (T / N - T / N * Double.u))).
    { apply Qmult_le_0_compat; [lra |].
      set (q1 := T / N) in *. set (s1 := T [/] N) in *. lra. }
    assert (B : N * (s - (T / N - T / N * Double.u)) ==
                N * s - (N * (T / N) - N * (T / N) * Double.u)) by ring.
    rewrite B, ENq in A. lra. }
  assert (Pu : T * Double.u <= T).
  { unfold Double.u. lra. }
  assert (PNs : 0 <= N * s) by lra.
  destruct (round_bounds_nonneg (N * s) PNs) as [D1 _].
  fold (Double.mul N s) in D1. fold d in D1.
  assert (Ex : x = Double.round ((T - d) / 2)) by (apply offset_value; lia).
  assert (Lower : T - T * (2 * Double.u) <= d).
  { unfold Double.u in *. lra. }
  split; [exact Lower |].
  destruct (Qlt_le_dec d T) as [Short | Reach].
  - assert (Pt : 0 <= (T - d) / 2) by (rewrite Qhalf; lra).
    destruct (round_bounds_nonneg _ Pt) as [X1 X2]. rewrite <- Ex in X1, X2.
    rewrite Qhalf in X1, X2. unfold Double.u in *.
    split; [lra | split; [lra | intros C; lra]].
  - assert (Pt : (T - d) / 2 <= 0) by (rewrite Qhalf; lra).
    destruct (round_bounds_nonpos _ Pt) as [X1 X2]. rewrite <- Ex in X1, X2.
    rewrite Qhalf in X1, X2. unfold Double.u in *.
    split; [lra | split; [lra | intros _; split; lra]].
Qed.





(** ** What a slice holds, pixel by pixel *)

Lemma restore_px (c : Canvas) : cv_px (restore c) = cv_px c.
Proof. unfold restore. destruct (cv_saved c); reflexivity. Qed.

Lemma path_eqb_refl (p : path) : path_eqb p p = true.
Proof.
  induction p as [| a p IH]; [reflexivity |].
  simpl. rewrite IH. destruct a; simpl; rewrite ?Qeq_bool_refl; reflexivity.
Qed.

Lemma as_rounded_rect_outline (w h r : Q) :
  as_rounded_rect (rounded_outline w h r) = Some (w, h, r).
Proof.
  unfold as_rounded_rect. cbv beta iota delta [rounded_outline].
  fold (rounded_outline w h r). now rewrite path_eqb_refl.
Qed.

Lemma draw_cell_stages (img : RasterImage) (row col : nat) :
  draw_cell img row col createCanvas =
  restore (drawImage9 img
             (inject_Z (Z.of_nat col) * cellWidth img)
             (inject_Z (Z.of_nat row) * cellHeight img)
             (cellWidth img) (cellHeight img) 0 0 (cellWidth img) (cellHeight img)
             (clipped_cell img)).
Proof. reflexivity. Qed.

Lemma clipped_cell_clip (img : RasterImage) :
  cv_clip (clipped_cell img) =
  [rounded_outline (cellWidth img) (cellHeight img) (borderRadius img)].
Proof. reflexivity. Qed.

Lemma clipped_cell_clear (img : RasterImage) (i j : Z) :
  cv_px (clipped_cell img) i j = Clear.
Proof.
  unfold clipped_cell.
  cbn [cv_px clip save closePath quadraticCurveTo lineTo moveTo beginPath
       with_path with_px clearRect set_height set_width].
  destruct (meet _ _); reflexivity.
Qed.

Lemma clipped_cell_cover (img : RasterImage) (i j : Z) :
  clip_cover (cv_clip (clipped_cell img)) i j =
  meet (rounded_cover (cellWidth img) (cellHeight img) (borderRadius img) i j) Covered.
Proof.
  rewrite clipped_cell_clip. cbn [clip_cover fold_right].
  unfold path_cover. now rewrite as_rounded_rect_outline.
Qed.

Lemma meet_covered_r (a : coverage) : meet a Covered = a.
Proof. destruct a; reflexivity. Qed.

Lemma meet_uncovered_r (a : coverage) : meet a Uncovered = Uncovered.
Proof. destruct a; reflexivity. Qed.

Lemma cell_slice_px (img : RasterImage) (row col : nat) :
  bm_px (bitmap (blob (cell_slice img row col))) =
  cv_px (drawImage9 img
           (inject_Z (Z.of_nat col) * cellWidth img)
           (inject_Z (Z.of_nat row) * cellHeight img)
           (cellWidth img) (cellHeight img) 0 0 (cellWidth img) (cellHeight img)
           (clipped_cell img)).
Proof.
  unfold cell_slice, make_slice. cbn [blob bitmap bitmap_of bm_px].
  rewrite draw_cell_stages. apply restore_px.
Qed.

(** A pixel whose square lies in a rounded-off corner stays clear, whatever
    the image. *)
Lemma cell_slice_corner_clear (img : RasterImage) (row col : nat) (i j : Z) :
  in_cut_corner (cellWidth img) (cellHeight img) (borderRadius img) i j = true ->
  bm_px (bitmap (blob (cell_slice img row col))) i j = Clear.
Proof.
  intros Hcut. rewrite cell_slice_px. unfold drawImage9.
  destruct (_ || _).
  - apply clipped_cell_clear.
  - cbn [cv_px with_px]. rewrite clipped_cell_cover, clipped_cell_clear.
    unfold rounded_cover. rewrite Hcut.
    destruct (rect_cover 0 0 _ _ i j); cbn [meet]; rewrite meet_uncovered_r; reflexivity.
Qed.

Lemma whole_number (q : Q) (n : Z) :
  q == inject_Z n -> is_whole q = true /\ Qfloor q = n.
Proof.
  intros E. assert (F : Qfloor q = n) by (rewrite E; apply Qfloor_Z).
  split; [| exact F]. unfold is_whole. rewrite F. apply Qeq_bool_iff. now symmetry.
Qed.

(** A pixel whose square the mask covers whole holds the source pixel of the
    same place in the cell, when the cells are whole numbers of pixels wide
    and high. *)
Lemma cell_slice_inside_exact (img : RasterImage) (row col : nat) (cw ch i j : Z) :
  (0 < cw)%Z -> (0 < ch)%Z ->
  width img = (Z.of_nat COLS * cw)%Z ->
  height img = (Z.of_nat ROWS * ch)%Z ->
  (row < ROWS)%nat -> (col < COLS)%nat ->
  (0 <= i < cw)%Z -> (0 <= j < ch)%Z ->
  rounded_cover (cellWidth img) (cellHeight img) (borderRadius img) i j = Covered ->
  bm_px (bitmap (blob (cell_slice img row col))) i j =
  exact_copy (pixel img (Z.of_nat col * cw + i) (Z.of_nat row * ch + j)).
Proof.
  intros Pcw Pch Ew Eh Hrow Hcol Hi Hj Hin.
  rewrite cell_slice_px.
  assert (Qcw : cellWidth img == inject_Z cw).
  { unfold cellWidth. rewrite Ew, inject_Z_mult. field. discriminate. }
  assert (Qch : cellHeight img == inject_Z ch).
  { unfold cellHeight. rewrite Eh, inject_Z_mult. field. discriminate. }
  assert (Qw : inject_Z (width img) == 6 * inject_Z cw).
  { rewrite Ew, inject_Z_mult. reflexivity. }
  assert (Qh : inject_Z (height img) == 4 * inject_Z ch).
  { rewrite Eh, inject_Z_mult. reflexivity. }
  pose proof (inject_Z_pos _ Pcw) as Pw. pose proof (inject_Z_pos _ Pch) as Ph.
  pose proof (inject_Z_nonneg i (proj1 Hi)) as Pi.
  pose proof (inject_Z_nonneg j (proj1 Hj)) as Pj.
  pose proof (inject_Z_succ_le i cw (proj2 Hi)) as Si.
  pose proof (inject_Z_succ_le j ch (proj2 Hj)) as Sj.
  pose proof (inject_Z_nonneg (Z.of_nat col) (Nat2Z.is_nonneg col)) as Pc.
  pose proof (inject_Z_nonneg (Z.of_nat row) (Nat2Z.is_nonneg row)) as Pr.
  assert (Bc : inject_Z (Z.of_nat col) + 1 <= 6).
  { apply (inject_Z_succ_le (Z.of_nat col) 6). unfold COLS in Hcol. lia. }
  assert (Br : inject_Z (Z.of_nat row) + 1 <= 4).
  { apply (inject_Z_succ_le (Z.of_nat row) 4). unfold ROWS in Hrow. lia. }
  set (qc := inject_Z (Z.of_nat col)) in *. set (qr := inject_Z (Z.of_nat row)) in *.
  set (qi := inject_Z i) in *. set (qj := inject_Z j) in *.
  set (CW := cellWidth img) in *. set (CH := cellHeight img) in *.
  set (W := inject_Z (width img)) in *. set (H := inject_Z (height img)) in *.
  set (qcw := inject_Z cw) in *. set (qch := inject_Z ch) in *.
  unfold drawImage9.
  rewrite (Qle_bool_false CW 0), (Qle_bool_false CH 0) by lra.
  cbn [orb cv_px with_px]. rewrite clipped_cell_cover, clipped_cell_clear.
  fold CW CH. rewrite Hin. cbn [meet].
  assert (Kw : CW / CW == 1) by (field; lra).
  assert (Kh : CH / CH == 1) by (field; lra).
  assert (Xl : Qmax (qc * CW) 0 == qc * CW) by (apply Q.max_l; rewrite Qcw; nra).
  assert (Yl : Qmax (qr * CH) 0 == qr * CH) by (apply Q.max_l; rewrite Qch; nra).
  assert (Xr : Qmin (qc * CW + CW) W == qc * CW + CW).
  { apply Q.min_l. rewrite Qcw, Qw. nra. }
  assert (Yr : Qmin (qr * CH + CH) H == qr * CH + CH).
  { apply Q.min_l. rewrite Qch, Qh. nra. }
  rewrite rect_cover_covered.
  - cbn [meet]. unfold exact_copy, sample_at. fold qi qj.
    rewrite (proj2 (Qeq_bool_iff _ _) Kw), (proj2 (Qeq_bool_iff _ _) Kh).
    assert (Ex : qc * CW + (qi - 0) / (CW / CW) == inject_Z (Z.of_nat col * cw + i)).
    { rewrite Kw, Qcw, inject_Z_plus, inject_Z_mult. fold qc qcw qi. field. }
    assert (Ey : qr * CH + (qj - 0) / (CH / CH) == inject_Z (Z.of_nat row * ch + j)).
    { rewrite Kh, Qch, inject_Z_plus, inject_Z_mult. fold qr qch qj. field. }
    destruct (whole_number _ _ Ex) as [-> ->].
    destruct (whole_number _ _ Ey) as [-> ->].
    reflexivity.
  - fold qi. rewrite Xl, Kw. lra.
  - fold qi W. rewrite Xr, Kw, Qcw. lra.
  - fold qj. rewrite Yl, Kh. lra.
  - fold qj H. rewrite Yr, Kh, Qch. lra.
Qed.

(** ** The rounded corner *)

(** The rounded-off corner is closed toward the corner of the box: with a
    point it contains every point nearer to both sides. So a pixel square
    whose farthest vertex is in it lies in it entirely. *)
Lemma corner_out_down_closed (r x y x' y' : Q) :
  corner_out r x y = true ->
  0 <= x' <= x -> 0 <= y' <= y ->
  corner_out r x' y' = true.
Proof.
  unfold corner_out. rewrite !andb_true_iff, !Qle_bool_iff.
  intros [[[Hx Hy] Hs] Hp] [Hx0 Hx1] [Hy0 Hy1].
  repeat split; try lra.
  assert (A1 : 0 <= (x - x') * y) by (apply Qmult_le_0_compat; lra).
  assert (A2 : 0 <= x' * (y - y')) by (apply Qmult_le_0_compat; lra).
  assert (A3 : 0 <= ((x - x') + (y - y')) * ((r - x - y) + (r - x' - y')))
    by (apply Qmult_le_0_compat; lra).
  lra.
Qed.

(** The curve [quadraticCurveTo(0, 0, r, 0)] from (0, r) is the border of
    the rounded-off corner: its points are in [corner_out] and not in its
    interior [corner_cut]. *)
Lemma quad_curve_is_border (r t : Q) :
  0 <= r -> 0 <= t <= 1 ->
  let x := quad_point 0 0 r t in
  let y := quad_point r 0 0 t in
  corner_out r x y = true /\ corner_cut r x y = false.
Proof.
  intros Hr [Ht0 Ht1] x y.
  assert (Ex : x == t * t * r) by (unfold x, quad_point; ring).
  assert (Ey : y == (1 - t) * (1 - t) * r) by (unfold y, quad_point; ring).
  assert (Hx : 0 <= x) by (rewrite Ex; repeat apply Qmult_le_0_compat; lra).
  assert (Hy : 0 <= y) by (rewrite Ey; repeat apply Qmult_le_0_compat; lra).
  assert (Hs : r - x - y == 2 * t * (1 - t) * r) by (rewrite Ex, Ey; ring).
  assert (Hp : 4 * x * y == (r - x - y) * (r - x - y)) by (rewrite Hs, Ex, Ey; ring).
  assert (Hs' : x + y <= r).
  { assert (0 <= r - x - y) by (rewrite Hs; repeat apply Qmult_le_0_compat; lra). lra. }
  split.
  - unfold corner_out. rewrite !andb_true_iff, !Qle_bool_iff.
    repeat split; try assumption. rewrite Hp. lra.
  - unfold corner_cut, Qltb.
    rewrite (Qle_bool_true ((r - x - y) * (r - x - y)) (4 * x * y)) by (rewrite Hp; lra).
    now rewrite !andb_false_r.
Qed.

(** A host that draws the curve as a polygon with vertices on it stays
    beyond the chord: every point of a straight line between two points of
    the curve is at most r away from the corner, the distances along the two
    sides added. So the polygon leaves the region behind the chord whole. *)
Lemma flattened_curve_beyond_chord (r t t' k : Q) :
  0 <= r -> 0 <= t <= 1 -> 0 <= t' <= 1 -> 0 <= k <= 1 ->
  let x := (1 - k) * quad_point 0 0 r t + k * quad_point 0 0 r t' in
  let y := (1 - k) * quad_point r 0 0 t + k * quad_point r 0 0 t' in
  x + y <= r.
Proof.
  intros Hr [Ht0 Ht1] [Hs0 Hs1] [Hk0 Hk1] x y.
  assert (E : r - (x + y) ==
              (1 - k) * (2 * t * (1 - t) * r) + k * (2 * t' * (1 - t') * r))
    by (unfold x, y, quad_point; ring).
  assert (A : 0 <= (1 - k) * (2 * t * (1 - t) * r))
    by (repeat apply Qmult_le_0_compat; lra).
  assert (B : 0 <= k * (2 * t' * (1 - t') * r))
    by (repeat apply Qmult_le_0_compat; lra).
  lra.
Qed.

(** ** C9: the rounded mask of every slice *)

(** C9. Whatever the composite, every slice is drawn through a clip on the
    rounded outline of the cell whose corner radius is 5% of the smaller of
    the cell width W / 6 and the cell height H / 4, and every pixel whose
    square lies in one of the four rounded-off corners is clear (fully
    transparent) in every slice. [sliceMemeGrid] takes the image and nothing
    else: no argument turns the mask off. *)
Theorem sliceMemeGrid_rounded_mask (env : Env) (imageBase64 : jsstring) (img : RasterImage) :
  decode env (data_url imageBase64) = Some img ->
  has_context env = true ->
  let cw := inject_Z (width img) / 6 in
  let ch := inject_Z (height img) / 4 in
  let r := Qmin cw ch * (5 # 100) in
  exists slices,
    sliceMemeGrid env imageBase64 = Resolved slices /\
    cv_clip (clipped_cell img) = [rounded_outline cw ch r] /\
    (forall row col, (row < ROWS)%nat -> (col < COLS)%nat ->
       slices !! (row * COLS + col)%nat = Some (cell_slice img row col) /\
       bitmap (blob (cell_slice img row col)) =
         bitmap_of (restore (drawImage9 img (inject_Z (Z.of_nat col) * cw)
                               (inject_Z (Z.of_nat row) * ch) cw ch 0 0 cw ch
                               (clipped_cell img)))) /\
    forall s, In s slices ->
      forall i j, in_cut_corner cw ch r i j = true ->
        bm_px (bitmap (blob s)) i j = Clear.
Proof.
  intros Hdec Hctx cw ch r. exists (slice_loop img).
  split; [| split; [| split]].
  - now apply sliceMemeGrid_resolves.
  - reflexivity.
  - intros row col Hrow Hcol. split; [now apply slice_loop_lookup | reflexivity].
  - intros s Hs i j Hcut.
    apply in_slice_loop in Hs. destruct Hs as (row & col & _ & _ & ->).
    now apply cell_slice_corner_clear.
Qed.

(** In each slice of a 3840 by 2160 composite the four corner pixels are
    clear. *)
Lemma sliceMemeGrid_rounded_mask_witness :
  exists slices,
    sliceMemeGrid (sample_env (sample_image 3840 2160)) (lit "AAAA") = Resolved slices /\
    forall s, In s slices ->
      bm_px (bitmap (blob s)) 0 0 = Clear /\
      bm_px (bitmap (blob s)) 639 0 = Clear /\
      bm_px (bitmap (blob s)) 0 539 = Clear /\
      bm_px (bitmap (blob s)) 639 539 = Clear.
Proof.
  destruct (sliceMemeGrid_rounded_mask (sample_env (sample_image 3840 2160)) (lit "AAAA")
              (sample_image 3840 2160) eq_refl eq_refl)
    as (slices & Hres & _ & _ & Hclear).
  exists slices. split; [exact Hres |].
  intros s Hs. repeat split; apply (Hclear s Hs); reflexivity.
Defined.

(** ** C5: slices against the composite *)

(** C5 as stated fails: the slices of a 3840 by 2160 composite, laid back
    out on a canvas of 640 by 540 cells, give a clear pixel at (0, 0) and at
    (640, 0), where the composite has opaque pixels. *)
Lemma slices_do_not_round_trip :
  let img := sample_image 3840 2160 in
  exists slices,
    sliceMemeGrid (sample_env img) (lit "AAAA") = Resolved slices /\
    reassemble slices 640 540 0 0 = Some Clear /\
    reassemble slices 640 540 640 0 = Some Clear /\
    exact_copy (pixel img 0 0) <> Clear /\
    exact_copy (pixel img 640 0) <> Clear.
Proof.
  intros img. exists (slice_loop img). split; [reflexivity |].
  unfold reassemble.
  change (Z.to_nat (0 / 540) * COLS + Z.to_nat (0 / 640))%nat with (0 * COLS + 0)%nat.
  change (Z.to_nat (0 / 540) * COLS + Z.to_nat (640 / 640))%nat with (0 * COLS + 1)%nat.
  rewrite !slice_loop_lookup by (unfold ROWS, COLS; lia).
  change (0 mod 640)%Z with 0%Z. change (0 mod 540)%Z with 0%Z.
  change (640 mod 640)%Z with 0%Z.
  rewrite !cell_slice_corner_clear by reflexivity.
  repeat split; discriminate.
Qed.

Lemma reassemble_cell (img : RasterImage) (cw ch x y : Z) :
  (0 < cw)%Z -> (0 < ch)%Z ->
  (0 <= x < Z.of_nat COLS * cw)%Z -> (0 <= y < Z.of_nat ROWS * ch)%Z ->
  exists row col,
    (row < ROWS)%nat /\ (col < COLS)%nat /\
    x = (Z.of_nat col * cw + x mod cw)%Z /\ y = (Z.of_nat row * ch + y mod ch)%Z /\
    reassemble (slice_loop img) cw ch x y =
      Some (bm_px (bitmap (blob (cell_slice img row col))) (x mod cw) (y mod ch)).
Proof.
  intros Pcw Pch Hx Hy.
  assert (Cx : (0 <= x / cw < Z.of_nat COLS)%Z).
  { split; [apply Z.div_pos; lia | apply Z.div_lt_upper_bound; lia]. }
  assert (Cy : (0 <= y / ch < Z.of_nat ROWS)%Z).
  { split; [apply Z.div_pos; lia | apply Z.div_lt_upper_bound; lia]. }
  exists (Z.to_nat (y / ch)), (Z.to_nat (x / cw)).
  split; [lia | split; [lia |]]. rewrite !Z2Nat.id by lia.
  split; [| split].
  - rewrite Z.mul_comm. apply Z.div_mod. lia.
  - rewrite Z.mul_comm. apply Z.div_mod. lia.
  - unfold reassemble. rewrite slice_loop_lookup by lia. reflexivity.
Qed.

(** A pixel square of the cell that lies behind the chord of every corner
    is inside the mask. *)
Lemma within_chords_covered (w h r : Q) (i j : Z) :
  0 <= inject_Z i -> inject_Z i + 1 <= w ->
  0 <= inject_Z j -> inject_Z j + 1 <= h ->
  within_chords w h r i j = true ->
  rounded_cover w h r i j = Covered.
Proof.
  intros Hi0 Hi1 Hj0 Hj1 Hin. unfold rounded_cover.
  rewrite rect_cover_covered by assumption. rewrite Hin.
  unfold within_chords in Hin. rewrite !andb_true_iff, !Qle_bool_iff in Hin.
  destruct Hin as [[[C1 C2] C3] C4].
  assert (Out : forall x y, x + y > r -> corner_out r x y = false).
  { intros x y H. unfold corner_out.
    rewrite (Qle_bool_false (x + y) r H). now rewrite andb_false_r. }
  unfold in_cut_corner. rewrite !Out by lra. reflexivity.
Qed.

(** In a cell of cw by ch pixels, a pixel whose distances from the nearest
    corner of the cell, along the two sides, add up to the radius or more
    lies behind the chord of every corner. *)
Lemma behind_chords (w h r : Q) (cw ch i j : Z) :
  w == inject_Z cw -> h == inject_Z ch ->
  r <= inject_Z (Z.min i (cw - 1 - i) + Z.min j (ch - 1 - j)) ->
  within_chords w h r i j = true.
Proof.
  intros Ew Eh Hr. unfold within_chords.
  rewrite !andb_true_iff, !Qle_bool_iff.
  assert (G : forall a b : Z,
            (Z.min i (cw - 1 - i) + Z.min j (ch - 1 - j) <= a + b)%Z ->
            r <= inject_Z a + inject_Z b).
  { intros a b H. rewrite <- inject_Z_plus.
    apply Qle_trans with (1 := Hr). now rewrite <- Zle_Qle. }
  assert (Ei : inject_Z (cw - 1 - i) == w - (inject_Z i + 1)).
  { rewrite Ew. unfold Z.sub. rewrite !inject_Z_plus, !inject_Z_opp.
    change (inject_Z 1) with 1. ring. }
  assert (Ej : inject_Z (ch - 1 - j) == h - (inject_Z j + 1)).
  { rewrite Eh. unfold Z.sub. rewrite !inject_Z_plus, !inject_Z_opp.
    change (inject_Z 1) with 1. ring. }
  rewrite <- Ei, <- Ej. repeat split; apply G; lia.
Qed.

(** C5, amended. When the composite is a whole number of cells wide and
    high (W = 6 cw, H = 4 ch), a pixel of a slice that lies behind the chord
    of every rounded corner (its distances from the nearest corner of the
    cell, along the two sides, add up to the corner radius or more) is the
    source pixel of the same place in the cell, unscaled, and a pixel whose
    square lies in a rounded-off corner is clear; between the chord and the
    curve of a corner the pixels are left to the antialiasing of the host.
    So the slices laid back out in row-major order on a 6 cw by 4 ch canvas
    reproduce the composite at the pixels behind the chords, and are clear,
    whatever the composite holds there, in the rounded-off corners. *)
Theorem sliceMemeGrid_round_trip_inside_mask (env : Env) (imageBase64 : jsstring)
    (img : RasterImage) (cw ch : Z) :
  decode env (data_url imageBase64) = Some img ->
  has_context env = true ->
  (0 < cw)%Z -> (0 < ch)%Z ->
  width img = (Z.of_nat COLS * cw)%Z ->
  height img = (Z.of_nat ROWS * ch)%Z ->
  let inside i j :=
    borderRadius img <= inject_Z (Z.min i (cw - 1 - i) + Z.min j (ch - 1 - j)) in
  let cut_off i j :=
    in_cut_corner (cellWidth img) (cellHeight img) (borderRadius img) i j = true in
  exists slices,
    sliceMemeGrid env imageBase64 = Resolved slices /\
    (forall row col i j, (row < ROWS)%nat -> (col < COLS)%nat ->
       (0 <= i < cw)%Z -> (0 <= j < ch)%Z ->
       exists s, slices !! (row * COLS + col)%nat = Some s /\
         (inside i j ->
          bm_px (bitmap (blob s)) i j =
            exact_copy (pixel img (Z.of_nat col * cw + i) (Z.of_nat row * ch + j))) /\
         (cut_off i j -> bm_px (bitmap (blob s)) i j = Clear)) /\
    (forall x y, (0 <= x < width img)%Z -> (0 <= y < height img)%Z ->
       (inside (x mod cw) (y mod ch) ->
        reassemble slices cw ch x y = Some (exact_copy (pixel img x y))) /\
       (cut_off (x mod cw) (y mod ch) ->
        reassemble slices cw ch x y = Some Clear)).
Proof.
  intros Hdec Hctx Pcw Pch Ew Eh inside cut_off. exists (slice_loop img).
  assert (Qcw : cellWidth img == inject_Z cw).
  { unfold cellWidth. rewrite Ew, inject_Z_mult. field. discriminate. }
  assert (Qch : cellHeight img == inject_Z ch).
  { unfold cellHeight. rewrite Eh, inject_Z_mult. field. discriminate. }
  assert (Hcov : forall i j, (0 <= i < cw)%Z -> (0 <= j < ch)%Z -> inside i j ->
            rounded_cover (cellWidth img) (cellHeight img) (borderRadius img) i j = Covered).
  { intros i j Hi Hj Hin. apply within_chords_covered.
    - apply inject_Z_nonneg; lia.
    - rewrite Qcw. apply inject_Z_succ_le; lia.
    - apply inject_Z_nonneg; lia.
    - rewrite Qch. apply inject_Z_succ_le; lia.
    - now apply (behind_chords _ _ _ cw ch). }
  split; [| split].
  - now apply sliceMemeGrid_resolves.
  - intros row col i j Hrow Hcol Hi Hj. exists (cell_slice img row col).
    split; [now apply slice_loop_lookup | split].
    + intros Hin. apply cell_slice_inside_exact; try assumption. now apply Hcov.
    + intros Hcut. now apply cell_slice_corner_clear.
  - intros x y Hx Hy. rewrite Ew in Hx. rewrite Eh in Hy.
    destruct (reassemble_cell img cw ch x y Pcw Pch Hx Hy)
      as (row & col & Hrow & Hcol & Dx & Dy & ->).
    pose proof (Z.mod_pos_bound x cw Pcw) as Mx.
    pose proof (Z.mod_pos_bound y ch Pch) as My.
    split.
    + intros Hin. rewrite (cell_slice_inside_exact img row col cw ch)
        by (try assumption; now apply Hcov).
      now rewrite <- Dx, <- Dy.
    + intros Hcut. now rewrite cell_slice_corner_clear.
Qed.

(** On a 3840 by 2160 composite, whose corner radius is 27: pixel
    (100, 100) comes back as it was, and so does pixel (700, 600), which
    slice 8 holds at (60, 60); pixel (0, 0) comes back clear. *)
Lemma sliceMemeGrid_round_trip_inside_mask_witness :
  let img := sample_image 3840 2160 in
  exists slices,
    sliceMemeGrid (sample_env img) (lit "AAAA") = Resolved slices /\
    reassemble slices 640 540 100 100 = Some (exact_copy (pixel img 100 100)) /\
    reassemble slices 640 540 700 600 = Some (exact_copy (pixel img 700 600)) /\
    reassemble slices 640 540 0 0 = Some Clear.
Proof.
  intros img.
  destruct (sliceMemeGrid_round_trip_inside_mask (sample_env img) (lit "AAAA") img 640 540
              eq_refl eq_refl eq_refl eq_refl eq_refl eq_refl)
    as (slices & Hres & _ & Hrt).
  exists slices. split; [exact Hres | split; [| split]].
  - apply (Hrt 100 100)%Z; [simpl; lia | simpl; lia | vm_compute; discriminate].
  - apply (Hrt 700 600)%Z; [simpl; lia | simpl; lia | vm_compute; discriminate].
  - apply (Hrt 0 0)%Z; [simpl; lia | simpl; lia | reflexivity].
Defined.

(** ** C10: metadata when the response does not parse *)

Local Close Scope Q_scope.

(** C10 as stated fails: a response without text makes
    [generateMemeMetadata] resolve with the empty object that "{}" parses to,
    which has neither title nor description, not with the fallback value. *)
Lemma missing_text_gives_empty_object :
  let api := constant_api (Resolved {| candidates := None; text := None |}) in
  result (generateMemeMetadata api sample_params) = Resolved (JObject []) /\
  result (generateMemeMetadata api sample_params) <>
    Resolved (fallback_metadata sample_params).
Proof. split; [reflexivity | discriminate]. Qed.

(** C10, amended. When the API call itself succeeds, [generateMemeMetadata]
    resolves and never rejects: with the fallback value, title "创意表情包"
    and the first 100 code units of the prompt as description, when the
    response text is there and is not valid JSON; with the empty object when
    the response text is missing or empty. *)
Theorem generateMemeMetadata_never_rejects_on_text (api : Api)
    (params : MemePromptParams) (response : Response) :
  generateContent api (MetadataRequest params) = Resolved response ->
  (exists v, result (generateMemeMetadata api params) = Resolved v) /\
  (forall t, text response = Some t -> t <> [] -> JSON_parse t = None ->
     result (generateMemeMetadata api params) =
       Resolved (JObject
         [ (lit "title", JString [21019; 24847; 34920; 24773; 21253]%N);
           (lit "description", JString (firstn 100 (userPrompt params))) ])) /\
  (text response = None \/ text response = Some [] ->
     result (generateMemeMetadata api params) = Resolved (JObject [])).
Proof.
  intros Hcall. unfold generateMemeMetadata. cbn [result]. rewrite Hcall.
  split; [| split].
  - eexists. reflexivity.
  - intros t Ht Hne Hparse. unfold metadata_of_response. rewrite Ht.
    destruct t as [| c t]; [contradiction |]. cbn [truthy]. now rewrite Hparse.
  - intros [Ht | Ht]; unfold metadata_of_response; rewrite Ht; reflexivity.
Qed.

Lemma generateMemeMetadata_never_rejects_on_text_witness :
  let api := constant_api (Resolved {| candidates := None; text := Some (lit "Sorry, no JSON") |}) in
  result (generateMemeMetadata api sample_params) =
    Resolved (JObject
      [ (lit "title", JString [21019; 24847; 34920; 24773; 21253]%N);
        (lit "description", JString (lit "a cat at work")) ]).
Proof.
  intros api.
  destruct (generateMemeMetadata_never_rejects_on_text api sample_params
              {| candidates := None; text := Some (lit "Sorry, no JSON") |} eq_refl)
    as (_ & Hfallback & _).
  apply (Hfallback (lit "Sorry, no JSON") eq_refl); [discriminate | reflexivity].
Defined.

(** ** C8: the layout of the archive *)

Section FoldInsert.

Context {A : Type} (key : A -> jsstring) (val : A -> zip_entry).

Lemma insert_all_other (l : list A) (m : gmap jsstring zip_entry) (k : jsstring) :
  ~ In k (List.map key l) -> insert_all key val l m !! k = m !! k.
Proof.
  revert m. induction l as [| a l IH]; intros m Hk; [reflexivity |].
  cbn in Hk |- *. fold (insert_all key val l (<[key a := val a]> m)).
  rewrite IH by tauto. apply lookup_insert_ne. tauto.
Qed.

Lemma insert_all_member (l : list A) (m : gmap jsstring zip_entry) (x : A) :
  List.NoDup (List.map key l) -> In x l -> insert_all key val l m !! key x = Some (val x).
Proof.
  revert m. induction l as [| a l IH]; intros m Hnd Hx; [destruct Hx |].
  cbn in Hnd |- *. fold (insert_all key val l (<[key a := val a]> m)).
  inversion Hnd as [| ? ? Hnotin Hnd']; subst.
  destruct Hx as [-> | Hx].
  - rewrite insert_all_other by assumption. apply lookup_insert_eq.
  - now apply IH.
Qed.

Lemma insert_all_origin (l : list A) (m : gmap jsstring zip_entry) (k : jsstring) (e : zip_entry) :
  insert_all key val l m !! k = Some e ->
  (exists x, In x l /\ k = key x /\ e = val x) \/ m !! k = Some e.
Proof.
  revert m. induction l as [| a l IH]; intros m H; [now right |].
  cbn in H. fold (insert_all key val l (<[key a := val a]> m)) in H.
  destruct (IH _ H) as [(x & Hx & Hk & He) | Hm].
  - left. exists x. split; [now right | now split].
  - destruct (decide (key a = k)) as [E | NE].
    + rewrite E, lookup_insert_eq in Hm. left. exists a.
      split; [now left | split; [now symmetry | congruence]].
    + rewrite lookup_insert_ne in Hm by assumption. now right.
Qed.

End FoldInsert.

Lemma before_last_slash_plain (name : jsstring) :
  ~ In slash name -> before_last_slash name = None.
Proof.
  induction name as [| c name IH]; intros H; [reflexivity |].
  cbn [before_last_slash]. rewrite IH by (intros Hin; apply H; now right).
  destruct (N.eqb_spec c slash) as [-> | NE]; [| reflexivity].
  exfalso. apply H. now left.
Qed.

Lemma before_last_slash_split (pre name : jsstring) :
  ~ In slash name -> before_last_slash (pre ++ slash :: name) = Some pre.
Proof.
  intros H. induction pre as [| c pre IH]; cbn [app before_last_slash].
  - now rewrite (before_last_slash_plain name H).
  - now rewrite IH.
Qed.

Lemma ends_in_slash_plain (pre name : jsstring) :
  plain_name name -> ends_in_slash (pre ++ name) = false.
Proof.
  intros [Hne H]. unfold ends_in_slash. rewrite rev_app_distr.
  destruct (rev name) as [| c r] eqn:E.
  - exfalso. apply Hne. apply (f_equal (@rev N)) in E.
    now rewrite rev_involutive in E.
  - cbn [app]. destruct (N.eqb_spec c slash) as [-> | NE]; [| reflexivity].
    exfalso. apply H. apply in_rev. rewrite E. now left.
Qed.

(** A plain name has no folder above it. *)
Lemma parentFolder_plain (name : jsstring) :
  plain_name name -> parentFolder name = [].
Proof.
  intros Hp. unfold parentFolder.
  pose proof (ends_in_slash_plain [] name Hp) as E. cbn [app] in E. rewrite E.
  now rewrite (before_last_slash_plain name (proj2 Hp)).
Qed.

(** The folder above a plain name in a folder is that folder. *)
Lemma parentFolder_in_folder (pre name : jsstring) :
  plain_name name -> parentFolder (pre ++ slash :: name) = pre.
Proof.
  intros Hp. unfold parentFolder.
  change (pre ++ slash :: name) with (pre ++ [slash] ++ name).
  rewrite app_assoc, (ends_in_slash_plain (pre ++ [slash]) name Hp).
  rewrite <- app_assoc. cbn [app].
  now rewrite (before_last_slash_split pre name (proj2 Hp)).
Qed.

Lemma file_add_root (name : jsstring) (e : zip_entry) (files : gmap jsstring zip_entry) :
  plain_name name -> file_add [] name e files = <[name := e]> files.
Proof.
  intros Hp. unfold file_add. cbn [app].
  now rewrite (parentFolder_plain name Hp).
Qed.

Lemma before_last_slash_shorter (path b : jsstring) :
  before_last_slash path = Some b -> (List.length b < List.length path)%nat.
Proof.
  revert b. induction path as [| c path IH]; intros b; cbn [before_last_slash].
  - discriminate.
  - destruct (before_last_slash path) as [b' |].
    + intros [= <-]. specialize (IH b' eq_refl). cbn [List.length]. lia.
    + destruct (N.eqb c slash); [| discriminate]. intros [= <-]. cbn [List.length]. lia.
Qed.

(** The folder above a folder has a shorter name than the folder. *)
Lemma parentFolder_of_folder_shorter (name : jsstring) :
  parentFolder (forceTrailingSlash name) = [] \/
  (List.length (parentFolder (forceTrailingSlash name)) < List.length name)%nat.
Proof.
  unfold parentFolder, forceTrailingSlash.
  destruct (ends_in_slash name) eqn:E.
  - rewrite E.
    destruct (before_last_slash (removelast name)) as [b |] eqn:B; [| now left].
    right. apply before_last_slash_shorter in B.
    assert (L : (List.length (removelast name) <= List.length name)%nat).
    { destruct name as [| c name] using rev_ind; [reflexivity |].
      rewrite removelast_last, length_app. lia. }
    lia.
  - assert (E' : ends_in_slash (name ++ [slash]) = true).
    { unfold ends_in_slash. rewrite rev_app_distr. reflexivity. }
    rewrite E', removelast_last.
    destruct (before_last_slash name) as [b |] eqn:B; [| now left].
    right. now apply before_last_slash_shorter in B.
Qed.

(** The length of the name is fuel enough: more of it changes nothing. *)
Lemma folderAdd_fuel (n fuel fuel' : nat) (name : jsstring) (files : gmap jsstring zip_entry) :
  (List.length name <= n)%nat -> (n <= fuel)%nat -> (n <= fuel')%nat ->
  folderAdd fuel name files = folderAdd fuel' name files.
Proof.
  revert fuel fuel' name files.
  induction n as [| n IH]; intros fuel fuel' name files Hn Hf Hf'.
  - destruct name; [| cbn in Hn; lia].
    destruct fuel, fuel'; reflexivity.
  - destruct (parentFolder_of_folder_shorter name) as [P | P].
    + destruct fuel, fuel'; cbn [folderAdd]; rewrite P; reflexivity.
    + destruct fuel as [| fuel]; [lia |]. destruct fuel' as [| fuel']; [lia |].
      cbn [folderAdd].
      destruct (files !! forceTrailingSlash name); [reflexivity |].
      destruct (parentFolder (forceTrailingSlash name)) as [| c parent] eqn:E; [reflexivity |].
      rewrite (IH fuel fuel' (c :: parent) files) by lia. reflexivity.
Qed.

(** A folder that is there is not added again. *)
Lemma folderAdd_existing (fuel : nat) (name : jsstring) (files : gmap jsstring zip_entry)
    (x : zip_entry) :
  files !! forceTrailingSlash name = Some x -> folderAdd fuel name files = files.
Proof. intros H. destruct fuel; cbn [folderAdd]; now rewrite H. Qed.

Lemma file_add_stickers (name : jsstring) (e : zip_entry) (files : gmap jsstring zip_entry) :
  plain_name name ->
  files !! lit "stickers/" = Some Folder ->
  file_add (lit "stickers/") name e files = <[lit "stickers/" ++ name := e]> files.
Proof.
  intros Hp Hdir. unfold file_add.
  change (lit "stickers/" ++ name) with (lit "stickers" ++ slash :: name).
  rewrite (parentFolder_in_folder (lit "stickers") name Hp).
  refine (f_equal (insert (lit "stickers/" ++ name) e) _).
  apply (folderAdd_existing _ (lit "stickers") files Folder). exact Hdir.
Qed.

Lemma stickers_fold (slices : list SlicedImage) (files : gmap jsstring zip_entry) :
  (forall s, In s slices -> plain_name (fileName s)) ->
  files !! lit "stickers/" = Some Folder ->
  fold_left (fun z slice =>
       file_add (lit "stickers/") (fileName slice) (BlobFile (blob slice)) z) slices files =
  insert_all (fun s => lit "stickers/" ++ fileName s) (fun s => BlobFile (blob s)) slices files.
Proof.
  revert files. induction slices as [| s slices IH]; intros files Hplain Hdir; [reflexivity |].
  cbn [fold_left insert_all].
  assert (Hs : plain_name (fileName s)) by (apply Hplain; now left).
  rewrite file_add_stickers by assumption.
  apply IH.
  - intros s' Hs'. apply Hplain. now right.
  - rewrite lookup_insert_ne; [exact Hdir |].
    destruct Hs as [Hne _]. intros E.
    apply (f_equal (@List.length N)) in E.
    rewrite length_app in E. destruct (fileName s); [contradiction | simpl in E; lia].
Qed.

Lemma assets_fold (assets : list MarketingAsset) (files : gmap jsstring zip_entry) :
  (forall a, In a assets -> plain_name (asset_fileName a)) ->
  fold_left (fun z asset =>
       file_add [] (asset_fileName asset) (BlobFile (asset_blob asset)) z) assets files =
  insert_all asset_fileName (fun a => BlobFile (asset_blob a)) assets files.
Proof.
  revert files. induction assets as [| a assets IH]; intros files Hplain; [reflexivity |].
  cbn [fold_left insert_all].
  rewrite file_add_root by (apply Hplain; now left).
  apply IH. intros a' Ha'. apply Hplain. now right.
Qed.

Lemma plain_not_under_stickers (name rest : jsstring) :
  plain_name name -> name <> lit "stickers/" ++ rest.
Proof.
  intros [_ H] E. apply H. rewrite E. cbn. unfold slash. tauto.
Qed.

(** C8. For slices and assets with plain, distinct file names, no asset
    being called info.txt, [downloadBatch] saves an archive named
    meme_pack.zip in which every slice is the entry "stickers/" and its file
    name, every asset (the banner and the logo) is the entry of its file name
    at the root, and, when metadata is given, info.txt holds "Title: " and
    the title, an empty line, "Description:", the description on the next
    line, an empty line and "Generated by AI Creative Meme Studio"; without
    metadata there is no info.txt; and the archive holds nothing else but the
    stickers folder itself. *)
Theorem downloadBatch_layout (slices : list SlicedImage)
    (extraAssets : list MarketingAsset) (metaData : option MetaData) :
  (forall s, In s slices -> plain_name (fileName s)) ->
  List.NoDup (List.map fileName slices) ->
  (forall a, In a extraAssets ->
     plain_name (asset_fileName a) /\ asset_fileName a <> lit "info.txt") ->
  List.NoDup (List.map asset_fileName extraAssets) ->
  let zip := archive (downloadBatch slices extraAssets metaData) in
  saved_as (downloadBatch slices extraAssets metaData) = lit "meme_pack.zip" /\
  zip !! lit "stickers/" = Some Folder /\
  (forall s, In s slices ->
     zip !! (lit "stickers/" ++ fileName s) = Some (BlobFile (blob s))) /\
  (forall a, In a extraAssets ->
     zip !! asset_fileName a = Some (BlobFile (asset_blob a))) /\
  (forall m, metaData = Some m ->
     zip !! lit "info.txt" =
       Some (TextFile (lit "Title: " ++ title m ++ [10; 10]%N ++
                       lit "Description:" ++ [10]%N ++ description m ++ [10; 10]%N ++
                       lit "Generated by AI Creative Meme Studio"))) /\
  (metaData = None -> zip !! lit "info.txt" = None) /\
  (forall k e, zip !! k = Some e ->
     k = lit "stickers/" \/
     (exists s, In s slices /\ k = lit "stickers/" ++ fileName s) \/
     (exists a, In a extraAssets /\ k = asset_fileName a) \/
     (k = lit "info.txt" /\ metaData <> None)).
Proof.
  intros Hslices Hnd Hassets Hnda zip.
  assert (Hplain : forall a, In a extraAssets -> plain_name (asset_fileName a))
    by (intros a Ha; now apply Hassets).
  assert (Hinfo : plain_name (lit "info.txt")).
  { split; [discriminate |]. cbn. unfold slash. intuition discriminate. }
  set (base := <[lit "stickers/" := Folder]> (∅ : gmap jsstring zip_entry)).
  set (with_slices :=
         insert_all (fun s => lit "stickers/" ++ fileName s) (fun s => BlobFile (blob s))
           slices base).
  set (with_assets :=
         insert_all asset_fileName (fun a => BlobFile (asset_blob a)) extraAssets with_slices).
  assert (Hzip : zip = match metaData with
                       | Some m => <[lit "info.txt" := TextFile (infoContent m)]> with_assets
                       | None => with_assets
                       end).
  { unfold zip, downloadBatch.
    change (folder [] (lit "stickers") ∅) with (lit "stickers/", base).
    cbv beta iota. rewrite stickers_fold; [| assumption | apply lookup_insert_eq].
    rewrite assets_fold by assumption. fold with_slices with_assets.
    destruct metaData as [m |]; cbn [archive]; [| reflexivity].
    now rewrite file_add_root. }
  assert (Hkeys_slices : forall k, ~ In slash k ->
            ~ In k (List.map (fun s => lit "stickers/" ++ fileName s) slices)).
  { intros k Hk Hin. apply in_map_iff in Hin. destruct Hin as (s & <- & _).
    apply Hk. cbn. unfold slash. tauto. }
  assert (Hdir_slices : ~ In (lit "stickers/")
                          (List.map (fun s => lit "stickers/" ++ fileName s) slices)).
  { intros Hin. apply in_map_iff in Hin. destruct Hin as (s & E & Hs).
    destruct (Hslices s Hs) as [Hne _].
    apply (f_equal (@List.length N)) in E. rewrite length_app in E.
    destruct (fileName s); [contradiction | simpl in E; lia]. }
  assert (Hkeys_assets : forall k, In slash k -> ~ In k (List.map asset_fileName extraAssets)).
  { intros k Hk Hin. apply in_map_iff in Hin. destruct Hin as (a & <- & Ha).
    now apply (proj2 (Hplain a Ha)). }
  assert (Hslash_dir : In slash (lit "stickers/")) by (cbn; unfold slash; tauto).
  assert (Hno_info : ~ In (lit "info.txt") (List.map asset_fileName extraAssets)).
  { intros Hin. apply in_map_iff in Hin. destruct Hin as (a & E & Ha).
    now apply (proj2 (Hassets a Ha)). }
  assert (Lslices : forall s, In s slices ->
            with_assets !! (lit "stickers/" ++ fileName s) = Some (BlobFile (blob s))).
  { intros s Hs. unfold with_assets. rewrite insert_all_other.
    - unfold with_slices.
      apply (insert_all_member (fun s => lit "stickers/" ++ fileName s)
               (fun s => BlobFile (blob s))); [| assumption].
      rewrite <- (map_map fileName (fun n => lit "stickers/" ++ n)).
      apply Finite.Injective_map_NoDup; [| assumption].
      intros x y E. now apply app_inv_head in E.
    - apply Hkeys_assets. cbn. unfold slash. tauto. }
  assert (Lassets : forall a, In a extraAssets ->
            with_assets !! asset_fileName a = Some (BlobFile (asset_blob a))).
  { intros a Ha. unfold with_assets.
    now apply (insert_all_member asset_fileName (fun a => BlobFile (asset_blob a))). }
  assert (Ldir : with_assets !! lit "stickers/" = Some Folder).
  { unfold with_assets. rewrite insert_all_other by now apply Hkeys_assets.
    unfold with_slices. rewrite insert_all_other by assumption.
    apply lookup_insert_eq. }
  assert (Linfo : with_assets !! lit "info.txt" = None).
  { unfold with_assets. rewrite insert_all_other by assumption.
    unfold with_slices. rewrite insert_all_other by (apply Hkeys_slices, Hinfo).
    unfold base. rewrite lookup_insert_ne by discriminate. apply lookup_empty. }
  assert (Lorigin : forall k e, with_assets !! k = Some e ->
            k = lit "stickers/" \/
            (exists s, In s slices /\ k = lit "stickers/" ++ fileName s) \/
            (exists a, In a extraAssets /\ k = asset_fileName a)).
  { intros k e H. apply insert_all_origin in H.
    destruct H as [(a & Ha & -> & _) | H]; [right; right; now exists a |].
    apply insert_all_origin in H.
    destruct H as [(s & Hs & -> & _) | H]; [right; left; now exists s |].
    unfold base in H. destruct (decide (lit "stickers/" = k)) as [<- | NE]; [now left |].
    rewrite lookup_insert_ne, lookup_empty in H by assumption. discriminate. }
  split; [reflexivity |]. rewrite Hzip.
  destruct metaData as [m |].
  - split; [| split; [| split; [| split; [| split]]]].
    + rewrite lookup_insert_ne by discriminate. exact Ldir.
    + intros s Hs. rewrite lookup_insert_ne; [now apply Lslices |].
      apply plain_not_under_stickers, Hinfo.
    + intros a Ha. rewrite lookup_insert_ne; [now apply Lassets |].
      intros E. now apply (proj2 (Hassets a Ha)).
    + intros m' [= <-]. rewrite lookup_insert_eq. reflexivity.
    + discriminate.
    + intros k e H. destruct (decide (lit "info.txt" = k)) as [<- | NE].
      * right; right; right. split; [reflexivity | discriminate].
      * rewrite lookup_insert_ne in H by assumption.
        destruct (Lorigin k e H) as [? | [? | ?]]; tauto.
  - split; [| split; [| split; [| split; [| split]]]].
    + exact Ldir.
    + exact Lslices.
    + exact Lassets.
    + discriminate.
    + intros _. exact Linfo.
    + intros k e H. destruct (Lorigin k e H) as [? | [? | ?]]; tauto.
Qed.

Lemma sample_names_plain :
  (forall s, In s sample_slices -> plain_name (fileName s)) /\
  (forall a, In a sample_assets ->
     plain_name (asset_fileName a) /\ asset_fileName a <> lit "info.txt").
Proof.
  split.
  - intros s [<- | [<- | []]]; (split; [discriminate |]);
      cbn; unfold slash; intuition discriminate.
  - intros a [<- | [<- | []]]; (split; [split; [discriminate |] | discriminate]);
      cbn; unfold slash; intuition discriminate.
Defined.

Lemma sample_names_distinct :
  List.NoDup (List.map fileName sample_slices) /\
  List.NoDup (List.map asset_fileName sample_assets).
Proof.
  split; repeat constructor; cbn; intuition discriminate.
Defined.

Lemma downloadBatch_layout_witness :
  let d := downloadBatch sample_slices sample_assets (Some sample_meta) in
  saved_as d = lit "meme_pack.zip" /\
  (exists e, archive d !! lit "stickers/meme_01.png" = Some (BlobFile e)) /\
  (exists e, archive d !! lit "stickers/meme_02.png" = Some (BlobFile e)) /\
  (exists e, archive d !! lit "banner.png" = Some (BlobFile e)) /\
  (exists e, archive d !! lit "logo.png" = Some (BlobFile e)) /\
  archive d !! lit "info.txt" =
    Some (TextFile (lit "Title: Cats" ++ [10; 10]%N ++ lit "Description:" ++ [10]%N ++
                    lit "Office cats" ++ [10; 10]%N ++
                    lit "Generated by AI Creative Meme Studio")).
Proof.
  intros d.
  destruct (downloadBatch_layout sample_slices sample_assets (Some sample_meta)
              (proj1 sample_names_plain) (proj1 sample_names_distinct)
              (proj2 sample_names_plain) (proj2 sample_names_distinct))
    as (Hname & _ & Hslices & Hassets & Hinfo & _).
  split; [exact Hname |].
  split; [eexists; apply (Hslices (cell_slice (sample_image 12 8) 0 0)); now left |].
  split; [eexists; apply (Hslices (cell_slice (sample_image 12 8) 0 1)); right; now left |].
  split; [eexists; apply (Hassets (sample_asset (lit "banner.png"))); now left |].
  split; [eexists; apply (Hassets (sample_asset (lit "logo.png"))); right; now left |].
  exact (Hinfo sample_meta eq_refl).
Defined.

(** ** C7: one failed request fails the batch *)

Lemma Promise_all4_rejects {A B C D} (a : Call A) (b : Call B) (c : Call C) (d : Call D) :
  (exists e, result a = Rejected e) \/ (exists e, result b = Rejected e) \/
  (exists e, result c = Rejected e) \/ (exists e, result d = Rejected e) ->
  exists e, Promise_all4 a b c d = Rejected e.
Proof.
  intros H. unfold Promise_all4.
  destruct (result a), (result b), (result c), (result d);
    try (destruct (earliest _) as [[? ?] |]; eexists; reflexivity).
  destruct H as [[e H] | [[e H] | [[e H] | [e H]]]]; discriminate H.
Qed.

(** The reason [Promise.all] rejects with is the reason of one of the
    calls. *)
Lemma Promise_all4_reason {A B C D} (a : Call A) (b : Call B) (c : Call C) (d : Call D)
    (e : jsstring) :
  Promise_all4 a b c d = Rejected e ->
  result a = Rejected e \/ result b = Rejected e \/
  result c = Rejected e \/ result d = Rejected e.
Proof.
  unfold Promise_all4, rejection.
  destruct (result a), (result b), (result c), (result d); cbn [earliest];
    try discriminate;
    repeat match goal with
           | |- context [if ?t then _ else _] => destruct t
           end;
    intros [= <-]; tauto.
Qed.

Lemma on_error_state (message : jsstring) (s : State) :
  status (on_error message s) = ERROR /\
  (exists msg, errorMsg (on_error message s) = Some msg /\ truthy msg = true) /\
  originalImage (on_error message s) = originalImage s /\
  slicedImages (on_error message s) = slicedImages s /\
  banner (on_error message s) = banner s /\
  logo (on_error message s) = logo s /\
  metaData (on_error message s) = metaData s.
Proof.
  split; [reflexivity | split; [| repeat split]].
  unfold on_error. cbn [errorMsg setErrorMsg].
  destruct message as [| c message]; eexists; split; reflexivity.
Qed.

(** C7. Once [handleGenerate] gets to the generation step, it sends the four
    requests (grid, banner, logo, metadata) before waiting for any of them;
    and if any of the four calls rejects, the handler ends in the ERROR state
    with an error message, and the composite, the slices, the banner, the
    logo and the metadata of the state are what they were before: nothing of
    the batch is stored, and if no result was shown before none is shown
    after. *)
Theorem handleGenerate_all_or_nothing (w : World) (s : State)
    (params : MemePromptParams) (ok : bool) :
  truthy (trim (prompt s)) = true ->
  ensureApiKey (aistudio w) = Resolved ok ->
  prepare_params s = Resolved params ->
  ((exists e, result (generateMemeImage (api w) params) = Rejected e) \/
   (exists e, result (generateBanner (api w) params) = Rejected e) \/
   (exists e, result (generateLogo (api w) params) = Rejected e) \/
   (exists e, result (generateMemeMetadata (api w) params) = Rejected e)) ->
  let s' := fst (handleGenerate w s) in
  snd (handleGenerate w s) =
    [GridRequest params; BannerRequest params; LogoRequest params; MetadataRequest params] /\
  status s' = ERROR /\
  (exists msg, errorMsg s' = Some msg /\ truthy msg = true) /\
  originalImage s' = originalImage s /\
  slicedImages s' = slicedImages s /\
  banner s' = banner s /\
  logo s' = logo s /\
  metaData s' = metaData s /\
  (results_shown s = false -> results_shown s' = false).
Proof.
  intros Hprompt Hkey Hparams Hrej s'. subst s'.
  unfold handleGenerate. rewrite Hprompt, Hkey. cbn [negb].
  change (prepare_params _) with (prepare_params s). rewrite Hparams.
  unfold generate_all.
  destruct (Promise_all4_rejects _ _ _ _ Hrej) as [e ->].
  cbn [fst snd].
  match goal with
  | |- context [on_error e ?t] =>
      destruct (on_error_state e t) as (Hst & Hmsg & Ho & Hsl & Hb & Hl & Hm)
  end.
  split; [reflexivity |].
  split; [exact Hst |]. split; [exact Hmsg |].
  split; [exact Ho |]. split; [exact Hsl |]. split; [exact Hb |].
  split; [exact Hl |]. split; [exact Hm |].
  unfold results_shown. rewrite Ho, Hsl. cbn [originalImage slicedImages
    setStatusMessage setStatus setErrorMsg]. trivial.
Qed.

Lemma handleGenerate_all_or_nothing_witness :
  let w := sample_world metadata_down_api in
  let s := initial_state (lit "a cat at work") in
  let s' := fst (handleGenerate w s) in
  List.length (snd (handleGenerate w s)) = 4%nat /\
  status s' = ERROR /\
  errorMsg s' = Some (lit "503 Service Unavailable") /\
  originalImage s' = None /\ slicedImages s' = [] /\
  banner s' = None /\ logo s' = None /\ metaData s' = None /\
  results_shown s' = false.
Proof.
  intros w s s'.
  destruct (handleGenerate_all_or_nothing w s sample_params true eq_refl eq_refl eq_refl)
    as (Hreq & Hst & _ & Ho & Hsl & Hb & Hl & Hm & Hshown).
  { right; right; right. eexists. reflexivity. }
  split; [rewrite Hreq; reflexivity |].
  split; [exact Hst |]. split; [reflexivity |].
  split; [exact Ho |]. split; [exact Hsl |]. split; [exact Hb |].
  split; [exact Hl |]. split; [exact Hm |].
  apply Hshown. reflexivity.
Defined.

(** ** Checks of the embedding on concrete inputs *)

Example padStart_single_digit : padStart (toString 7) 2 48%N = lit "07".
Proof. reflexivity. Qed.

Example padStart_two_digits : padStart (toString 24) 2 48%N = lit "24".
Proof. reflexivity. Qed.

Example canvas_width_truncates : reflect_dimension 300 (100 # 6) = 16%Z.
Proof. reflexivity. Qed.

Example canvas_width_negative_falls_back : reflect_dimension 300 (- (1 # 1)) = 300%Z.
Proof. reflexivity. Qed.

Example JSON_parse_array :
  JSON_parse (lit " [1, -2.5e3, true, null, {}] ") =
  Some (JArray [JNumber (lit "1"); JNumber (lit "-2.5e3"); JBool true; JNull; JObject []]).
Proof. reflexivity. Qed.

(** The text {"title":"Cats"}, its quotes written as code unit 34. *)
Example JSON_parse_object :
  JSON_parse (lit "{" ++ [34%N] ++ lit "title" ++ [34%N] ++ lit ":" ++
              [34%N] ++ lit "Cats" ++ [34%N] ++ lit "}") =
  Some (JObject [(lit "title", JString (lit "Cats"))]).
Proof. reflexivity. Qed.

Example JSON_parse_rejects_trailing_comma : JSON_parse (lit "[1,]") = None.
Proof. reflexivity. Qed.

Example JSON_parse_rejects_empty : JSON_parse [] = None.
Proof. reflexivity. Qed.

Example extractImage_first_inline :
  extractImage (image_response (lit "AAAA")) = Resolved (lit "AAAA").
Proof. reflexivity. Qed.

Example extractImage_no_candidates :
  extractImage {| candidates := None; text := None |} =
  Rejected (lit "No image data found in response.").
Proof. reflexivity. Qed.

(** Coverage by the mask of a 640 by 540 cell, radius 27: the corner pixel
    and pixel (5, 5) are cut off; pixel (6, 6), which the curve crosses, and
    the pixels (18, 1), (12, 3), (3, 12), (1, 18) and (18, 538), which lie
    between the curve and the chord, are left to the host; the pixels
    (26, 1), (14, 13) and (1, 26), behind the chord, are inside, as is the
    middle of the upper border. *)
Example mask_of_4k_cell :
  let cover := rounded_cover (640 # 1) (540 # 1) (27 # 1) in
  cover 0%Z 0%Z = Uncovered /\ cover 5%Z 5%Z = Uncovered /\
  cover 639%Z 539%Z = Uncovered /\
  cover 6%Z 6%Z = Partly /\ cover 18%Z 1%Z = Partly /\ cover 12%Z 3%Z = Partly /\
  cover 3%Z 12%Z = Partly /\ cover 1%Z 18%Z = Partly /\ cover 18%Z 538%Z = Partly /\
  cover 26%Z 1%Z = Covered /\ cover 14%Z 13%Z = Covered /\ cover 1%Z 26%Z = Covered /\
  cover 320%Z 0%Z = Covered.
Proof. repeat split; reflexivity. Qed.

(** When the width is not a multiple of 6 the cells start between pixels:
    the second slice of a 3841 pixel wide composite is resampled, not
    copied, even inside the mask. *)
Example fractional_cell_is_resampled :
  exists x y,
    bm_px (bitmap (blob (cell_slice (sample_image 3841 2160) 0 1))) 100 100 =
    Layer true (Interp x y) Clear.
Proof. eexists. eexists. vm_compute. reflexivity. Qed.

(** A run of [handleGenerate] in which everything succeeds. *)
Example handleGenerate_success :
  let w := sample_world (constant_api (Resolved (image_response (lit "AAAA")))) in
  let s' := fst (handleGenerate w (initial_state (lit "a cat at work"))) in
  status s' = COMPLETE /\ errorMsg s' = None /\
  originalImage s' = Some (lit "AAAA") /\ List.length (slicedImages s') = 24%nat /\
  metaData s' = Some (JObject []) /\ results_shown s' = true.
Proof. repeat split; reflexivity. Qed.

(** A failure after the generation step, here a canvas context that is not
    to be had, also ends in ERROR, but with the composite and the metadata of
    the batch already stored, so that the result panel shows them. *)
Example handleGenerate_processing_failure :
  let w := {| aistudio := None;
              api := constant_api (Resolved (image_response (lit "AAAA")));
              env := {| decode := fun _ => Some (sample_image 3840 2160);
                        has_context := false |} |} in
  let s' := fst (handleGenerate w (initial_state (lit "a cat at work"))) in
  status s' = ERROR /\ errorMsg s' = Some (lit "Could not get canvas context") /\
  originalImage s' = Some (lit "AAAA") /\ metaData s' = Some (JObject []) /\
  slicedImages s' = [] /\ results_shown s' = true.
Proof. repeat split; reflexivity. Qed.

(** * Further properties of the code *)

(** ** fileToBase64 *)

Lemma until_comma_plain (s : jsstring) : ~ In 44%N s -> until_comma s = s.
Proof.
  induction s as [| c s IH]; intros H; [reflexivity |].
  cbn [until_comma]. destruct (N.eqb_spec c 44) as [-> | _].
  - exfalso. apply H. now left.
  - f_equal. apply IH. intros Hin. apply H. now right.
Qed.

Lemma split_comma_1_prefix (prefix rest : jsstring) :
  ~ In 44%N prefix ->
  split_comma_1 (prefix ++ 44%N :: rest) = Some (until_comma rest).
Proof.
  induction prefix as [| c prefix IH]; intros H; [reflexivity |].
  cbn [app split_comma_1]. destruct (N.eqb_spec c 44) as [-> | _].
  - exfalso. apply H. now left.
  - apply IH. intros Hin. apply H. now right.
Qed.

Lemma split_comma_1_none (s : jsstring) : ~ In 44%N s -> split_comma_1 s = None.
Proof.
  induction s as [| c s IH]; intros H; [reflexivity |].
  cbn [split_comma_1]. destruct (N.eqb_spec c 44) as [-> | _].
  - exfalso. apply H. now left.
  - apply IH. intros Hin. apply H. now right.
Qed.

(** X1. [fileToBase64] gives back the payload of a data URL: when the reader
    delivers a header without comma, a comma and a payload without comma, it
    resolves with the payload. In particular it undoes the header that
    [processImage] and [sliceMemeGrid] put in front of a base64 string. *)
Theorem fileToBase64_payload (type header payload : jsstring) :
  ~ In 44%N header -> ~ In 44%N payload ->
  fileToBase64 (sample_file type (header ++ 44%N :: payload)) = Resolved (Some payload) /\
  fileToBase64 (sample_file type (data_url payload)) = Resolved (Some payload).
Proof.
  intros Hh Hp.
  assert (G : forall h, ~ In 44%N h ->
            fileToBase64 (sample_file type (h ++ 44%N :: payload)) = Resolved (Some payload)).
  { intros h H. unfold fileToBase64, sample_file. cbn [file_dataURL].
    rewrite split_comma_1_prefix by assumption. now rewrite until_comma_plain. }
  split; [now apply G |].
  apply (G (lit "data:image/png;base64")). cbn. intuition discriminate.
Qed.

Lemma fileToBase64_payload_witness :
  fileToBase64 (sample_file (lit "image/png") (data_url (lit "iVBORw0KGgo="))) =
  Resolved (Some (lit "iVBORw0KGgo=")).
Proof.
  refine (proj2 (fileToBase64_payload (lit "image/png") (lit "data:image/jpeg;base64")
                   (lit "iVBORw0KGgo=") _ _));
    cbn; intuition discriminate.
Defined.

(** X2. [fileToBase64] does not reject a reader result that has no comma: it
    resolves with undefined; and of a result with several commas it keeps
    only what lies between the first and the second. *)
Theorem fileToBase64_comma_edges (file : File) (result : jsstring) :
  file_dataURL file = Some result ->
  (~ In 44%N result -> fileToBase64 file = Resolved None) /\
  (forall header middle rest,
     result = header ++ 44%N :: middle ++ 44%N :: rest ->
     ~ In 44%N header -> ~ In 44%N middle ->
     fileToBase64 file = Resolved (Some middle)).
Proof.
  intros Hurl. unfold fileToBase64. rewrite Hurl. split.
  - intros H. now rewrite split_comma_1_none.
  - intros header middle rest -> Hh Hm.
    rewrite split_comma_1_prefix by assumption. do 2 f_equal.
    clear Hurl Hh. induction middle as [| c middle IH]; [reflexivity |].
    cbn [app until_comma]. destruct (N.eqb_spec c 44) as [-> | _].
    + exfalso. apply Hm. now left.
    + f_equal. apply IH. intros Hin. apply Hm. now right.
Qed.

Lemma fileToBase64_comma_edges_witness :
  fileToBase64 (sample_file (lit "text/plain") (lit "no header here")) = Resolved None.
Proof.
  refine (proj1 (fileToBase64_comma_edges
                   (sample_file (lit "text/plain") (lit "no header here"))
                   (lit "no header here") eq_refl) _).
  cbn; intuition discriminate.
Defined.

(** ** processImage *)

Local Open Scope Q_scope.

(** X3. [processImage] resolves exactly when the image decodes and a 2D
    context is there; it rejects with "Image processing failed" when the
    image does not decode and with "Could not get canvas context" when it
    decodes and there is no context. What it resolves with carries the file
    name it was given, and the same encoded image as blob and as data URL. *)
Theorem processImage_outcomes (env : Env) (imageBase64 : jsstring)
    (tw th : Q) (name : jsstring) :
  (decode env (data_url imageBase64) = None ->
   processImage env imageBase64 tw th name = Rejected (lit "Image processing failed")) /\
  (forall img, decode env (data_url imageBase64) = Some img -> has_context env = false ->
   processImage env imageBase64 tw th name = Rejected (lit "Could not get canvas context")) /\
  (forall img, decode env (data_url imageBase64) = Some img -> has_context env = true ->
   exists asset, processImage env imageBase64 tw th name = Resolved asset) /\
  (forall asset, processImage env imageBase64 tw th name = Resolved asset ->
   exists img, decode env (data_url imageBase64) = Some img /\ has_context env = true /\
     asset_fileName asset = name /\ asset_blob asset = asset_dataUrl asset /\
     bitmap (asset_blob asset) = bitmap_of (cover_canvas tw th img)).
Proof.
  unfold processImage. split; [| split; [| split]].
  - intros ->. reflexivity.
  - intros img -> ->. reflexivity.
  - intros img -> ->. eexists. reflexivity.
  - intros asset. destruct (decode env (data_url imageBase64)) as [img |]; [| discriminate].
    destruct (has_context env); [| discriminate].
    cbn [negb]. intros [= <-]. exists img. repeat split; reflexivity.
Qed.

Section CoverFit.

Variables (tw th : Z) (img : RasterImage).
Hypothesis Himg : decodable img.
Hypothesis Htw : (0 <= tw < 2 ^ 31)%Z.
Hypothesis Hth : (0 <= th < 2 ^ 31)%Z.

Let T := inject_Z tw.
Let U := inject_Z th.
Let w := inject_Z (width img).
Let h := inject_Z (height img).
Let scale := cover_scale T U img.
Let dw := w [*] scale.
Let dh := h [*] scale.

Lemma cover_scale_is_one_ratio :
  (scale = T [/] w /\ U [/] h <= T [/] w) \/ (scale = U [/] h /\ T [/] w <= U [/] h).
Proof.
  unfold scale, cover_scale. fold w h. unfold Qmax, GenericMinMax.gmax.
  destruct (Qcompare (T [/] w) (U [/] h)) eqn:C.
  - apply Qeq_alt in C. left. split; [reflexivity | rewrite C; apply Qle_refl].
  - apply Qlt_alt in C. right. split; [reflexivity | now apply Qlt_le_weak].
  - apply Qgt_alt in C. left. split; [reflexivity | now apply Qlt_le_weak].
Qed.

(** Where the scale is the rounded quotient of a direction, the scaled
    size is the target of that direction up to three roundings and the
    offset is zero up to rounding. *)
Lemma fit_binding (t n : Z) :
  (0 <= t < 2 ^ 53)%Z -> (0 < n < 2 ^ 53)%Z ->
  let s := inject_Z t [/] inject_Z n in
  let d := inject_Z n [*] s in
  let x := (inject_Z t [/] 2) [-] (inject_Z n [/] 2) [*] s in
  Qabs (d - inject_Z t) <= inject_Z t * (3 * Double.u) /\
  Qabs x <= inject_Z t * (2 * Double.u).
Proof.
  intros Ht Hn s d x.
  assert (PT : 0 <= inject_Z t) by (apply inject_Z_nonneg; lia).
  assert (PN : 0 < inject_Z n) by (apply inject_Z_pos; lia).
  set (T' := inject_Z t) in *. set (N := inject_Z n) in *.
  assert (Pq : 0 <= T' / N) by (apply Qle_shift_div_l; [exact PN | lra]).
  destruct (round_bounds_nonneg (T' / N) Pq) as [Q1 Q2].
  fold (Double.div T' N) in Q1, Q2. fold s in Q1, Q2.
  assert (ENq : N * (T' / N) == T') by (field; lra).
  assert (S1 : T' - T' * Double.u <= N * s /\ N * s <= T' + T' * Double.u).
  { assert (A : 0 <= N * (s - (T' / N - T' / N * Double.u))).
    { apply Qmult_le_0_compat; [lra |]. set (q1 := T' / N) in *. lra. }
    assert (A' : 0 <= N * (T' / N + T' / N * Double.u - s)).
    { apply Qmult_le_0_compat; [lra |]. set (q1 := T' / N) in *. lra. }
    assert (B : N * (s - (T' / N - T' / N * Double.u)) ==
                N * s - (N * (T' / N) - N * (T' / N) * Double.u)) by ring.
    assert (B' : N * (T' / N + T' / N * Double.u - s) ==
                 N * (T' / N) + N * (T' / N) * Double.u - N * s) by ring.
    rewrite B, ENq in A. rewrite B', ENq in A'. split; lra. }
  assert (Pu : T' * Double.u <= T') by (unfold Double.u; lra).
  assert (PNs : 0 <= N * s) by lra.
  destruct (round_bounds_nonneg (N * s) PNs) as [D1 D2].
  fold (Double.mul N s) in D1, D2. fold d in D1, D2.
  assert (Ex : x = Double.round ((T' - d) / 2)) by (apply offset_value; lia).
  assert (Bd : - (T' * (3 * Double.u)) <= d - T' <= T' * (3 * Double.u)).
  { unfold Double.u in *. split; lra. }
  split; [apply Qabs_Qle_condition; exact Bd |].
  apply Qabs_Qle_condition.
  destruct (Qlt_le_dec d T') as [Short | Reach].
  - assert (Pt : 0 <= (T' - d) / 2) by (rewrite Qhalf; lra).
    destruct (round_bounds_nonneg _ Pt) as [X1 X2]. rewrite <- Ex in X1, X2.
    rewrite Qhalf in X1, X2. unfold Double.u in *. split; lra.
  - assert (Pt : (T' - d) / 2 <= 0) by (rewrite Qhalf; lra).
    destruct (round_bounds_nonpos _ Pt) as [X1 X2]. rewrite <- Ex in X1, X2.
    rewrite Qhalf in X1, X2. unfold Double.u in *. split; lra.
Qed.

(** X4. The cover fit leaves no gap beyond the rounding of the arithmetic
    and crops in one direction at most: each offset is at most 2^-52 of the
    target above zero, and zero or negative where the scaled source reaches
    the target; one of the two offsets is within 2^-52 of the target of
    zero; and what sticks out is the same on both sides (left and right, top
    and bottom) up to the rounding of the offset. *)
Theorem cover_offsets_centered :
  let x := cover_x T U img in
  let y := cover_y T U img in
  x <= T * (1 # 4503599627370496) /\ y <= U * (1 # 4503599627370496) /\
  (T <= dw -> x <= 0) /\ (U <= dh -> y <= 0) /\
  (Qabs x <= T * (1 # 4503599627370496) \/ Qabs y <= U * (1 # 4503599627370496)) /\
  Qabs (- x - (x + dw - T)) <= Qabs (T - dw) * Double.u /\
  Qabs (- y - (y + dh - U)) <= Qabs (U - dh) * Double.u.
Proof.
  destruct Himg as [Hw Hh]. intros x y.
  assert (Lw : T [/] w <= scale) by apply Q.le_max_l.
  assert (Lh : U [/] h <= scale) by apply Q.le_max_r.
  destruct (fit_bounds tw (width img) scale ltac:(lia) ltac:(lia) Lw) as (_ & Xu & _ & Xr).
  destruct (fit_bounds th (height img) scale ltac:(lia) ltac:(lia) Lh) as (_ & Yu & _ & Yr).
  change ((inject_Z tw [/] 2) [-] (inject_Z (width img) [/] 2) [*] scale) with x in Xu, Xr.
  change ((inject_Z th [/] 2) [-] (inject_Z (height img) [/] 2) [*] scale) with y in Yu, Yr.
  fold T dw in Xu, Xr. fold U dh in Yu, Yr.
  assert (Ex : x = Double.round ((T - dw) / 2)) by (apply offset_value; lia).
  assert (Ey : y = Double.round ((U - dh) / 2)) by (apply offset_value; lia).
  assert (Sym : forall a b, a = Double.round (b / 2) -> Qabs (b - 2 * a) <= Qabs b * Double.u).
  { intros a b Ea.
    pose proof (round_error (b / 2)) as R. rewrite <- Ea in R.
    assert (Hb : Qabs (b / 2) == Qabs b * (1 # 2)).
    { unfold Qdiv. rewrite Qabs_Qmult. reflexivity. }
    rewrite Hb in R.
    assert (E2 : b - 2 * a == - (2 # 1) * (a - b / 2)) by field.
    rewrite E2, Qabs_Qmult. change (Qabs (- (2 # 1))) with (2 # 1).
    set (A := Qabs (a - b / 2)) in *. set (B := Qabs b) in *. unfold Double.u in *. lra. }
  split; [unfold Double.u in Xu; lra |].
  split; [unfold Double.u in Yu; lra |].
  split; [intros C; exact (proj1 (Xr C)) |].
  split; [intros C; exact (proj1 (Yr C)) |].
  split.
  - destruct cover_scale_is_one_ratio as [[E _] | [E _]].
    + left. destruct (fit_binding tw (width img) ltac:(lia) ltac:(lia)) as [_ B].
      fold T w in B. rewrite <- E in B.
      change ((T [/] 2) [-] (w [/] 2) [*] scale) with x in B.
      unfold Double.u in B.
      assert (K : T * (2 * (1 # 9007199254740992)) == T * (1 # 4503599627370496)) by ring.
      now rewrite <- K.
    + right. destruct (fit_binding th (height img) ltac:(lia) ltac:(lia)) as [_ B].
      fold U h in B. rewrite <- E in B.
      change ((U [/] 2) [-] (h [/] 2) [*] scale) with y in B.
      unfold Double.u in B.
      assert (K : U * (2 * (1 # 9007199254740992)) == U * (1 # 4503599627370496)) by ring.
      now rewrite <- K.
  - split.
    + assert (E : - x - (x + dw - T) == (T - dw) - 2 * x) by ring.
      rewrite E. exact (Sym x (T - dw) Ex).
    + assert (E : - y - (y + dh - U) == (U - dh) - 2 * y) by ring.
      rewrite E. exact (Sym y (U - dh) Ey).
Qed.

(** X5. The cover scale is the least one that covers, up to its rounding:
    with any scale smaller than the computed one by more than a factor
    1 - 2^-53 the source, scaled exactly, falls short of the target in width
    or in height. *)
Theorem cover_scale_minimal (s : Q) :
  s < scale * (1 - Double.u) -> w * s < T \/ h * s < U.
Proof.
  destruct Himg as [Hw Hh].
  assert (Pw : 0 < w) by (apply inject_Z_pos; lia).
  assert (Ph : 0 < h) by (apply inject_Z_pos; lia).
  assert (PT : 0 <= T) by (apply inject_Z_nonneg; lia).
  assert (PU : 0 <= U) by (apply inject_Z_nonneg; lia).
  assert (G : forall a b, 0 < b -> 0 <= a -> s < (a [/] b) * (1 - Double.u) -> b * s < a).
  { intros a b Pb Pa Hs.
    assert (Pq : 0 <= a / b) by (apply Qle_shift_div_l; [exact Pb | lra]).
    destruct (round_bounds_nonneg (a / b) Pq) as [_ Q2].
    fold (Double.div a b) in Q2.
    assert (L : s < a / b).
    { set (q := a / b) in *. set (r := a [/] b) in *. unfold Double.u in *. lra. }
    apply Qlt_le_trans with (b * (a / b)).
    - apply Qmult_lt_l; assumption.
    - apply Qle_lteq. right. field. lra. }
  intros Hs. destruct cover_scale_is_one_ratio as [[E _] | [E _]]; rewrite E in Hs.
  - left. now apply G.
  - right. now apply G.
Qed.

(** X6. A source of the target's aspect ratio is not cropped beyond the
    rounding of the arithmetic: scaled, it is as wide and as high as the
    target up to 3 * 2^-53 of it, and both offsets are zero up to 2^-52 of
    the target. *)
Theorem cover_same_aspect_ratio :
  T * h == U * w ->
  Qabs (dw - T) <= T * (3 * Double.u) /\ Qabs (dh - U) <= U * (3 * Double.u) /\
  Qabs (cover_x T U img) <= T * (2 * Double.u) /\
  Qabs (cover_y T U img) <= U * (2 * Double.u).
Proof.
  destruct Himg as [Hw Hh].
  assert (Pw : 0 < w) by (apply inject_Z_pos; lia).
  assert (Ph : 0 < h) by (apply inject_Z_pos; lia).
  intros Hratio.
  assert (R : T / w == U / h).
  { assert (E1 : T / w == T * h / (w * h)) by (field; lra).
    assert (E2 : U / h == U * w / (w * h)) by (field; lra).
    rewrite E1, E2, Hratio. reflexivity. }
  assert (R' : T [/] w = U [/] h) by (apply round_comp; exact R).
  assert (S1 : scale = T [/] w).
  { destruct cover_scale_is_one_ratio as [[E _] | [E _]]; rewrite E; congruence. }
  assert (S2 : scale = U [/] h) by congruence.
  destruct (fit_binding tw (width img) ltac:(lia) ltac:(lia)) as [A1 A2].
  destruct (fit_binding th (height img) ltac:(lia) ltac:(lia)) as [B1 B2].
  fold T w in A1, A2. fold U h in B1, B2.
  rewrite <- S1 in A1, A2. rewrite <- S2 in B1, B2.
  repeat split; assumption.
Qed.

End CoverFit.

Lemma cover_offsets_centered_witness :
  cover_x (inject_Z 750) (inject_Z 400) (sample_image 91 91) <=
    inject_Z 750 * (1 # 4503599627370496) /\
  cover_y (inject_Z 750) (inject_Z 400) (sample_image 91 91) <= 0.
Proof.
  destruct (cover_offsets_centered 750 400 (sample_image 91 91))
    as (Hx & _ & _ & Hy & _).
  - unfold decodable; simpl; lia.
  - lia.
  - lia.
  - split; [exact Hx |]. apply Hy. vm_compute. discriminate.
Defined.

Lemma cover_scale_minimal_witness :
  inject_Z 1000 * (7 # 10) < inject_Z 750 \/ inject_Z 1000 * (7 # 10) < inject_Z 400.
Proof.
  apply (cover_scale_minimal 750 400 (sample_image 1000 1000)).
  - unfold decodable; simpl; lia.
  - lia.
  - lia.
  - vm_compute. reflexivity.
Defined.

Lemma cover_same_aspect_ratio_witness :
  Qabs (cover_x (inject_Z 750) (inject_Z 400) (sample_image 165 88)) <=
    inject_Z 750 * (2 * Double.u) /\
  Qabs (cover_y (inject_Z 750) (inject_Z 400) (sample_image 165 88)) <=
    inject_Z 400 * (2 * Double.u).
Proof.
  destruct (cover_same_aspect_ratio 750 400 (sample_image 165 88))
    as (_ & _ & Hx & Hy).
  - unfold decodable; simpl; lia.
  - lia.
  - lia.
  - vm_compute. reflexivity.
  - split; assumption.
Defined.



Local Close Scope Q_scope.

Lemma startsWith_spec (s p : jsstring) :
  startsWith s p = true <-> exists r, s = p ++ r.
Proof.
  revert s. induction p as [| b p IH]; intros s.
  - split; [intros _; now exists s | intros _; destruct s; reflexivity].
  - destruct s as [| a s]; cbn [startsWith].
    + split; [discriminate | intros [r H]; discriminate H].
    + rewrite andb_true_iff, N.eqb_eq, IH. split.
      * intros [-> [r ->]]. now exists r.
      * intros [r [= -> ->]]. split; [reflexivity | now exists r].
Qed.

Lemma includes_spec (s p : jsstring) :
  includes s p = true <-> exists a c, s = a ++ p ++ c.
Proof.
  induction s as [| x s IH].
  - cbn [includes]. rewrite orb_false_r, startsWith_spec. split.
    + intros [r H]. now exists [], r.
    + intros (a & c & H). destruct a; [now exists c |]. discriminate H.
  - cbn [includes]. rewrite orb_true_iff, startsWith_spec, IH. split.
    + intros [[r H] | (a & c & ->)]; [now exists [], r | now exists (x :: a), c].
    + intros (a & c & H). destruct a as [| y a].
      * left. now exists c.
      * right. injection H as _ ->. now exists a, c.
Qed.

Lemma endsWith_spec (s p : jsstring) :
  endsWith s p = true <-> exists a, s = a ++ p.
Proof.
  unfold endsWith. rewrite startsWith_spec. split.
  - intros [r H]. exists (rev r).
    apply (f_equal (@rev N)) in H. rewrite rev_involutive in H.
    rewrite H, rev_app_distr, rev_involutive. reflexivity.
  - intros [a ->]. exists (rev a). apply rev_app_distr.
Qed.

(** X8. What [processImage] resolves with is a banner exactly when the file
    name contains "banner" (in lower case) and a logo otherwise, and it is
    encoded as PNG exactly when the file name, put in lower case, ends in
    ".png" and as JPEG otherwise. *)
Theorem processImage_type_and_format (env : Env) (imageBase64 : jsstring)
    (tw th : Q) (name : jsstring) (asset : MarketingAsset) :
  processImage env imageBase64 tw th name = Resolved asset ->
  (asset_type asset = ImageUtils.banner <-> exists a c, name = a ++ lit "banner" ++ c) /\
  (asset_type asset = ImageUtils.logo <-> ~ exists a c, name = a ++ lit "banner" ++ c) /\
  (mime (asset_blob asset) = lit "image/png" <->
     exists stem, toLowerCase name = stem ++ lit ".png") /\
  (mime (asset_blob asset) = lit "image/jpeg" <->
     ~ exists stem, toLowerCase name = stem ++ lit ".png").
Proof.
  unfold processImage.
  destruct (decode env (data_url imageBase64)) as [img |]; [| discriminate].
  destruct (has_context env); [| discriminate].
  cbn [negb]. intros [= <-]. cbn [asset_type asset_blob mime].
  rewrite <- (includes_spec name (lit "banner")).
  rewrite <- (endsWith_spec (toLowerCase name) (lit ".png")).
  destruct (includes name (lit "banner")), (endsWith (toLowerCase name) (lit ".png"));
    repeat split; intros; try reflexivity; try discriminate; try congruence.
Qed.

Lemma processImage_type_and_format_witness :
  exists asset,
    processImage (sample_env logo_sized_image) (lit "AAAA") (512 # 1) (512 # 1)
      (lit "Banner.PNG") = Resolved asset /\
    asset_type asset = ImageUtils.logo /\
    mime (asset_blob asset) = lit "image/png".
Proof.
  destruct (processImage_resolves (sample_env logo_sized_image) (lit "AAAA")
              logo_sized_image (512 # 1) (512 # 1) (lit "Banner.PNG") eq_refl eq_refl)
    as (asset & Hres & _).
  exists asset. split; [exact Hres |].
  destruct (processImage_type_and_format _ _ _ _ _ _ Hres) as (_ & Hlogo & Hpng & _).
  split.
  - apply Hlogo. rewrite <- includes_spec. discriminate.
  - apply Hpng. exists (lit "banner"). reflexivity.
Defined.

(** ** sliceMemeGrid *)

Lemma slice_loop_names (img : RasterImage) :
  List.map fileName (slice_loop img) = List.map meme_name (seq 1 24) /\
  List.map id (slice_loop img) = List.map (fun n => lit "meme-" ++ toString n) (seq 1 24) /\
  List.map (fun s => mime (blob s)) (slice_loop img) = List.repeat (lit "image/png") 24.
Proof. rewrite slice_loop_cells. repeat split; reflexivity. Qed.

Lemma sliceMemeGrid_resolved_loop (env : Env) (imageBase64 : jsstring)
    (slices : list SlicedImage) :
  sliceMemeGrid env imageBase64 = Resolved slices ->
  exists img, decode env (data_url imageBase64) = Some img /\ has_context env = true /\
    slices = slice_loop img.
Proof.
  unfold sliceMemeGrid.
  destruct (decode env (data_url imageBase64)) as [img |]; [| discriminate].
  destruct (has_context env); [| discriminate].
  cbn [negb]. intros [= <-]. exists img. repeat split; reflexivity.
Qed.

(** X9. [sliceMemeGrid] resolves exactly when the image decodes and a 2D
    context is there, and then always with 24 slices, whatever the size of
    the image; when the image decodes and there is no context it rejects with
    "Could not get canvas context". *)
Theorem sliceMemeGrid_outcomes (env : Env) (imageBase64 : jsstring) :
  (forall img, decode env (data_url imageBase64) = Some img -> has_context env = false ->
   sliceMemeGrid env imageBase64 = Rejected (lit "Could not get canvas context")) /\
  (forall img, decode env (data_url imageBase64) = Some img -> has_context env = true ->
   sliceMemeGrid env imageBase64 = Resolved (slice_loop img)) /\
  (forall slices, sliceMemeGrid env imageBase64 = Resolved slices ->
   List.length slices = 24%nat /\
   exists img, decode env (data_url imageBase64) = Some img /\ has_context env = true /\
     slices = slice_loop img).
Proof.
  split; [| split].
  - unfold sliceMemeGrid. intros img -> ->. reflexivity.
  - unfold sliceMemeGrid. intros img -> ->. reflexivity.
  - intros slices H. destruct (sliceMemeGrid_resolved_loop _ _ _ H) as (img & Hd & Hc & ->).
    split.
    + rewrite <- (length_map fileName), (proj1 (slice_loop_names img)). reflexivity.
    + exists img. repeat split; assumption.
Qed.



(** ** downloadBatch *)

Lemma info_name_plain : plain_name (lit "info.txt").
Proof. split; [discriminate |]. cbn. unfold slash. intuition discriminate. Qed.

(** The archive as a chain of writes, for plain file names. *)
Lemma downloadBatch_archive (slices : list SlicedImage)
    (extraAssets : list MarketingAsset) (metaData : option MetaData) :
  (forall s, In s slices -> plain_name (fileName s)) ->
  (forall a, In a extraAssets -> plain_name (asset_fileName a)) ->
  let base := <[lit "stickers/" := Folder]> (∅ : gmap jsstring zip_entry) in
  let written :=
    insert_all asset_fileName (fun a => BlobFile (asset_blob a)) extraAssets
      (insert_all (fun s => lit "stickers/" ++ fileName s) (fun s => BlobFile (blob s))
         slices base) in
  archive (downloadBatch slices extraAssets metaData) =
  match metaData with
  | Some m => <[lit "info.txt" := TextFile (infoContent m)]> written
  | None => written
  end.
Proof.
  intros Hslices Hassets base written. unfold downloadBatch.
  change (folder [] (lit "stickers") ∅) with (lit "stickers/", base).
  cbv beta iota. rewrite stickers_fold; [| assumption | apply lookup_insert_eq].
  rewrite assets_fold by assumption. fold written.
  destruct metaData as [m |]; cbn [archive]; [| reflexivity].
  now rewrite (file_add_root _ _ _ info_name_plain).
Qed.

(** X12. Whatever the slices and the assets are called, when metadata is
    given the archive's info.txt is the metadata text: it is written last,
    so no slice and no asset, not even one called info.txt, takes its place;
    and the archive is always saved as meme_pack.zip. *)
Theorem downloadBatch_info_written_last (slices : list SlicedImage)
    (extraAssets : list MarketingAsset) (m : MetaData) (metaData : option MetaData) :
  archive (downloadBatch slices extraAssets (Some m)) !! lit "info.txt" =
    Some (TextFile (infoContent m)) /\
  saved_as (downloadBatch slices extraAssets metaData) = lit "meme_pack.zip".
Proof.
  split; [| unfold downloadBatch; destruct (folder [] (lit "stickers") ∅); reflexivity].
  unfold downloadBatch. destruct (folder [] (lit "stickers") ∅) as [root files].
  cbn [archive]. rewrite (file_add_root _ _ _ info_name_plain).
  apply lookup_insert_eq.
Qed.

Lemma insert_all_last {A : Type} (key : A -> jsstring) (val : A -> zip_entry)
    (l : list A) (m : gmap jsstring zip_entry) (k : jsstring) :
  insert_all key val l m !! k =
  match last_with (fun x => bool_decide (key x = k)) l with
  | Some x => Some (val x)
  | None => m !! k
  end.
Proof.
  revert m. induction l as [| a l IH]; intros m; [reflexivity |].
  cbn [insert_all fold_left last_with]. fold (insert_all key val l (<[key a := val a]> m)).
  rewrite IH. destruct (last_with _ l); [reflexivity |].
  destruct (bool_decide_reflect (key a = k)) as [E | NE].
  - rewrite E. apply lookup_insert_eq.
  - now apply lookup_insert_ne.
Qed.

Lemma last_with_ext {A : Type} (p q : A -> bool) (l : list A) :
  (forall x, p x = q x) -> last_with p l = last_with q l.
Proof.
  intros E. induction l as [| a l IH]; [reflexivity |].
  cbn [last_with]. now rewrite IH, E.
Qed.

(** X13. When two slices carry the same file name the later one stays in the
    archive: for plain file names, the entry "stickers/" and a name is the
    blob of the last slice of that name, and there is no entry for a name no
    slice carries. *)
Theorem downloadBatch_last_slice_wins (slices : list SlicedImage)
    (extraAssets : list MarketingAsset) (metaData : option MetaData) (name : jsstring) :
  (forall s, In s slices -> plain_name (fileName s)) ->
  (forall a, In a extraAssets -> plain_name (asset_fileName a)) ->
  plain_name name ->
  archive (downloadBatch slices extraAssets metaData) !! (lit "stickers/" ++ name) =
  match last_with (fun s => bool_decide (fileName s = name)) slices with
  | Some s => Some (BlobFile (blob s))
  | None => None
  end.
Proof.
  intros Hslices Hassets Hname.
  rewrite downloadBatch_archive by assumption.
  assert (K : forall files : gmap jsstring zip_entry,
            insert_all asset_fileName (fun a => BlobFile (asset_blob a)) extraAssets files
              !! (lit "stickers/" ++ name) = files !! (lit "stickers/" ++ name)).
  { intros files. apply insert_all_other. intros Hin.
    apply in_map_iff in Hin. destruct Hin as (a & E & Ha).
    apply (proj2 (Hassets a Ha)). rewrite E. cbn. unfold slash. tauto. }
  assert (L : insert_all (fun s => lit "stickers/" ++ fileName s) (fun s => BlobFile (blob s))
                slices (<[lit "stickers/" := Folder]> ∅) !! (lit "stickers/" ++ name) =
              match last_with (fun s => bool_decide (fileName s = name)) slices with
              | Some s => Some (BlobFile (blob s))
              | None => None
              end).
  { rewrite insert_all_last.
    rewrite (last_with_ext _ (fun s => bool_decide (fileName s = name))).
    - destruct (last_with _ slices); [reflexivity |].
      rewrite lookup_insert_ne, lookup_empty; [reflexivity |].
      destruct Hname as [Hne _]. intros E.
      apply (f_equal (@List.length N)) in E. rewrite length_app in E.
      destruct name; [contradiction | simpl in E; lia].
    - intros s. apply bool_decide_ext. split; [apply app_inv_head | now intros ->]. }
  destruct metaData as [m |].
  - rewrite lookup_insert_ne; [now rewrite K |].
    apply plain_not_under_stickers, info_name_plain.
  - now rewrite K.
Qed.

Lemma clashing_names_plain :
  forall s, In s clashing_slices -> plain_name (fileName s).
Proof.
  intros s [<- | [<- | []]]; (split; [discriminate |]);
    cbn; unfold slash; intuition discriminate.
Defined.

Lemma downloadBatch_last_slice_wins_witness :
  archive (downloadBatch clashing_slices [] None) !! lit "stickers/meme_01.png" =
  Some (BlobFile (blob (cell_slice (sample_image 60 40) 0 0))).
Proof.
  refine (downloadBatch_last_slice_wins clashing_slices [] None (lit "meme_01.png")
            clashing_names_plain _ _).
  - intros a [].
  - split; [discriminate |]. cbn. unfold slash. intuition discriminate.
Defined.

(** ** ensureApiKey, getClient *)

(** X14. [ensureApiKey] never resolves with false: it resolves with true
    whenever it resolves, whether a key was selected, the dialog was opened
    or there is no [window.aistudio] at all; it rejects only with the reason
    of a rejected [hasSelectedApiKey], or of a rejected [openSelectKey] after
    [hasSelectedApiKey] said no. *)
Theorem ensureApiKey_true_or_host_error (aistudio : option AiStudio) :
  (forall v, ensureApiKey aistudio = Resolved v -> v = true) /\
  (aistudio = None -> ensureApiKey aistudio = Resolved true) /\
  (forall e, ensureApiKey aistudio = Rejected e ->
     exists a, aistudio = Some a /\
       (hasSelectedApiKey a = Rejected e \/
        (hasSelectedApiKey a = Resolved false /\ openSelectKey a = Rejected e))).
Proof.
  unfold ensureApiKey. destruct aistudio as [a |].
  - destruct (hasSelectedApiKey a) as [[|] | e0] eqn:Hhas.
    + split; [| split]; [now intros v [= <-] | discriminate | discriminate].
    + destruct (openSelectKey a) as [u | e1] eqn:Hopen.
      * split; [| split]; [now intros v [= <-] | discriminate | discriminate].
      * split; [| split]; [discriminate | discriminate |].
        intros e [= <-]. exists a. split; [reflexivity | right; now split].
    + split; [| split]; [discriminate | discriminate |].
      intros e [= <-]. exists a. split; [reflexivity | now left].
  - split; [| split]; [now intros v [= <-] | reflexivity | discriminate].
Qed.

Lemma or_string_first (a : option jsstring) (b : jsstring) :
  or_string a b = first_truthy [default [] a; b].
Proof.
  destruct a as [x |]; cbn; [| now destruct b].
  destruct x; cbn; [now destruct b | reflexivity].
Qed.

(** X15. [getClient] takes as key the first non-empty one of, in this order,
    process.env.API_KEY, process.env.GEMINI_API_KEY,
    import.meta.env.VITE_API_KEY, import.meta.env.VITE_GEMINI_API_KEY and
    import.meta.env.GEMINI_API_KEY, a variable that is missing, or whose
    environment is missing, counting as empty; the key is the empty string,
    and the warning is given, exactly when all five are empty. *)
Theorem getClient_key_priority (e : KeyEnv) :
  let candidates :=
    [ variable (process_env e) "API_KEY";
      variable (process_env e) "GEMINI_API_KEY";
      variable (import_meta_env e) "VITE_API_KEY";
      variable (import_meta_env e) "VITE_GEMINI_API_KEY";
      variable (import_meta_env e) "GEMINI_API_KEY" ] in
  apiKey (getClient e) = first_truthy candidates /\
  (warned (getClient e) = true <-> apiKey (getClient e) = []) /\
  (apiKey (getClient e) = [] <-> forall c, In c candidates -> c = []).
Proof.
  intros candidates.
  assert (K : apiKey (getClient e) = first_truthy candidates).
  { unfold getClient, candidates. cbn [apiKey].
    destruct (process_env e) as [pe |], (import_meta_env e) as [me |];
      rewrite ?or_string_first; cbn [default];
      repeat match goal with
             | |- context [default [] (?m !! lit ?k)] =>
                 change (default [] (m !! lit k)) with (variable (Some m) k)
             end;
      change (variable None "API_KEY") with (@nil N);
      change (variable None "GEMINI_API_KEY") with (@nil N);
      change (variable None "VITE_API_KEY") with (@nil N);
      change (variable None "VITE_GEMINI_API_KEY") with (@nil N);
      repeat match goal with
             | |- context [variable (Some ?m) ?k] =>
                 generalize (variable (Some m) k); intros [| ? ?]
             end; reflexivity. }
  split; [exact K | split].
  - change (warned (getClient e)) with (negb (truthy (apiKey (getClient e)))).
    destruct (apiKey (getClient e)); cbn; split; congruence.
  - rewrite K. clear K. generalize candidates. intros l.
    induction l as [| x l IH]; cbn.
    + split; [intros _ c [] | reflexivity].
    + destruct x as [| c0 x]; cbn.
      * rewrite IH. split.
        -- intros H c [<- | Hc]; [reflexivity | now apply H].
        -- intros H c Hc. apply H. now right.
      * split; [discriminate |]. intros H. discriminate (H (c0 :: x) (or_introl eq_refl)).
Qed.

(** ** extractImage and the image requests *)

Lemma first_inline_spec (ps : list Part) (b : jsstring) :
  first_inline ps = Some b <->
  b <> [] /\ exists before after,
    ps = before ++ image_part b :: after /\
    forall p, In p before -> forall d, inlineData p = Some d -> data d = [].
Proof.
  induction ps as [| p ps IH]; cbn [first_inline].
  - split; [discriminate |]. intros (_ & before & after & H & _).
    destruct before; discriminate H.
  - destruct p as [[[d]|]]; cbn [inlineData data].
    + destruct d as [| c d]; cbn [truthy].
      * rewrite IH. split.
        -- intros (Hb & before & after & -> & Hbefore). split; [exact Hb |].
           exists ({| inlineData := Some {| data := [] |} |} :: before), after.
           split; [reflexivity |]. intros p [<- | Hp] d0 Hd; [now injection Hd as <- | eauto].
        -- intros (Hb & before & after & H & Hbefore). split; [exact Hb |].
           destruct before as [| q before].
           ++ injection H as H _. now subst b.
           ++ injection H as _ ->. exists before, after. split; [reflexivity |].
              intros p Hp. apply Hbefore. now right.
      * split.
        -- intros [= <-]. split; [discriminate |]. exists [], ps. split; [reflexivity |].
           intros p [].
        -- intros (Hb & before & after & H & Hbefore).
           destruct before as [| q before].
           ++ now injection H as ->.
           ++ injection H as <- _. discriminate (Hbefore _ (or_introl eq_refl) _ eq_refl).
    + rewrite IH. split.
      * intros (Hb & before & after & -> & Hbefore). split; [exact Hb |].
        exists ({| inlineData := None |} :: before), after.
        split; [reflexivity |]. intros p [<- | Hp] d0 Hd; [discriminate Hd | eauto].
      * intros (Hb & before & after & H & Hbefore). split; [exact Hb |].
        destruct before as [| q before]; [discriminate H |].
        injection H as _ ->. exists before, after. split; [reflexivity |].
        intros p Hp. apply Hbefore. now right.
Qed.

Lemma first_inline_none (ps : list Part) :
  first_inline ps = None <->
  forall p d, In p ps -> inlineData p = Some d -> data d = [].
Proof.
  induction ps as [| p ps IH]; cbn [first_inline].
  - split; [intros _ p d [] | reflexivity].
  - destruct p as [[[d]|]]; cbn [inlineData data].
    + destruct d as [| c d]; cbn [truthy].
      * rewrite IH. split.
        -- intros H p d0 [<- | Hp] Hd; [now injection Hd as <- | eauto].
        -- intros H p d0 Hp. apply H. now right.
      * split; [discriminate |]. intros H.
        discriminate (H _ _ (or_introl eq_refl) eq_refl).
    + rewrite IH. split.
      * intros H p d0 [<- | Hp] Hd; [discriminate Hd | eauto].
      * intros H p d0 Hp. apply H. now right.
Qed.

(** X16. [extractImage] resolves with a string exactly when that string is
    not empty and is the inline data of a part of the first candidate before
    which no part carries non-empty inline data: it takes the first image of
    the first candidate and never reads the other candidates, and it never
    resolves with the empty string. It rejects with "No image data found in
    response." exactly when there is no candidate, or the first candidate
    has parts of which none carries non-empty inline data. A first candidate
    without content, or whose content has no parts, makes it reject with
    another reason, that of the TypeError of the unguarded read. *)
Theorem extractImage_first_image (response : Response) :
  (forall b, extractImage response = Resolved b <->
     b <> [] /\ exists c others ct before after,
       candidates response = Some (c :: others) /\ content c = Some ct /\
       parts ct = Some (before ++ image_part b :: after) /\
       forall p, In p before -> forall d, inlineData p = Some d -> data d = []) /\
  (extractImage response = Rejected (lit "No image data found in response.") <->
     candidates response = None \/ candidates response = Some [] \/
     exists c others ct ps,
       candidates response = Some (c :: others) /\ content c = Some ct /\
       parts ct = Some ps /\
       forall p d, In p ps -> inlineData p = Some d -> data d = []) /\
  (forall c others, candidates response = Some (c :: others) ->
     content c = None \/ (exists ct, content c = Some ct /\ parts ct = None) ->
     exists e, extractImage response = Rejected e /\ e <> [] /\
       e <> lit "No image data found in response.").
Proof.
  unfold extractImage. split; [| split].
  - intros b. destruct (candidates response) as [[| c others] |].
    + split; [discriminate |]. intros (_ & c & o & ct & x & y & H & _). discriminate H.
    + destruct (content c) as [ct |] eqn:Ec.
      * destruct (parts ct) as [ps |] eqn:Ep.
        -- destruct (first_inline ps) as [b0 |] eqn:F.
           ++ split.
              ** intros [= <-]. apply first_inline_spec in F.
                 destruct F as (Hb & before & after & Hp & Hbefore).
                 split; [exact Hb |]. exists c, others, ct, before, after.
                 repeat split; try assumption. now rewrite Ep, Hp.
              ** intros (Hb & c' & o' & ct' & before & after & [= <- <-] & Hc & Hp & Hbefore).
                 rewrite Ec in Hc. injection Hc as <-. rewrite Ep in Hp. injection Hp as ->.
                 assert (F' : first_inline (before ++ image_part b :: after) = Some b).
                 { apply first_inline_spec. split; [exact Hb |]. now exists before, after. }
                 congruence.
           ++ split; [discriminate |].
              intros (Hb & c' & o' & ct' & before & after & [= <- <-] & Hc & Hp & Hbefore).
              rewrite Ec in Hc. injection Hc as <-. rewrite Ep in Hp. injection Hp as ->.
              assert (F' : first_inline (before ++ image_part b :: after) = Some b).
              { apply first_inline_spec. split; [exact Hb |]. now exists before, after. }
              congruence.
        -- split; [discriminate |].
           intros (_ & c' & o' & ct' & x & y & [= <- <-] & Hc & Hp & _).
           rewrite Ec in Hc. injection Hc as <-. rewrite Ep in Hp. discriminate Hp.
      * split; [discriminate |].
        intros (_ & c' & o' & ct' & x & y & [= <- <-] & Hc & _).
        rewrite Ec in Hc. discriminate Hc.
    + split; [discriminate |]. intros (_ & c & o & ct & x & y & H & _). discriminate H.
  - destruct (candidates response) as [[| c others] |].
    + split; [intros _; right; now left | reflexivity].
    + destruct (content c) as [ct |] eqn:Ec.
      * destruct (parts ct) as [ps |] eqn:Ep.
        -- destruct (first_inline ps) as [b0 |] eqn:F.
           ++ split; [discriminate |].
              intros [H | [H | (c' & o' & ct' & ps' & [= <- <-] & Hc & Hp & Hnone)]];
                try discriminate H.
              rewrite Ec in Hc. injection Hc as <-. rewrite Ep in Hp. injection Hp as <-.
              apply first_inline_none in Hnone. congruence.
           ++ split; [| reflexivity]. intros _. right; right.
              exists c, others, ct, ps. repeat split; try assumption.
              now apply first_inline_none.
        -- split; [discriminate |].
           intros [H | [H | (c' & o' & ct' & ps' & [= <- <-] & Hc & Hp & _)]];
             try discriminate H.
           rewrite Ec in Hc. injection Hc as <-. rewrite Ep in Hp. discriminate Hp.
      * split; [discriminate |].
        intros [H | [H | (c' & o' & ct' & ps' & [= <- <-] & Hc & _)]];
          try discriminate H.
        rewrite Ec in Hc. discriminate Hc.
    + split; [intros _; now left | reflexivity].
  - intros c others -> [-> | (ct & -> & ->)]; eexists;
      (split; [reflexivity | split; discriminate]).
Qed.

Lemma extractImage_nonempty (response : Response) (b : jsstring) :
  extractImage response = Resolved b -> b <> [].
Proof.
  unfold extractImage.
  destruct (candidates response) as [[| c others] |]; try discriminate.
  destruct (content c) as [ct |]; [| discriminate].
  destruct (parts ct) as [ps |]; [| discriminate].
  destruct (first_inline ps) as [b0 |] eqn:F; [| discriminate].
  intros [= <-]. now apply first_inline_spec in F.
Qed.

(** Whatever the response, [extractImage] resolves or rejects with a reason
    that is not empty. *)
Lemma extractImage_total (response : Response) :
  (forall b, extractImage response <> Resolved b) ->
  exists e, extractImage response = Rejected e /\ e <> [].
Proof.
  unfold extractImage. intros Hnone.
  destruct (candidates response) as [[| c others] |];
    try (eexists; split; [reflexivity | discriminate]).
  destruct (content c) as [ct |]; [| eexists; split; [reflexivity | discriminate]].
  destruct (parts ct) as [ps |]; [| eexists; split; [reflexivity | discriminate]].
  destruct (first_inline ps) as [v |]; [now destruct (Hnone v) |].
  eexists; split; [reflexivity | discriminate].
Qed.

(** X17. Each of the three image requests resolves only with a non-empty
    base64 string, the first image of the response to its own request; a
    rejection of the API is passed on with its reason unchanged, and a
    response from which no image is extracted is a rejection too, with the
    reason [extractImage] gives, which is never empty. None of them falls
    back to a default. *)
Theorem image_requests_outcomes (api : Api) (params : MemePromptParams) :
  let calls := [ (generateMemeImage api params, GridRequest params);
                 (generateBanner api params, BannerRequest params);
                 (generateLogo api params, LogoRequest params) ] in
  forall call req, In (call, req) calls ->
    sent call = req /\
    (forall b, result call = Resolved b ->
       b <> [] /\ exists response,
         generateContent api req = Resolved response /\ extractImage response = Resolved b) /\
    (forall e, generateContent api req = Rejected e -> result call = Rejected e) /\
    (forall response, generateContent api req = Resolved response ->
       (forall b, extractImage response <> Resolved b) ->
       exists e, result call = Rejected e /\ extractImage response = Rejected e /\ e <> []).
Proof.
  intros calls call req Hin.
  assert (G : forall r, call = image_call api r -> req = r ->
            sent call = req /\
            (forall b, result call = Resolved b ->
               b <> [] /\ exists response,
                 generateContent api req = Resolved response /\
                 extractImage response = Resolved b) /\
            (forall e, generateContent api req = Rejected e -> result call = Rejected e) /\
            (forall response, generateContent api req = Resolved response ->
               (forall b, extractImage response <> Resolved b) ->
               exists e, result call = Rejected e /\ extractImage response = Rejected e /\
                 e <> [])).
  { intros r -> ->. unfold image_call. cbn [sent result].
    split; [reflexivity | split; [| split]].
    - intros b. destruct (generateContent api r) as [response | e]; [| discriminate].
      intros Hb. split.
      + now apply (extractImage_nonempty response).
      + now exists response.
    - now intros e ->.
    - intros response -> Hnone.
      destruct (extractImage_total response Hnone) as (e & He & Hne).
      exists e. repeat split; assumption. }
  destruct Hin as [[= <- <-] | [[= <- <-] | [[= <- <-] | []]]];
    [apply (G (GridRequest params)) | apply (G (BannerRequest params))
     | apply (G (LogoRequest params))]; reflexivity.
Qed.

(** ** generateMemeMetadata *)

(** X18. [generateMemeMetadata] rejects exactly when the API call itself
    rejects, and then with the same reason: nothing in a response, not its
    text nor its absence, makes it reject, since only the parsing is inside
    the try block. *)
Theorem generateMemeMetadata_rejects_iff (api : Api) (params : MemePromptParams)
    (e : jsstring) :
  sent (generateMemeMetadata api params) = MetadataRequest params /\
  (result (generateMemeMetadata api params) = Rejected e <->
   generateContent api (MetadataRequest params) = Rejected e).
Proof.
  unfold generateMemeMetadata. cbn [sent result]. split; [reflexivity |].
  destruct (generateContent api (MetadataRequest params)) as [response | e0].
  - split; discriminate.
  - split; intros [= ->]; reflexivity.
Qed.

(** X19. The fallback value has both fields as strings: the title
    "创意表情包", and as description a prefix of the prompt of at most 100
    code units, the whole prompt when it has no more than 100. Read as text
    for info.txt, the two fields are those strings. *)
Theorem fallback_metadata_fields (h : NumberHost) (params : MemePromptParams) :
  let d := firstn 100 (userPrompt params) in
  Get (fallback_metadata params) (lit "title") =
    Some (JString [21019; 24847; 34920; 24773; 21253]%N) /\
  Get (fallback_metadata params) (lit "description") = Some (JString d) /\
  ToString_opt h (Get (fallback_metadata params) (lit "description")) = Some d /\
  ToBoolean h (fallback_metadata params) = true /\
  List.length d = Nat.min 100 (List.length (userPrompt params)) /\
  (exists rest, userPrompt params = d ++ rest) /\
  ((List.length (userPrompt params) <= 100)%nat -> d = userPrompt params).
Proof.
  intros d. repeat split.
  - apply length_firstn.
  - exists (skipn 100 (userPrompt params)). symmetry. apply firstn_skipn.
  - intros Hlen. now apply firstn_all2.
Qed.

Lemma image_requests_outcomes_witness :
  lit "AAAA" <> [] /\
  sent (generateBanner metadata_down_api sample_params) = BannerRequest sample_params.
Proof.
  destruct (image_requests_outcomes metadata_down_api sample_params
              (generateBanner metadata_down_api sample_params) (BannerRequest sample_params)
              (or_intror (or_introl eq_refl))) as (Hsent & Hres & _).
  split; [| exact Hsent].
  exact (proj1 (Hres (lit "AAAA") eq_refl)).
Defined.

(** ** handleGenerate *)

Lemma trimStart_blank (s : jsstring) :
  forallb is_js_space s = true -> trimStart s = [].
Proof.
  induction s as [| c s IH]; [reflexivity |].
  cbn [forallb trimStart]. rewrite andb_true_iff. intros [-> Hs]. now apply IH.
Qed.

Lemma trim_blank (s : jsstring) :
  forallb is_js_space s = true -> trim s = [].
Proof. intros H. unfold trim. rewrite (trimStart_blank s H). reflexivity. Qed.

(** X20. A prompt that is empty or made only of white space is refused
    before anything happens: [handleGenerate] sets the message "请输入提示词
    来描述您的表情包。", sends no request and leaves the status and every
    asset of the state as they were. *)
Theorem handleGenerate_blank_prompt (w : World) (s : State) :
  forallb is_js_space (prompt s) = true ->
  let s' := fst (handleGenerate w s) in
  snd (handleGenerate w s) = [] /\
  errorMsg s' = Some [35831; 36755; 20837; 25552; 31034; 35789; 26469; 25551; 36848;
                      24744; 30340; 34920; 24773; 21253; 12290]%N /\
  status s' = status s /\ statusMessage s' = statusMessage s /\
  originalImage s' = originalImage s /\ slicedImages s' = slicedImages s /\
  banner s' = banner s /\ logo s' = logo s /\ metaData s' = metaData s.
Proof.
  intros Hblank s'. subst s'. unfold handleGenerate.
  rewrite (trim_blank _ Hblank). cbn [truthy negb fst snd].
  repeat split.
Qed.

Lemma handleGenerate_blank_prompt_witness :
  snd (handleGenerate (sample_world metadata_down_api) (initial_state (lit "  "))) = [] /\
  status (fst (handleGenerate (sample_world metadata_down_api) (initial_state (lit "  ")))) = IDLE.
Proof.
  destruct (handleGenerate_blank_prompt (sample_world metadata_down_api)
              (initial_state (lit "  ")) eq_refl) as (Hreq & _ & Hst & _).
  split; [exact Hreq | exact Hst].
Defined.

Lemma prepare_params_prompt (s : State) (params : MemePromptParams) :
  prepare_params s = Resolved params -> userPrompt params = prompt s.
Proof.
  unfold prepare_params. destruct (refImage s) as [file |].
  - destruct (fileToBase64 file) as [refBase64 | e]; [| discriminate].
    now intros [= <-].
  - now intros [= <-].
Qed.

Lemma generate_all_requests (w : World) (params : MemePromptParams) (s : State) :
  snd (generate_all w params s) =
  [GridRequest params; BannerRequest params; LogoRequest params; MetadataRequest params].
Proof.
  unfold generate_all.
  destruct (Promise_all4 _ _ _ _) as [[[[m b] l] meta] | e]; reflexivity.
Qed.

(** X21. [handleGenerate] sends either no request at all or all four, never
    only some of them: none when the prompt is blank, the key step rejects
    or the reference image cannot be read; otherwise the grid, banner, logo
    and metadata requests, all with the same parameters, whose prompt is the
    prompt of the state as typed, untrimmed. *)
Theorem handleGenerate_requests_none_or_four (w : World) (s : State) :
  snd (handleGenerate w s) = [] \/
  exists params,
    prepare_params s = Resolved params /\ userPrompt params = prompt s /\
    snd (handleGenerate w s) =
      [GridRequest params; BannerRequest params; LogoRequest params; MetadataRequest params].
Proof.
  unfold handleGenerate.
  destruct (negb (truthy (trim (prompt s)))); [now left |].
  destruct (ensureApiKey (aistudio w)); [| now left].
  change (prepare_params _) with (prepare_params s).
  destruct (prepare_params s) as [params | e] eqn:Hp; [| now left].
  right. exists params. split; [reflexivity | split].
  - now apply prepare_params_prompt.
  - apply generate_all_requests.
Qed.

Lemma sliceMemeGrid_resolved_length (env : Env) (imageBase64 : jsstring)
    (slices : list SlicedImage) :
  sliceMemeGrid env imageBase64 = Resolved slices -> List.length slices = 24%nat.
Proof.
  unfold sliceMemeGrid.
  destruct (decode env (data_url imageBase64)) as [img |]; [| discriminate].
  destruct (has_context env); [| discriminate].
  cbn [negb]. intros [= <-].
  rewrite <- (length_map fileName), (proj1 (slice_loop_names img)). reflexivity.
Qed.

Lemma Promise_all4_resolves {A B C D} (a : Call A) (b : Call B) (c : Call C) (d : Call D)
    (x : A) (y : B) (z : C) (t : D) :
  result a = Resolved x -> result b = Resolved y ->
  result c = Resolved z -> result d = Resolved t ->
  Promise_all4 a b c d = Resolved (x, y, z, t).
Proof. intros Ha Hb Hc Hd. unfold Promise_all4. now rewrite Ha, Hb, Hc, Hd. Qed.

(** The state [process_assets] ends in: complete with everything stored, or
    in error. *)
Lemma process_assets_settles (w : World) (m b l : jsstring) (meta : json) (s : State) :
  let s' := process_assets w m b l meta s in
  (status s' = COMPLETE /\ errorMsg s' = errorMsg s /\ statusMessage s' = [] /\
   List.length (slicedImages s') = 24%nat /\
   banner s' <> None /\ logo s' <> None /\ originalImage s' = Some m) \/
  (status s' = ERROR /\ exists msg, errorMsg s' = Some msg /\ truthy msg = true).
Proof.
  intros s'. subst s'. unfold process_assets.
  destruct (sliceMemeGrid (env w) m) as [slices | e1] eqn:Hs.
  - destruct (processImage (env w) b (750 # 1) (400 # 1) (lit "banner.png")) as [ba | e2].
    + destruct (processImage (env w) l (512 # 1) (512 # 1) (lit "logo.png")) as [lo | e3].
      * left. cbn. rewrite (sliceMemeGrid_resolved_length _ _ _ Hs).
        repeat split; discriminate.
      * right. match goal with |- context [on_error e3 ?t] =>
          destruct (on_error_state e3 t) as (Hst & Hmsg & _) end. now split.
    + right. match goal with |- context [on_error e2 ?t] =>
        destruct (on_error_state e2 t) as (Hst & Hmsg & _) end. now split.
  - right. match goal with |- context [on_error e1 ?t] =>
      destruct (on_error_state e1 t) as (Hst & Hmsg & _) end. now split.
Qed.

(** X22. With a prompt that is not blank, [handleGenerate] never ends in
    GENERATING or PROCESSING: it ends in COMPLETE, with no error message, an
    empty status message, 24 slices, a banner, a logo and the composite, or
    in ERROR with an error message that is not empty. So the button is never
    left disabled. *)
Theorem handleGenerate_settles (w : World) (s : State) :
  truthy (trim (prompt s)) = true ->
  let s' := fst (handleGenerate w s) in
  (status s' = COMPLETE /\ errorMsg s' = None /\ statusMessage s' = [] /\
   List.length (slicedImages s') = 24%nat /\
   banner s' <> None /\ logo s' <> None /\ originalImage s' <> None) \/
  (status s' = ERROR /\ exists msg, errorMsg s' = Some msg /\ truthy msg = true).
Proof.
  intros Hprompt s'. subst s'. unfold handleGenerate. rewrite Hprompt. cbn [negb].
  destruct (ensureApiKey (aistudio w)) as [ok | e].
  - destruct (prepare_params _) as [params | e].
    + unfold generate_all.
      destruct (Promise_all4 _ _ _ _) as [[[[m b] l] meta] | e]; cbn [fst].
      * match goal with |- context [process_assets w m b l meta ?t] =>
          destruct (process_assets_settles w m b l meta t)
            as [(H1 & H2 & H3 & H4 & H5 & H6 & H7) | H] end.
        -- left. repeat split; try assumption. rewrite H7. discriminate.
        -- now right.
      * right. match goal with |- context [on_error e ?t] =>
          destruct (on_error_state e t) as (Hst & Hmsg & _) end. now split.
    + right. cbn [fst]. match goal with |- context [on_error e ?t] =>
        destruct (on_error_state e t) as (Hst & Hmsg & _) end. now split.
  - right. cbn [fst]. match goal with |- context [on_error e ?t] =>
      destruct (on_error_state e t) as (Hst & Hmsg & _) end. now split.
Qed.

Lemma handleGenerate_settles_witness :
  status (fst (handleGenerate (sample_world metadata_down_api)
                 (initial_state (lit "a cat at work")))) = ERROR.
Proof.
  destruct (handleGenerate_settles (sample_world metadata_down_api)
              (initial_state (lit "a cat at work")) eq_refl)
    as [(H & _) | (H & _)]; [discriminate H | exact H].
Defined.

Section AfterGeneration.

Variables (w : World) (s : State) (params : MemePromptParams) (ok : bool).
Variables (m b l : jsstring) (meta : json).
Hypothesis Hprompt : truthy (trim (prompt s)) = true.
Hypothesis Hkey : ensureApiKey (aistudio w) = Resolved ok.
Hypothesis Hparams : prepare_params s = Resolved params.
Hypothesis Hgrid : result (generateMemeImage (api w) params) = Resolved m.
Hypothesis Hbanner : result (generateBanner (api w) params) = Resolved b.
Hypothesis Hlogo : result (generateLogo (api w) params) = Resolved l.
Hypothesis Hmeta : result (generateMemeMetadata (api w) params) = Resolved meta.

Lemma handleGenerate_generated :
  exists s0,
    fst (handleGenerate w s) = process_assets w m b l meta s0 /\
    originalImage s0 = originalImage s /\ slicedImages s0 = slicedImages s /\
    banner s0 = banner s /\ logo s0 = logo s /\ metaData s0 = metaData s /\
    errorMsg s0 = None.
Proof.
  unfold handleGenerate. rewrite Hprompt, Hkey. cbn [negb].
  change (prepare_params _) with (prepare_params s). rewrite Hparams.
  unfold generate_all.
  rewrite (Promise_all4_resolves _ _ _ _ m b l meta Hgrid Hbanner Hlogo Hmeta).
  cbn [fst]. eexists. split; [reflexivity |]. repeat split.
Qed.

(** X23. When the four calls resolve, the three images decode and a 2D
    context is there, [handleGenerate] ends in COMPLETE with no error
    message; the state holds the composite and the metadata as received, the
    24 slices of the composite, a banner of 750 by 400 pixels called
    banner.png and a logo of 512 by 512 pixels called logo.png, both PNG,
    whatever the sizes of the images received. *)
Theorem handleGenerate_complete_state (im ib il : RasterImage) :
  decode (env w) (data_url m) = Some im ->
  decode (env w) (data_url b) = Some ib ->
  decode (env w) (data_url l) = Some il ->
  has_context (env w) = true ->
  let s' := fst (handleGenerate w s) in
  status s' = COMPLETE /\ errorMsg s' = None /\ statusMessage s' = [] /\
  originalImage s' = Some m /\ metaData s' = Some meta /\
  slicedImages s' = slice_loop im /\
  exists ba lo,
    banner s' = Some ba /\ logo s' = Some lo /\
    asset_type ba = ImageUtils.banner /\ asset_fileName ba = lit "banner.png" /\
    mime (asset_blob ba) = lit "image/png" /\
    bm_width (bitmap (asset_blob ba)) = 750%Z /\ bm_height (bitmap (asset_blob ba)) = 400%Z /\
    asset_type lo = ImageUtils.logo /\ asset_fileName lo = lit "logo.png" /\
    mime (asset_blob lo) = lit "image/png" /\
    bm_width (bitmap (asset_blob lo)) = 512%Z /\ bm_height (bitmap (asset_blob lo)) = 512%Z.
Proof.
  intros Dm Db Dl Hctx s'. subst s'.
  destruct handleGenerate_generated as (s0 & -> & _ & _ & _ & _ & _ & He).
  unfold process_assets. rewrite (sliceMemeGrid_resolves _ _ im Dm Hctx).
  unfold processImage. rewrite Db, Dl, Hctx. cbn [negb].
  cbn [status errorMsg statusMessage originalImage metaData slicedImages banner logo
       setStatus setStatusMessage setErrorMsg setOriginalImage setMetaData
       setSlicedImages setBanner setLogo].
  split; [reflexivity | split; [exact He |]].
  split; [reflexivity | split; [reflexivity | split; [reflexivity | split; [reflexivity |]]]].
  eexists. eexists. split; [reflexivity | split; [reflexivity |]].
  cbn [asset_type asset_fileName asset_blob mime bitmap bitmap_of bm_width bm_height].
  destruct (cover_canvas_size (750 # 1) (400 # 1) ib) as [-> ->].
  destruct (cover_canvas_size (512 # 1) (512 # 1) il) as [-> ->].
  repeat split.
Qed.

(** X24. A failure after the four calls have resolved leaves a part of the
    batch in the state. When the composite does not decode, the handler ends
    in ERROR with the slicer's message, but the new composite and metadata
    are stored and the result panel is shown, beside the slices, banner and
    logo of before. When the composite decodes and the banner does not, the
    new slices are stored too and the banner and logo of before stay. *)
Theorem handleGenerate_processing_failure_keeps_parts :
  let s' := fst (handleGenerate w s) in
  (decode (env w) (data_url m) = None ->
   status s' = ERROR /\
   errorMsg s' = Some [21152; 36733; 29983; 25104; 30340; 22270; 29255; 22833; 36133;
                       65292; 26080; 27861; 20999; 29255; 12290]%N /\
   originalImage s' = Some m /\ metaData s' = Some meta /\ results_shown s' = true /\
   slicedImages s' = slicedImages s /\ banner s' = banner s /\ logo s' = logo s) /\
  (forall im, decode (env w) (data_url m) = Some im -> has_context (env w) = true ->
   decode (env w) (data_url b) = None ->
   status s' = ERROR /\ errorMsg s' = Some (lit "Image processing failed") /\
   originalImage s' = Some m /\ metaData s' = Some meta /\
   slicedImages s' = slice_loop im /\ banner s' = banner s /\ logo s' = logo s).
Proof.
  intros s'. subst s'.
  destruct handleGenerate_generated as (s0 & -> & Ho & Hsl & Hb & Hl & Hm & He).
  assert (Tm : truthy m = true).
  { unfold generateMemeImage, image_call in Hgrid. cbn [result] in Hgrid.
    destruct (generateContent (api w) (GridRequest params)) as [response | e];
      [| discriminate].
    apply extractImage_nonempty in Hgrid. now destruct m. }
  unfold process_assets. split.
  - intros Dm. unfold sliceMemeGrid. rewrite Dm.
    cbn. unfold results_shown. cbn. rewrite Tm, Hsl, Hb, Hl. repeat split.
  - intros im Dm Hctx Db. rewrite (sliceMemeGrid_resolves _ _ im Dm Hctx).
    unfold processImage. rewrite Db. cbn. rewrite Hb, Hl. repeat split.
Qed.

End AfterGeneration.

Lemma handleGenerate_complete_state_witness :
  let s' := fst (handleGenerate (sample_world image_api) (initial_state (lit "a cat at work"))) in
  status s' = COMPLETE /\ slicedImages s' = slice_loop (sample_image 3840 2160).
Proof.
  intros s'.
  destruct (handleGenerate_complete_state (sample_world image_api)
              (initial_state (lit "a cat at work")) sample_params true
              (lit "AAAA") (lit "AAAA") (lit "AAAA") (JObject [])
              eq_refl eq_refl eq_refl eq_refl eq_refl eq_refl eq_refl
              (sample_image 3840 2160) (sample_image 3840 2160) (sample_image 3840 2160)
              eq_refl eq_refl eq_refl eq_refl)
    as (Hst & _ & _ & _ & _ & Hsl & _).
  split; [exact Hst | exact Hsl].
Defined.

Lemma handleGenerate_processing_failure_keeps_parts_witness :
  let s' := fst (handleGenerate broken_world (initial_state (lit "a cat at work"))) in
  status s' = ERROR /\ originalImage s' = Some (lit "AAAA") /\ results_shown s' = true.
Proof.
  intros s'.
  destruct (proj1 (handleGenerate_processing_failure_keeps_parts broken_world
                     (initial_state (lit "a cat at work")) sample_params true
                     (lit "AAAA") (lit "AAAA") (lit "AAAA") (JObject [])
                     eq_refl eq_refl eq_refl eq_refl eq_refl eq_refl eq_refl) eq_refl)
    as (Hst & _ & Ho & _ & Hshown & _).
  split; [exact Hst | split; [exact Ho | exact Hshown]].
Defined.

(** X25. The message shown after a failed generation step is the reason of
    one of the calls that rejected, or the default text "生成过程中发生意外
    错误。" when that reason is empty. *)
Theorem handleGenerate_shows_a_call_reason (w : World) (s : State)
    (params : MemePromptParams) (ok : bool) :
  truthy (trim (prompt s)) = true ->
  ensureApiKey (aistudio w) = Resolved ok ->
  prepare_params s = Resolved params ->
  ((exists e, result (generateMemeImage (api w) params) = Rejected e) \/
   (exists e, result (generateBanner (api w) params) = Rejected e) \/
   (exists e, result (generateLogo (api w) params) = Rejected e) \/
   (exists e, result (generateMemeMetadata (api w) params) = Rejected e)) ->
  exists e,
    (result (generateMemeImage (api w) params) = Rejected e \/
     result (generateBanner (api w) params) = Rejected e \/
     result (generateLogo (api w) params) = Rejected e \/
     result (generateMemeMetadata (api w) params) = Rejected e) /\
    errorMsg (fst (handleGenerate w s)) =
      Some (if truthy e then e
            else [29983; 25104; 36807; 31243; 20013; 21457; 29983; 24847;
                  22806; 38169; 35823; 12290]%N).
Proof.
  intros Hprompt Hkey Hparams Hrej.
  unfold handleGenerate. rewrite Hprompt, Hkey. cbn [negb].
  change (prepare_params _) with (prepare_params s). rewrite Hparams.
  unfold generate_all.
  destruct (Promise_all4_rejects _ _ _ _ Hrej) as [e He].
  rewrite He. exists e. split; [now apply Promise_all4_reason | reflexivity].
Qed.

Lemma handleGenerate_shows_a_call_reason_witness :
  errorMsg (fst (handleGenerate (sample_world metadata_down_api)
                   (initial_state (lit "a cat at work")))) =
  Some (lit "503 Service Unavailable").
Proof.
  destruct (handleGenerate_shows_a_call_reason (sample_world metadata_down_api)
              (initial_state (lit "a cat at work")) sample_params true
              eq_refl eq_refl eq_refl) as (e & _ & He).
  - right; right; right. eexists. reflexivity.
  - reflexivity.
Defined.

(** ** handleFileChange, reset *)

(** X26. Choosing a file the reader cannot read stores it as reference image
    all the same, without a preview; every later [handleGenerate] then ends
    in ERROR with the default message "生成过程中发生意外错误。" (the reader's
    error has no message) and sends no request. *)
Theorem unreadable_reference_blocks_generation (w : World) (s : State)
    (file : File) (others : list File) (ok : bool) :
  file_dataURL file = None ->
  truthy (trim (prompt s)) = true ->
  ensureApiKey (aistudio w) = Resolved ok ->
  let s1 := handleFileChange (file :: others) s in
  refImage s1 = Some file /\ refImagePreview s1 = refImagePreview s /\
  snd (handleGenerate w s1) = [] /\
  status (fst (handleGenerate w s1)) = ERROR /\
  errorMsg (fst (handleGenerate w s1)) =
    Some [29983; 25104; 36807; 31243; 20013; 21457; 29983; 24847;
          22806; 38169; 35823; 12290]%N.
Proof.
  intros Hfile Hprompt Hkey s1. subst s1.
  unfold handleFileChange. rewrite Hfile.
  split; [reflexivity | split; [reflexivity |]].
  unfold handleGenerate. cbn [prompt setRefImage]. rewrite Hprompt, Hkey. cbn [negb].
  unfold prepare_params, fileToBase64. cbn [refImage setRefImage setErrorMsg setStatus
    setStatusMessage]. rewrite Hfile.
  repeat split.
Qed.

Lemma unreadable_reference_blocks_generation_witness :
  status (fst (handleGenerate (sample_world image_api)
                 (handleFileChange [unreadable_file] (initial_state (lit "a cat at work"))))) =
  ERROR.
Proof.
  exact (proj1 (proj2 (proj2 (proj2
    (unreadable_reference_blocks_generation (sample_world image_api)
       (initial_state (lit "a cat at work")) unreadable_file [] true
       eq_refl eq_refl eq_refl))))).
Defined.

(** X27. The reference image chosen is the one sent: after
    [handleFileChange] on a file whose data URL is a header, a comma and a
    payload, the file is the reference image and its data URL the preview,
    and the parameters [handleGenerate] builds carry the payload as base64
    and the file's type as media type, beside the prompt; without a file,
    the state is unchanged. *)
Theorem chosen_reference_is_sent (s : State) (file : File) (others : list File)
    (header payload : jsstring) :
  file_dataURL file = Some (header ++ 44%N :: payload) ->
  ~ In 44%N header -> ~ In 44%N payload ->
  let s1 := handleFileChange (file :: others) s in
  refImage s1 = Some file /\
  refImagePreview s1 = Some (header ++ 44%N :: payload) /\
  prompt s1 = prompt s /\
  prepare_params s1 =
    Resolved {| userPrompt := prompt s;
                referenceImageBase64 := Some payload;
                referenceImageMimeType := Some (file_type file) |} /\
  handleFileChange [] s = s.
Proof.
  intros Hfile Hh Hp s1. subst s1. unfold handleFileChange. rewrite Hfile.
  split; [reflexivity | split; [reflexivity | split; [reflexivity | split; [| reflexivity]]]].
  unfold prepare_params, fileToBase64.
  cbn [refImage prompt setRefImage setRefImagePreview]. rewrite Hfile.
  rewrite split_comma_1_prefix by assumption. now rewrite until_comma_plain.
Qed.

Lemma chosen_reference_is_sent_witness :
  prepare_params (handleFileChange [sample_file (lit "image/jpeg") (data_url (lit "QUJD"))]
                    (initial_state (lit "a cat at work"))) =
  Resolved {| userPrompt := lit "a cat at work";
              referenceImageBase64 := Some (lit "QUJD");
              referenceImageMimeType := Some (lit "image/jpeg") |}.
Proof.
  refine (proj1 (proj2 (proj2 (proj2
    (chosen_reference_is_sent (initial_state (lit "a cat at work"))
       (sample_file (lit "image/jpeg") (data_url (lit "QUJD"))) []
       (lit "data:image/png;base64") (lit "QUJD") eq_refl _ _)))));
    cbn; intuition discriminate.
Defined.

(** X28. "Start over" after a completed run brings the component back to a
    fresh one: when [handleGenerate] on a prompt that is not blank ends in
    COMPLETE, [reset] of the result is [reset] of the state before, with an
    empty status message; the result panel is not shown any more, and the
    prompt and the reference image are kept. From a state that has generated
    nothing yet this is that very state. *)
Theorem reset_after_complete (w : World) (s : State) :
  truthy (trim (prompt s)) = true ->
  status (fst (handleGenerate w s)) = COMPLETE ->
  reset (fst (handleGenerate w s)) = setStatusMessage [] (reset s) /\
  results_shown (reset (fst (handleGenerate w s))) = false /\
  prompt (reset (fst (handleGenerate w s))) = prompt s /\
  refImage (reset (fst (handleGenerate w s))) = refImage s /\
  (forall text, s = initial_state text -> reset (fst (handleGenerate w s)) = s).
Proof.
  intros Hprompt Hdone.
  assert (R : reset (fst (handleGenerate w s)) = setStatusMessage [] (reset s)).
  { revert Hdone. unfold handleGenerate. rewrite Hprompt. cbn [negb].
    destruct (ensureApiKey (aistudio w)) as [ok | e]; [| discriminate].
    destruct (prepare_params _) as [params | e]; [| discriminate].
    unfold generate_all.
    destruct (Promise_all4 _ _ _ _) as [[[[m b] l] meta] | e]; [| discriminate].
    cbn [fst]. unfold process_assets.
    destruct (sliceMemeGrid (env w) m) as [slices | e1]; [| discriminate].
    destruct (processImage (env w) b (750 # 1) (400 # 1) (lit "banner.png")) as [ba | e2];
      [| discriminate].
    destruct (processImage (env w) l (512 # 1) (512 # 1) (lit "logo.png")) as [lo | e3];
      [| discriminate].
    intros _. reflexivity. }
  rewrite R. split; [reflexivity | split; [reflexivity | split; [reflexivity |]]].
  split; [reflexivity |]. intros text ->. reflexivity.
Qed.

Lemma reset_after_complete_witness :
  reset (fst (handleGenerate (sample_world image_api) (initial_state (lit "a cat at work")))) =
  initial_state (lit "a cat at work").
Proof.
  exact (proj2 (proj2 (proj2 (proj2
    (reset_after_complete (sample_world image_api) (initial_state (lit "a cat at work"))
       eq_refl eq_refl)))) (lit "a cat at work") eq_refl).
Defined.

(** ** handleDownloadAll *)

Lemma slice_loop_plain (img : RasterImage) (s : SlicedImage) :
  In s (slice_loop img) -> plain_name (fileName s).
Proof.
  intros Hs. apply in_slice_loop in Hs. destruct Hs as (row & col & Hrow & Hcol & ->).
  unfold ROWS in Hrow. unfold COLS in Hcol.
  destruct row as [| [| [| [| ?]]]]; try lia;
    destruct col as [| [| [| [| [| [| ?]]]]]]; try lia;
    (split; [discriminate | cbn; unfold slash; intuition discriminate]).
Qed.

Lemma slice_loop_keys_distinct (img : RasterImage) :
  List.NoDup (List.map (fun s => lit "stickers/" ++ fileName s) (slice_loop img)).
Proof.
  rewrite <- (map_map fileName (fun n => lit "stickers/" ++ n)).
  apply Finite.Injective_map_NoDup; [intros x y E; now apply app_inv_head in E |].
  rewrite (proj1 (slice_loop_names img)).
  apply (NoDup_ListNoDup (List.map meme_name (seq 1 24))).
  apply (bool_decide_unpack _). vm_compute. reflexivity.
Qed.

Lemma cell_slice_name (img : RasterImage) (row col : nat) :
  (row < ROWS)%nat -> (col < COLS)%nat ->
  fileName (cell_slice img row col) = meme_name (row * COLS + col + 1).
Proof.
  intros Hrow Hcol. unfold ROWS in Hrow. unfold COLS in Hcol.
  destruct row as [| [| [| [| ?]]]]; try lia;
    destruct col as [| [| [| [| [| [| ?]]]]]]; try lia; reflexivity.
Qed.

(** What [handleDownloadAll] passes on, when it saves anything. *)
Lemma handleDownloadAll_batch (h : NumberHost) (s : State) (d : Download) :
  handleDownloadAll h s = Some d ->
  exists metaData,
    d = downloadBatch (slicedImages s)
          (match banner s with Some x => [x] | None => [] end ++
           match logo s with Some x => [x] | None => [] end) metaData.
Proof.
  unfold handleDownloadAll.
  assert (E : (match logo s with
               | Some l => match banner s with Some b => [] ++ [b] | None => [] end ++ [l]
               | None => match banner s with Some b => [] ++ [b] | None => [] end
               end) =
              match banner s with Some x => [x] | None => [] end ++
              match logo s with Some x => [x] | None => [] end).
  { destruct (banner s), (logo s); reflexivity. }
  rewrite E. clear E.
  destruct (metaData s) as [v |].
  - destruct (ToBoolean h v).
    + destruct (ToString_opt h (Get v (lit "title"))) as [t |]; [| discriminate].
      destruct (ToString_opt h (Get v (lit "description"))) as [de |]; [| discriminate].
      intros [= <-]. eexists. reflexivity.
    + intros [= <-]. eexists. reflexivity.
  - intros [= <-]. eexists. reflexivity.
Qed.

(** X29. After a completed generation the download holds the whole batch:
    for a state with the 24 slices of a composite, a banner called
    banner.png and a logo called logo.png, whatever [handleDownloadAll]
    saves is called meme_pack.zip and holds, for every cell, the slice of
    the cell under stickers/meme_NN.png with NN its index, and the banner and
    the logo at the root, whatever the metadata is. *)
Theorem handleDownloadAll_whole_batch (h : NumberHost) (s : State) (img : RasterImage)
    (ba lo : MarketingAsset) (d : Download) :
  slicedImages s = slice_loop img ->
  banner s = Some ba -> asset_fileName ba = lit "banner.png" ->
  logo s = Some lo -> asset_fileName lo = lit "logo.png" ->
  handleDownloadAll h s = Some d ->
  saved_as d = lit "meme_pack.zip" /\
  (forall row col, (row < ROWS)%nat -> (col < COLS)%nat ->
     archive d !! (lit "stickers/" ++ meme_name (row * COLS + col + 1)) =
       Some (BlobFile (blob (cell_slice img row col)))) /\
  archive d !! lit "banner.png" = Some (BlobFile (asset_blob ba)) /\
  archive d !! lit "logo.png" = Some (BlobFile (asset_blob lo)).
Proof.
  intros Hsl Hb Hbn Hl Hln Hd.
  destruct (handleDownloadAll_batch h s d Hd) as [metaData ->].
  rewrite Hsl, Hb, Hl. cbn [app].
  assert (Pa : forall a, In a [ba; lo] -> plain_name (asset_fileName a)).
  { intros a [<- | [<- | []]]; [rewrite Hbn | rewrite Hln];
      (split; [discriminate | cbn; unfold slash; intuition discriminate]). }
  split.
  { unfold downloadBatch. destruct (folder [] (lit "stickers") ∅). reflexivity. }
  rewrite (downloadBatch_archive (slice_loop img) [ba; lo] metaData
             (slice_loop_plain img) Pa).
  set (written := insert_all asset_fileName _ [ba; lo] _).
  assert (Ws : forall row col, (row < ROWS)%nat -> (col < COLS)%nat ->
            written !! (lit "stickers/" ++ meme_name (row * COLS + col + 1)) =
            Some (BlobFile (blob (cell_slice img row col)))).
  { intros row col Hrow Hcol. unfold written.
    rewrite insert_all_other.
    - rewrite <- (cell_slice_name img row col Hrow Hcol).
      apply (insert_all_member (fun s => lit "stickers/" ++ fileName s)
               (fun s => BlobFile (blob s))); [apply slice_loop_keys_distinct |].
      apply list_elem_of_In.
      apply (list_elem_of_lookup_2 _ (row * COLS + col)).
      now apply slice_loop_lookup.
    - cbn [List.map]. rewrite Hbn, Hln. intros [E | [E | []]]; discriminate E. }
  assert (Wb : written !! lit "banner.png" = Some (BlobFile (asset_blob ba))).
  { unfold written. rewrite <- Hbn.
    apply (insert_all_member asset_fileName (fun a => BlobFile (asset_blob a))); [| now left].
    cbn [List.map]. rewrite Hbn, Hln.
    repeat constructor; cbn; intuition discriminate. }
  assert (Wl : written !! lit "logo.png" = Some (BlobFile (asset_blob lo))).
  { unfold written. rewrite <- Hln.
    apply (insert_all_member asset_fileName (fun a => BlobFile (asset_blob a)));
      [| right; now left].
    cbn [List.map]. rewrite Hbn, Hln.
    repeat constructor; cbn; intuition discriminate. }
  destruct metaData as [m |].
  - split; [| split].
    + intros row col Hrow Hcol. rewrite lookup_insert_ne; [now apply Ws |].
      apply plain_not_under_stickers, info_name_plain.
    + rewrite lookup_insert_ne; [exact Wb | discriminate].
    + rewrite lookup_insert_ne; [exact Wl | discriminate].
  - split; [exact Ws | split; [exact Wb | exact Wl]].
Qed.

Lemma handleDownloadAll_whole_batch_witness :
  archive (downloadBatch (slice_loop (sample_image 12 8)) sample_assets None)
    !! (lit "stickers/" ++ meme_name (1 * COLS + 1 + 1)) =
  Some (BlobFile (blob (cell_slice (sample_image 12 8) 1 1))).
Proof.
  assert (T1 : slicedImages completed_state = slice_loop (sample_image 12 8))
    by reflexivity.
  assert (T2 : banner completed_state = Some (sample_asset (lit "banner.png")))
    by reflexivity.
  assert (T3 : logo completed_state = Some (sample_asset (lit "logo.png")))
    by reflexivity.
  assert (T4 : handleDownloadAll sample_numbers completed_state =
               Some (downloadBatch (slice_loop (sample_image 12 8)) sample_assets None))
    by reflexivity.
  pose proof (handleDownloadAll_whole_batch sample_numbers completed_state
                (sample_image 12 8) (sample_asset (lit "banner.png"))
                (sample_asset (lit "logo.png"))
                (downloadBatch (slice_loop (sample_image 12 8)) sample_assets None)
                T1 T2 eq_refl T3 eq_refl T4) as H.
  destruct H as (_ & H & _).
  apply (H 1%nat 1%nat); [unfold ROWS | unfold COLS]; lia.
Defined.

Lemma info_entry (slices : list SlicedImage) (assets : list MarketingAsset) (m : MetaData) :
  archive (downloadBatch slices assets (Some m)) !! lit "info.txt" =
  Some (TextFile (infoContent m)).
Proof.
  unfold downloadBatch. destruct (folder [] (lit "stickers") ∅) as [root files].
  cbn [archive]. rewrite (file_add_root _ _ _ info_name_plain).
  apply lookup_insert_eq.
Qed.

(** X30. What info.txt says follows the stored metadata as JavaScript reads
    it. For an object whose title and description are strings, those strings
    are written. For an object that has neither, such as the empty object a
    response without text leaves, info.txt reads "Title: undefined" and a
    description "undefined". Metadata that is absent, null, false or the
    empty string is not passed on at all. An object whose title is an object
    with an own property "toString" makes the reading throw, and nothing is
    saved. *)
Theorem handleDownloadAll_info_text (h : NumberHost) (s : State) :
  (forall members t d,
     metaData s = Some (JObject members) ->
     own_property members (lit "title") = Some (JString t) ->
     own_property members (lit "description") = Some (JString d) ->
     exists dl, handleDownloadAll h s = Some dl /\
       archive dl !! lit "info.txt" =
         Some (TextFile (lit "Title: " ++ t ++ [10; 10]%N ++ lit "Description:" ++ [10]%N ++
                         d ++ [10; 10]%N ++ lit "Generated by AI Creative Meme Studio"))) /\
  (forall members,
     metaData s = Some (JObject members) ->
     own_property members (lit "title") = None ->
     own_property members (lit "description") = None ->
     exists dl, handleDownloadAll h s = Some dl /\
       archive dl !! lit "info.txt" =
         Some (TextFile (lit "Title: undefined" ++ [10; 10]%N ++ lit "Description:" ++
                         [10]%N ++ lit "undefined" ++ [10; 10]%N ++
                         lit "Generated by AI Creative Meme Studio"))) /\
  (metaData s = None \/ metaData s = Some JNull \/ metaData s = Some (JBool false) \/
   metaData s = Some (JString []) ->
   exists assets,
     handleDownloadAll h s = Some (downloadBatch (slicedImages s) assets None)) /\
  (forall members inner v,
     metaData s = Some (JObject members) ->
     own_property members (lit "title") = Some (JObject inner) ->
     own_property inner (lit "toString") = Some v ->
     handleDownloadAll h s = None).
Proof.
  unfold handleDownloadAll. split; [| split; [| split]].
  - intros members t d -> Ht Hd. cbn [ToBoolean Get]. rewrite Ht, Hd.
    cbn [ToString_opt ToString]. eexists. split; [reflexivity |].
    rewrite info_entry. reflexivity.
  - intros members -> Ht Hd. cbn [ToBoolean Get]. rewrite Ht, Hd.
    cbn [ToString_opt]. eexists. split; [reflexivity |].
    rewrite info_entry. reflexivity.
  - intros [-> | [-> | [-> | ->]]]; cbn [ToBoolean]; eexists; reflexivity.
  - intros members inner v -> Ht Hv. cbn [ToBoolean Get]. rewrite Ht.
    cbn [ToString_opt ToString]. now rewrite Hv.
Qed.

(** ** Further checks on concrete inputs *)

Example getClient_vite :
  getClient vite_env = {| apiKey := lit "k-123"; warned := false |}.
Proof. reflexivity. Qed.

Example getClient_nothing :
  getClient {| process_env := None; import_meta_env := None |} =
  {| apiKey := []; warned := true |}.
Proof. reflexivity. Qed.

Example extractImage_skips_text :
  extractImage
    {| candidates :=
         Some [ {| content := Some {| parts := Some [text_part; image_part [];
                                                     image_part (lit "QUJD");
                                                     image_part (lit "REVG")] |} |};
                {| content := Some {| parts := Some [image_part (lit "R0hJ")] |} |} ];
       text := None |} = Resolved (lit "QUJD").
Proof. reflexivity. Qed.

(** A first candidate without content, as a blocked response has it, makes
    the read of its parts throw; the image of a second candidate is not
    looked at. *)
Example extractImage_no_content :
  extractImage
    {| candidates :=
         Some [ {| content := None |};
                {| content := Some {| parts := Some [image_part (lit "R0hJ")] |} |} ];
       text := None |} =
  Rejected (lit "Cannot read properties of undefined (reading 'parts')").
Proof. reflexivity. Qed.

Example ToString_array :
  ToString sample_numbers
    (JArray [JNumber (lit "1"); JNull; JArray [JBool true; JString (lit "a")]; JObject []]) =
  Some (lit "1,,true,a,[object Object]").
Proof. reflexivity. Qed.

Example ToString_throws :
  ToString sample_numbers (JArray [JObject [(lit "toString", JNumber (lit "1"))]]) = None.
Proof. reflexivity. Qed.

Example own_property_last_wins :
  own_property [(lit "title", JString (lit "a")); (lit "title", JString (lit "b"))]
    (lit "title") = Some (JString (lit "b")).
Proof. reflexivity. Qed.

(** Folders above a file, as JSZip adds them: every folder of the path; none
    for a slash that leads the name; for a doubled slash the folder before
    it, once. *)
Example file_add_nested :
  let z := file_add [] (lit "a/b/c.png") (TextFile []) ∅ in
  z !! lit "a/" = Some Folder /\ z !! lit "a/b/" = Some Folder /\
  z !! lit "a/b/c.png" = Some (TextFile []) /\ z !! lit "a" = None.
Proof. repeat split; reflexivity. Qed.

Example file_add_leading_slash :
  let z := file_add [] (lit "/x") (TextFile []) ∅ in
  z !! lit "/" = None /\ z !! lit "/x" = Some (TextFile []).
Proof. repeat split; reflexivity. Qed.

Example file_add_doubled_slash :
  let z := file_add [] (lit "a//b") (TextFile []) ∅ in
  z !! lit "a/" = Some Folder /\ z !! lit "a//" = None /\
  z !! lit "a//b" = Some (TextFile []).
Proof. repeat split; reflexivity. Qed.

(** The arithmetic of [processImage] on three sources, with the values the
    doubles have. 91 by 91 to 750 by 400: the scale 750 / 91 is
    8.241758241758241, the scaled width 749.9999999999999 and the offset x
    2^-44. 49 by 49 to 512 by 512: the scaled size is 511.99999999999994 and
    both offsets are 2^-45. 165 by 88 to 750 by 400: the scaled size is
    750.0000000000001 by 400.00000000000006 and the offsets are -2^-44 and
    -2^-45. *)
Example doubles_of_91_to_banner :
  (let img := sample_image 91 91 in
  let scale := cover_scale (750 # 1) (400 # 1) img in
  scale == 1159924354576879 # 140737488355328 /\
  inject_Z (width img) [*] scale == 6597069766655999 # 8796093022208 /\
  cover_x (750 # 1) (400 # 1) img == 1 # 17592186044416)%Q.
Proof. repeat split; vm_compute; reflexivity. Qed.

Example doubles_of_49_to_logo :
  (let img := sample_image 49 49 in
  let scale := cover_scale (512 # 1) (512 # 1) img in
  scale == 5882252574524729 # 562949953421312 /\
  inject_Z (width img) [*] scale == 9007199254740991 # 17592186044416 /\
  cover_x (512 # 1) (512 # 1) img == 1 # 35184372088832 /\
  cover_y (512 # 1) (512 # 1) img == 1 # 35184372088832)%Q.
Proof. repeat split; vm_compute; reflexivity. Qed.

Example doubles_of_165_by_88_to_banner :
  (let img := sample_image 165 88 in
  let scale := cover_scale (750 # 1) (400 # 1) img in
  inject_Z (width img) [*] scale == 6597069766656001 # 8796093022208 /\
  inject_Z (height img) [*] scale == 7036874417766401 # 17592186044416 /\
  cover_x (750 # 1) (400 # 1) img == - (1 # 17592186044416) /\
  cover_y (750 # 1) (400 # 1) img == - (1 # 35184372088832))%Q.
Proof. repeat split; vm_compute; reflexivity. Qed.

(** The double nearest to one tenth, and a tie that goes to the even
    neighbour: 2^53 + 1 is rounded to 2^53, 2^53 + 3 to 2^53 + 4. *)
Example round_tenth : (Double.round (1 # 10) == 3602879701896397 # 36028797018963968)%Q.
Proof. vm_compute. reflexivity. Qed.

Example round_ties_to_even :
  (Double.round (9007199254740993 # 1) == 9007199254740992 # 1 /\
   Double.round (9007199254740995 # 1) == 9007199254740996 # 1)%Q.
Proof. split; vm_compute; reflexivity. Qed.
